(** * Input selection and node-sync validation of the wallet core

    A shallow embedding of [src/shared/schema/index.js] (which holds two
    copies of the input-selection module: the one whose limit parameter is
    called [maxInputs], lines 300-598, and the one whose parameter is called
    [limit], lines 599-897) and of the expectations that
    [src/shared/__tests__/libs/iota/extendedApi.spec.js] pins on
    [isNodeSynced].

    JavaScript numbers are modelled as [Z] (integral balances, thresholds,
    limits and counters), arrays as [list], an [undefined] result as [None],
    thrown errors and promise rejections as values of [Error]. *)

From Equations Require Import Equations.
From Equations.Prop Require Import Logic.
From Stdlib Require Import ZArith Ascii String List Bool Lia Arith Permutation Sorted.
Import ListNotations.

Local Open Scope Z_scope.

(** ** Data model *)

(** The error messages the module throws, by the key of [Errors] that is used
    at the throw site, plus the two [TypeError]s the JavaScript runtime itself
    raises when a property of [undefined] is read. *)
Inductive Error : Type :=
| INSUFFICIENT_BALANCE
| INPUTS_THRESHOLD_CANNOT_BE_ZERO
| INVALID_MAX_INPUTS_PROVIDED
| INPUTS_LIMIT_CANNOT_BE_ZERO
| SOMETHING_WENT_WRONG_DURING_INPUT_SELECTION
| CANNOT_FIND_INPUTS_WITH_PROVIDED_LIMIT
| INCOMING_TRANSFERS
| ADDRESS_HAS_PENDING_TRANSFERS
| FUNDS_AT_SPENT_ADDRESSES
| NODE_NOT_SYNCED
(* [input.balance] with [input = head([])], line 375 / 676 *)
| TypeError_balance_of_undefined
(* [const { exactMatches, exceeded } = undefined], line 386 / 687 *)
| TypeError_destructure_undefined
(* a rejection coming from a collaborator (network layer) *)
| CollaboratorError (msg : string).

(** An entry of [addressData] ([AddressSchema], lines 81-99). *)
Record AddressEntry : Type := mkAddressEntry {
  entry_address : string;
  entry_index : Z;
  entry_balance : Z;
  entry_spent_local : bool;
  entry_spent_remote : bool
}.

(** An input object [{ address, balance, security, keyIndex }]. *)
Record Input : Type := mkInput {
  address : string;
  balance : Z;
  security : Z;
  keyIndex : Z
}.

(** What [prepareInputs] returns: [{ inputs, balance }]; the field [balance]
    is called [total] here, [balance] being the field of an input. *)
Record Selection : Type := mkSelection {
  inputs : list Input;
  total : Z
}.

(** A call either returns a value or throws. *)
Inductive Result (A : Type) : Type :=
| Ok (a : A)
| Throw (e : Error).
Arguments Ok {A} a.
Arguments Throw {A} e.

(** ** The lodash helpers the module uses, on arrays *)

Module Lodash.

Definition size {A} (l : list A) : Z := Z.of_nat (length l).

(** [reduce(xs, (acc, x) => acc + f(x), 0)] *)
Definition sumBy {A} (f : A -> Z) (xs : list A) : Z :=
  fold_left (fun acc x => acc + f x) xs 0.

(** [head(xs)]: the first element, [undefined] on an empty array. *)
Definition head {A} (xs : list A) : option A :=
  match xs with
  | [] => None
  | x :: _ => Some x
  end.

(** [includes(xs, v)] on an array of numbers. *)
Definition includes (xs : list Z) (v : Z) : bool := existsb (Z.eqb v) xs.

(** [differenceBy(xs, ys, 'address')]: the elements of [xs], in order, whose
    address is the address of no element of [ys]. *)
Definition differenceBy_address (xs ys : list Input) : list Input :=
  filter (fun x => negb (existsb (fun y => String.eqb (address y) (address x)) ys)) xs.

(** [uniqBy(xs, 'balance')]: only the first element of each balance is
    kept, in order of first occurrence. *)
Fixpoint uniqBy_balance_from (seen : list Z) (xs : list Input) : list Input :=
  match xs with
  | [] => []
  | x :: rest =>
      if includes seen (balance x) then uniqBy_balance_from seen rest
      else x :: uniqBy_balance_from (balance x :: seen) rest
  end.

Definition uniqBy_balance (xs : list Input) : list Input :=
  uniqBy_balance_from [] xs.

(** [minBy(xs, size)]: the first element of least size, [undefined] on an
    empty array (the running minimum is replaced only by a strictly smaller
    element). *)
Fixpoint minBy_size_from (best : list Z) (xs : list (list Z)) : list Z :=
  match xs with
  | [] => best
  | x :: rest =>
      if size x <? size best then minBy_size_from x rest
      else minBy_size_from best rest
  end.

Definition minBy_size (xs : list (list Z)) : option (list Z) :=
  match xs with
  | [] => None
  | x :: rest => Some (minBy_size_from x rest)
  end.

End Lodash.

(** ** [sortInputsByOptimalValue] (lines 446-447, 747-748)

    [inputs.slice().sort((a, b) => |diff - a.balance| - |diff - b.balance|)].
    [Array.prototype.sort] is stable (ECMAScript 2019), so the result is the
    stable sort of the array by the key [|diff - balance|]; it is modelled as
    a stable insertion sort. *)

Definition optimalDistance (diff : Z) (i : Input) : Z := Z.abs (diff - balance i).

Fixpoint insertByOptimalValue (diff : Z) (x : Input) (sorted : list Input) : list Input :=
  match sorted with
  | [] => [x]
  | y :: rest =>
      if optimalDistance diff x <=? optimalDistance diff y
      then x :: y :: rest
      else y :: insertByOptimalValue diff x rest
  end.

Definition sortInputsByOptimalValue (inputs : list Input) (diff : Z) : list Input :=
  fold_right (insertByOptimalValue diff) [] inputs.

(** ** [subsetSumWithLimit] (lines 459-524, 760-825)

    The closure's variables form the store that every call of [calculate]
    reads and writes. *)

Record SearchState : Type := mkSearchState {
  hasFoundAnExactMatch : bool;
  hasFoundNoMatches : bool;
  exactMatches : list (list Z);
  exceeded : list (list Z);
  callTimes : Z;
  sizeOfBalances : Z
}.

Definition initialSearchState : SearchState :=
  mkSearchState false false [] [] 0 0.

(** The object [{ exactMatches, exceeded }] a call of [calculate] returns.
    Its two fields are the closure's arrays themselves. *)
Record SearchResult : Type := mkSearchResult {
  res_exactMatches : list (list Z);
  res_exceeded : list (list Z)
}.

Section Calculate.

Variable limit : Z.
Variable MAX_CALL_TIMES : Z.
Variable threshold : Z.

(** Lines 470-490: the counter, the initial size, the two recordings. *)
Definition enterCall (balances partial : list Z) (st : SearchState) : SearchState :=
  let callTimes1 := callTimes st + 1 in
  let sizeOfBalances1 :=
    if callTimes1 =? 1 then Lodash.size balances else sizeOfBalances st in
  let sizeOfPartial := Lodash.size partial in
  let sum := Lodash.sumBy (fun v => v) partial in
  let isExact := (sum =? threshold) && (sizeOfPartial <=? limit) in
  let isOver := (sum >? threshold) && (sizeOfPartial <=? limit) in
  mkSearchState
    (if isExact then true else hasFoundAnExactMatch st)
    (hasFoundNoMatches st)
    (if isExact then exactMatches st ++ [partial] else exactMatches st)
    (if isOver then exceeded st ++ [partial] else exceeded st)
    callTimes1
    sizeOfBalances1.

(** Line 503-505. *)
Definition markLastIndex (index : Z) (st : SearchState) : SearchState :=
  if index =? sizeOfBalances st - 1
  then mkSearchState (hasFoundAnExactMatch st) true (exactMatches st)
         (exceeded st) (callTimes st) (sizeOfBalances st)
  else st.

(** Lines 515-520: what the call returns after its [each] loop. *)
Definition leaveCall (st : SearchState) : option SearchResult :=
  if hasFoundAnExactMatch st || hasFoundNoMatches st || (callTimes st =? MAX_CALL_TIMES)
  then Some (mkSearchResult (exactMatches st) (exceeded st))
  else None.

(** [calculate(balances, threshold, partial)]: the store after the call and
    the returned value ([None] is [undefined]).  [each] walks [balances]
    with its index; [balances.slice(index + 1)] is the part of the array
    after the current element. *)
Fixpoint calculate (balances : list Z) (partial : list Z) (st : SearchState)
  {struct balances} : SearchState * option SearchResult :=
  let st1 := enterCall balances partial st in
  if Lodash.sumBy (fun v => v) partial >=? threshold then (st1, None)
  else
    let st2 :=
      (fix each (rest : list Z) (index : Z) (s : SearchState) {struct rest} : SearchState :=
         match rest with
         | [] => s
         | b :: remaining =>
             if hasFoundAnExactMatch s then s
             else
               let s1 := markLastIndex index s in
               let s2 := fst (calculate remaining (partial ++ [b]) s1) in
               each remaining (index + 1) s2
         end) balances 0 st1 in
    (st2, leaveCall st2).

(** The [each] loop of a call on its own, from the element at [index]. *)
Fixpoint each (partial : list Z) (rest : list Z) (index : Z) (s : SearchState)
  {struct rest} : SearchState :=
  match rest with
  | [] => s
  | b :: remaining =>
      if hasFoundAnExactMatch s then s
      else
        let s1 := markLastIndex index s in
        let s2 := fst (calculate remaining (partial ++ [b]) s1) in
        each partial remaining (index + 1) s2
  end.

End Calculate.

(** [subsetSumWithLimit(limit, MAX_CALL_TIMES)(balances, threshold)]: a fresh
    closure, called once with the default [partial = []]. *)
Definition subsetSumWithLimit (limit MAX_CALL_TIMES : Z) (balances : list Z) (threshold : Z)
  : option SearchResult :=
  snd (calculate limit MAX_CALL_TIMES threshold balances [] initialSearchState).

(** The default values of the two parameters of [subsetSumWithLimit]. *)
Definition DEFAULT_LIMIT : Z := 2.
Definition DEFAULT_MAX_CALL_TIMES : Z := 100000.

(** ** [prepareInputs] (lines 335-435 and 636-736) *)

(** Modelled from the spec: [transformAddressDataToInputs] is imported from
    [./addresses], which is not among the sources; section 3 describes an
    input as the projection [{ address, balance, security, keyIndex }] of an
    address entry, in the order of the pool. *)
Definition transformAddressDataToInputs (addressData : list AddressEntry) (security : Z)
  : list Input :=
  map (fun d => mkInput (entry_address d) (entry_balance d) security (entry_index d))
      addressData.

(** [DEFAULT_SECURITY] comes from [config], which is not among the sources;
    the doc comment of [prepareInputs] gives it as 2. *)
Definition DEFAULT_SECURITY : Z := 2.

(** Lines 355-359 / 656-660: the inputs of the pool with a positive balance. *)
Definition eligibleInputs (addressData : list AddressEntry) (security : Z) : list Input :=
  filter (fun input => balance input >? 0)
         (transformAddressDataToInputs addressData security).

(** One pick of the loop at lines 365-376 / 666-677: the head of the inputs
    not yet selected, sorted by optimal value for the remaining difference. *)
Definition pickByOptimalValue (inputs selected : list Input) (diff : Z) : option Input :=
  Lodash.head
    (sortInputsByOptimalValue (Lodash.differenceBy_address inputs selected) diff).

(** ** The loop of [prepareInputs] comes to an end

    The loop is defined below by recursion on the number of inputs not yet
    selected; this needs the fact that the picked input is one of them. *)

(** [x] is the first element of [l] among those closest to [diff]: everything
    before it is strictly farther, everything after it at least as far. *)
Definition firstClosest (diff : Z) (l : list Input) (x : Input) : Prop :=
  exists before after,
    l = before ++ x :: after
    /\ (forall y, In y before -> optimalDistance diff x < optimalDistance diff y)
    /\ (forall y, In y after -> optimalDistance diff x <= optimalDistance diff y).

Lemma firstClosest_In diff l x : firstClosest diff l x -> In x l.
Proof.
  intros (before & after & -> & _). apply in_or_app. right. left. reflexivity.
Qed.

Lemma firstClosest_least diff l x y :
  firstClosest diff l x -> In y l -> optimalDistance diff x <= optimalDistance diff y.
Proof.
  intros (before & after & -> & Hb & Ha) Hy.
  apply in_app_or in Hy. destruct Hy as [Hy | [<- | Hy]].
  - apply Hb in Hy. lia.
  - lia.
  - apply Ha. assumption.
Qed.

Lemma head_insertByOptimalValue diff x sorted :
  Lodash.head (insertByOptimalValue diff x sorted) =
  match Lodash.head sorted with
  | None => Some x
  | Some y => if optimalDistance diff x <=? optimalDistance diff y then Some x else Some y
  end.
Proof.
  destruct sorted as [|y rest]; cbn [insertByOptimalValue Lodash.head]; [reflexivity|].
  destruct (_ <=? _); reflexivity.
Qed.

Lemma head_sort_firstClosest diff l :
  match Lodash.head (sortInputsByOptimalValue l diff) with
  | None => l = []
  | Some x => firstClosest diff l x
  end.
Proof.
  induction l as [|a l IH]; [reflexivity|].
  unfold sortInputsByOptimalValue in *. cbn [fold_right].
  rewrite head_insertByOptimalValue.
  destruct (Lodash.head (fold_right (insertByOptimalValue diff) [] l)) as [y|].
  - destruct (Z.leb_spec (optimalDistance diff a) (optimalDistance diff y)) as [Hle | Hlt].
    + exists [], l. split; [reflexivity|]. split; [intros ? []|].
      intros z Hz. pose proof (firstClosest_least _ _ _ _ IH Hz). lia.
    + destruct IH as (before & after & -> & Hb & Ha).
      exists (a :: before), after. split; [reflexivity|]. split; [|assumption].
      intros z [<- | Hz]; [lia | apply Hb; assumption].
  - subst l. exists [], []. split; [reflexivity|]. split; intros ? [].
Qed.

Lemma pickByOptimalValue_spec inputs selected diff :
  match pickByOptimalValue inputs selected diff with
  | None => Lodash.differenceBy_address inputs selected = []
  | Some x => firstClosest diff (Lodash.differenceBy_address inputs selected) x
  end.
Proof. apply head_sort_firstClosest. Qed.
Definition otherAddress (x i : Input) : bool := negb (String.eqb (address x) (address i)).

Lemma differenceBy_nil inputs : Lodash.differenceBy_address inputs [] = inputs.
Proof.
  unfold Lodash.differenceBy_address. cbn [existsb negb].
  induction inputs as [|i l IH]; cbn [filter]; [reflexivity | now rewrite IH].
Qed.

Lemma differenceBy_snoc inputs selected x :
  Lodash.differenceBy_address inputs (selected ++ [x]) =
  filter (otherAddress x) (Lodash.differenceBy_address inputs selected).
Proof.
  unfold Lodash.differenceBy_address, otherAddress.
  induction inputs as [|i l IH]; [reflexivity|].
  cbn [filter]. rewrite existsb_app. cbn [existsb]. rewrite orb_false_r.
  destruct (existsb _ selected); cbn [orb negb].
  - exact IH.
  - cbn [filter].
    destruct (String.eqb (address x) (address i)); cbn [negb]; rewrite IH; reflexivity.
Qed.

Lemma differenceBy_In inputs selected x :
  In x (Lodash.differenceBy_address inputs selected) ->
  In x inputs /\ ~ In (address x) (map address selected).
Proof.
  unfold Lodash.differenceBy_address. rewrite filter_In.
  intros [Hin Hnot]. split; [assumption|].
  intros Hsel. apply in_map_iff in Hsel. destruct Hsel as (y & Hy & Hiny).
  apply negb_true_iff in Hnot.
  assert (existsb (fun y => String.eqb (address y) (address x)) selected = true).
  { apply existsb_exists. exists y. split; [assumption|]. rewrite Hy. apply String.eqb_refl. }
  congruence.
Qed.

Lemma filter_length_lt {A} (p : A -> bool) (l : list A) (x : A) :
  In x l -> p x = false -> (length (filter p l) < length l)%nat.
Proof.
  induction l as [|a l IH]; intros Hin Hp; [contradiction|].
  cbn [filter length]. pose proof (filter_length_le p l).
  destruct Hin as [-> | Hin].
  - rewrite Hp. lia.
  - specialize (IH Hin Hp). destruct (p a); cbn [length]; lia.
Qed.

Lemma otherAddress_self x : otherAddress x x = false.
Proof. unfold otherAddress. now rewrite String.eqb_refl. Qed.

(** Each pick takes an input out of the inputs not yet selected, which is
    what makes the loop of [prepareInputs] end. *)
Lemma pick_decreases pool selected diff input :
  pickByOptimalValue pool selected diff = Some input ->
  (length (Lodash.differenceBy_address pool (selected ++ [input]))
   < length (Lodash.differenceBy_address pool selected))%nat.
Proof.
  intros Hpick.
  pose proof (pickByOptimalValue_spec pool selected diff) as Hspec.
  rewrite Hpick in Hspec. apply firstClosest_In in Hspec.
  rewrite differenceBy_snoc.
  apply (filter_length_lt (otherAddress input) _ input Hspec (otherAddress_self input)).
Qed.

(** The [while (availableBalance < threshold)] loop at lines 365-376 /
    666-677, from the current selection and accumulated balance.  When no
    input is left, [head] yields [undefined] and reading its balance throws.
    The recursion is on the number of inputs not yet selected. *)
Equations selectByOptimalValue (pool : list Input) (threshold : Z)
  (selectedInputsByOptimalValue : list Input) (availableBalance : Z)
  : Result (list Input * Z)
  by wf (length (Lodash.differenceBy_address pool selectedInputsByOptimalValue)) lt :=
selectByOptimalValue pool threshold selected availableBalance
  with inspect (availableBalance <? threshold) := {
  | exist _ false _ => Ok (selected, availableBalance)
  | exist _ true _
      with inspect (pickByOptimalValue pool selected (threshold - availableBalance)) := {
      | exist _ None _ => Throw TypeError_balance_of_undefined
      | exist _ (Some input) Hpick =>
          selectByOptimalValue pool threshold (selected ++ [input])
            (availableBalance + balance input) } }.
Next Obligation. eapply pick_decreases; eassumption. Qed.

(** An [undefined] collection counts as an empty one for [includes] and
    [size]. *)
Definition orEmpty {A} (collection : option (list A)) : list A :=
  match collection with
  | Some l => l
  | None => []
  end.

(** Lines 413-426 / 714-727. *)
Definition findSetWithMinSize (inputsWithUniqueBalances : list Input)
  (exceeded : list (list Z)) (threshold maxInputs : Z) : Result Selection :=
  let inputsWithMinSize := orEmpty (Lodash.minBy_size exceeded) in
  let finalInputs :=
    filter (fun input => Lodash.includes inputsWithMinSize (balance input))
           inputsWithUniqueBalances in
  let balance_ := Lodash.sumBy balance finalInputs in
  if (balance_ <=? threshold) || (Lodash.size inputsWithMinSize >? maxInputs)
  then Throw SOMETHING_WENT_WRONG_DURING_INPUT_SELECTION
  else Ok (mkSelection finalInputs balance_).

(** Lines 384-428 / 685-729: the selection through the subset-sum search,
    over the inputs with unique balances. *)
Definition selectWithLimit (pool : list Input) (threshold limit : Z) : Result Selection :=
  let inputsWithUniqueBalances := Lodash.uniqBy_balance pool in
  match subsetSumWithLimit limit DEFAULT_MAX_CALL_TIMES
          (map balance inputsWithUniqueBalances) threshold with
  | None => Throw TypeError_destructure_undefined
  | Some found =>
      if negb (Lodash.size (res_exactMatches found) =? 0)
      then
        let match_ := orEmpty (Lodash.head (res_exactMatches found)) in
        let inputsWithExactMatch :=
          filter (fun input => Lodash.includes match_ (balance input))
                 inputsWithUniqueBalances in
        let balance_ := Lodash.sumBy balance inputsWithExactMatch in
        if negb (balance_ =? threshold)
        then Throw SOMETHING_WENT_WRONG_DURING_INPUT_SELECTION
        else Ok (mkSelection inputsWithExactMatch balance_)
      else if negb (Lodash.size (res_exceeded found) =? 0)
      then findSetWithMinSize inputsWithUniqueBalances (res_exceeded found) threshold limit
      else Throw CANNOT_FIND_INPUTS_WITH_PROVIDED_LIMIT
  end.

(** The limit argument as callers may pass it: a number, [null], or some
    other value that is not a number.  An absent argument takes the
    parameter's default value. *)
Inductive LimitArg : Type :=
| LimitNumber (n : Z)
| LimitNull
| LimitOther.

Definition isNumber (l : LimitArg) : bool :=
  match l with
  | LimitNumber _ => true
  | _ => false
  end.

(** The default value of the limit parameter of [prepareInputs], in both
    copies. *)
Definition DEFAULT_INPUTS_LIMIT : LimitArg := LimitNumber 2.

(** ** [getInputs] (lines 536-579 and 837-878)

    A promise is modelled by how it settles, together with the stages that
    were run to get there, in order. *)

Inductive Stage : Type :=
(* filterNonFundedPendingTransactions / filterNonFundedBundles *)
| NonFundedStage
(* omitAddressDataWithIncomingTransactions /
   filterAddressDataWithPendingIncomingTransactions *)
| IncomingStage
(* filterAddressDataWithPendingOutgoingTransactions *)
| OutgoingStage
(* pickUnspentAddressData / filterSpentAddressData *)
| SpentStage
(* prepareInputs *)
| SelectionStage.

Definition Promise (A : Type) : Type := (list Stage * Result A)%type.

(** [Promise.reject(new Error(e))], or a [throw] inside a [then] callback. *)
Definition reject {A} (e : Error) : Promise A := ([], Throw e).

(** The call of a stage, with the way it settles. *)
Definition run {A} (s : Stage) (r : Result A) : Promise A := ([s], r).

(** [p.then(k)]: [k] runs only when [p] resolves. *)
Definition andThen {A B} (p : Promise A) (k : A -> Promise B) : Promise B :=
  match p with
  | (stages, Ok a) => let (more, r) := k a in (stages ++ more, r)
  | (stages, Throw e) => (stages, Throw e)
  end.

Notation "x <- p ;; k" := (andThen p (fun x => k))
  (at level 61, p at next level, right associativity).

(** [reduce(addressData, (acc, data) => acc + data.balance, 0)] *)
Definition totalBalance (addressData : list AddressEntry) : Z :=
  Lodash.sumBy entry_balance addressData.

(** The copy of the module whose parameter is [maxInputs] (lines 300-598). *)
Module ByMaxInputs.

Definition prepareInputs (addressData : list AddressEntry) (threshold : Z)
  (maxInputs : LimitArg) (security : Z) : Result Selection :=
  if totalBalance addressData <? threshold
  then Throw INSUFFICIENT_BALANCE
  else if threshold =? 0
  then Throw INPUTS_THRESHOLD_CANNOT_BE_ZERO
  else
    match maxInputs with
    | LimitNumber maxInputs =>
        let inputs := eligibleInputs addressData security in
        match selectByOptimalValue inputs threshold [] 0 with
        | Throw e => Throw e
        | Ok (selectedInputsByOptimalValue, availableBalance) =>
            if (maxInputs >? 0) && (Lodash.size selectedInputsByOptimalValue >? maxInputs)
            then selectWithLimit inputs threshold maxInputs
            else Ok (mkSelection selectedInputsByOptimalValue availableBalance)
        end
    | _ => Throw INVALID_MAX_INPUTS_PROVIDED
    end.

Section GetInputs.

(** The network layer and the filters of [./addresses] and [./transfers]
    are not among the sources: they are the parameters of [getInputs]. *)
Variable Provider : Type.
Variable Transaction : Type.
Variable transferValue : Transaction -> Z.
Variable filterNonFundedPendingTransactions :
  Provider -> list Transaction -> list AddressEntry -> Result (list Transaction).
Variable omitAddressDataWithIncomingTransactions :
  list AddressEntry -> list Transaction -> list AddressEntry.
Variable filterAddressDataWithPendingOutgoingTransactions :
  list AddressEntry -> list Transaction -> list AddressEntry.
Variable pickUnspentAddressData :
  Provider -> list AddressEntry -> list Transaction -> Result (list AddressEntry).

(** The default value of [maxInputs] is 0 here. *)
Definition getInputs (provider : Provider) (addressData : list AddressEntry)
  (normalisedTransactionsList : list Transaction) (threshold : Z) (maxInputs : LimitArg)
  : Promise Selection :=
  if totalBalance addressData <? threshold
  then reject INSUFFICIENT_BALANCE
  else if negb (isNumber maxInputs)
  then reject INVALID_MAX_INPUTS_PROVIDED
  else
    unspentAddressData <-
      (pendingValueTransactions <-
         run NonFundedStage
           (filterNonFundedPendingTransactions provider
              (filter (fun tx => negb (transferValue tx =? 0)) normalisedTransactionsList)
              addressData) ;;
       addressDataForInputs <-
         run IncomingStage
           (Ok (omitAddressDataWithIncomingTransactions addressData
                  pendingValueTransactions)) ;;
       if totalBalance addressDataForInputs <? threshold
       then reject INCOMING_TRANSFERS
       else
         addressDataForInputs <-
           run OutgoingStage
             (Ok (filterAddressDataWithPendingOutgoingTransactions addressDataForInputs
                    normalisedTransactionsList)) ;;
         if totalBalance addressDataForInputs <? threshold
         then reject ADDRESS_HAS_PENDING_TRANSFERS
         else
           run SpentStage
             (pickUnspentAddressData provider addressDataForInputs
                normalisedTransactionsList)) ;;
    if totalBalance unspentAddressData <? threshold
    then reject FUNDS_AT_SPENT_ADDRESSES
    else run SelectionStage
           (prepareInputs unspentAddressData threshold maxInputs DEFAULT_SECURITY).

End GetInputs.

End ByMaxInputs.

(** The copy of the module whose parameter is [limit] (lines 599-897). *)
Module ByLimit.

Definition prepareInputs (addressData : list AddressEntry) (threshold : Z)
  (limit : LimitArg) (security : Z) : Result Selection :=
  if totalBalance addressData <? threshold
  then Throw INSUFFICIENT_BALANCE
  else if threshold =? 0
  then Throw INPUTS_THRESHOLD_CANNOT_BE_ZERO
  else if match limit with LimitNumber 0 => true | _ => false end
  then Throw INPUTS_LIMIT_CANNOT_BE_ZERO
  else
    let inputs := eligibleInputs addressData security in
    match selectByOptimalValue inputs threshold [] 0 with
    | Throw e => Throw e
    | Ok (selectedInputsByOptimalValue, availableBalance) =>
        match limit with
        | LimitNumber limit =>
            if Lodash.size selectedInputsByOptimalValue >? limit
            then selectWithLimit inputs threshold limit
            else Ok (mkSelection selectedInputsByOptimalValue availableBalance)
        | _ => Ok (mkSelection selectedInputsByOptimalValue availableBalance)
        end
    end.

Section GetInputs.

Variable Provider : Type.
Variable Transaction : Type.
Variable constructBundlesFromTransactions : list Transaction -> list (list Transaction).
Variable filterNonFundedBundles :
  Provider -> list (list Transaction) -> Result (list (list Transaction)).
Variable filterAddressDataWithPendingIncomingTransactions :
  list AddressEntry -> list Transaction -> list AddressEntry.
Variable filterAddressDataWithPendingOutgoingTransactions :
  list AddressEntry -> list Transaction -> list AddressEntry.
Variable filterSpentAddressData :
  Provider -> list AddressEntry -> list Transaction -> Result (list AddressEntry).

(** The default value of [maxInputs] is [null] here. *)
Definition getInputs (provider : Provider) (addressData : list AddressEntry)
  (transactions : list Transaction) (threshold : Z) (maxInputs : LimitArg)
  : Promise Selection :=
  if totalBalance addressData <? threshold
  then reject INSUFFICIENT_BALANCE
  else if match maxInputs with LimitOther => true | _ => false end
  then reject INVALID_MAX_INPUTS_PROVIDED
  else
    unspentAddressData <-
      (fundedBundles <-
         run NonFundedStage
           (filterNonFundedBundles provider
              (constructBundlesFromTransactions transactions)) ;;
       addressDataForInputs <-
         run IncomingStage
           (Ok (filterAddressDataWithPendingIncomingTransactions addressData
                  (concat fundedBundles))) ;;
       if totalBalance addressDataForInputs <? threshold
       then reject INCOMING_TRANSFERS
       else
         addressDataForInputs <-
           run OutgoingStage
             (Ok (filterAddressDataWithPendingOutgoingTransactions addressDataForInputs
                    transactions)) ;;
         if totalBalance addressDataForInputs <? threshold
         then reject ADDRESS_HAS_PENDING_TRANSFERS
         else
           run SpentStage
             (filterSpentAddressData provider addressDataForInputs transactions)) ;;
    if totalBalance unspentAddressData <? threshold
    then reject FUNDS_AT_SPENT_ADDRESSES
    else run SelectionStage
           (prepareInputs unspentAddressData threshold maxInputs DEFAULT_SECURITY).

End GetInputs.

End ByLimit.

(** ** [isNodeSynced] (libs/iota/extendedApi) *)

(** The answer of [getNodeInfo].  The test suite answers some requests
    without the two indices, which are then [undefined]. *)
Record NodeInfo : Type := mkNodeInfo {
  latestMilestone : string;
  latestSolidSubtangleMilestone : string;
  latestMilestoneIndex : option Z;
  latestSolidSubtangleMilestoneIndex : option Z
}.

Fixpoint repeatTryte (c : Ascii.ascii) (n : nat) : string :=
  match n with
  | O => EmptyString
  | S n' => String c (repeatTryte c n')
  end.

(** Modelled from the spec: [EMPTY_HASH_TRYTES] is imported from
    [libs/iota/utils], which is not among the sources; section 8 calls it the
    all-9s sentinel, and a hash has 81 trytes. *)
Definition EMPTY_HASH_TRYTES : string := repeatTryte "9"%char 81.

(** [latestMilestoneIndex - latestSolidSubtangleMilestoneIndex]; [None] is the
    [NaN] that arithmetic on [undefined] gives. *)
Definition indexDiff (info : NodeInfo) : option Z :=
  match latestMilestoneIndex info, latestSolidSubtangleMilestoneIndex info with
  | Some a, Some b => Some (a - b)
  | _, _ => None
  end.

(** A comparison with [NaN] is false. *)
Definition exceedsOne (d : option Z) : bool :=
  match d with
  | Some d => d >? 1
  | None => false
  end.

Definition isOne (d : option Z) : bool :=
  match d with
  | Some d => d =? 1
  | None => false
  end.

Definition FIVE_MINUTES : Z := 5 * 60 * 1000.

(** [now - timestamp < 5 minutes], both in milliseconds. *)
Definition isWithinFiveMinutes (timestamp now : Z) : bool :=
  now - timestamp <? FIVE_MINUTES.

(** Modelled from the spec: [isNodeSynced] is defined in
    [libs/iota/extendedApi], which is not among the sources (only its test
    suite is).  This is the algorithm of section 4.4, step by step: the
    never-synced sentinel (step 2), differing hashes (step 3), the index
    difference and the timestamp of the sampled transaction (step 4). *)
Definition isSynced_as_specified (info : NodeInfo) (timestamp now : Z) : Result bool :=
  let agree := String.eqb (latestMilestone info) (latestSolidSubtangleMilestone info) in
  if agree && String.eqb (latestMilestone info) EMPTY_HASH_TRYTES
  then Throw NODE_NOT_SYNCED
  else if negb agree
  then Throw NODE_NOT_SYNCED
  else if exceedsOne (indexDiff info)
  then Throw NODE_NOT_SYNCED
  else Ok (isWithinFiveMinutes timestamp now).

(** Modelled from the spec: [isNodeSynced] is defined in
    [libs/iota/extendedApi], which is not among the sources.  The steps are
    those of section 4.4, with the condition of step 3 as the test suite of the
    function pins it (extendedApi.spec.js, lines 114-201): a node whose
    hashes differ but whose solid milestone index is one behind the latest
    goes on to the timestamp check. *)
Definition isNodeSynced (info : NodeInfo) (timestamp now : Z) : Result bool :=
  let agree := String.eqb (latestMilestone info) (latestSolidSubtangleMilestone info) in
  let empty := String.eqb (latestMilestone info) EMPTY_HASH_TRYTES in
  if agree && empty
  then Throw NODE_NOT_SYNCED
  else if negb agree && negb (isOne (indexDiff info) && negb empty)
  then Throw NODE_NOT_SYNCED
  else if agree && exceedsOne (indexDiff info)
  then Throw NODE_NOT_SYNCED
  else Ok (isWithinFiveMinutes timestamp now).

(** *** The cases of extendedApi.spec.js

    Each case of [describe('#isNodeSynced')]: the node info the mocked node
    answers, the age of the timestamp of the transaction it serves (in
    milliseconds before the call), and what the test expects. *)
Record SyncCase : Type := mkSyncCase {
  case_info : NodeInfo;
  case_age : Z;
  case_expected : Result bool
}.

Definition hashOf (c : Ascii.ascii) : string := repeatTryte c 81.

(** Lines 38-73. *)
Definition case_hashes_differ (age : Z) : SyncCase :=
  mkSyncCase (mkNodeInfo EMPTY_HASH_TRYTES (hashOf "U"%char) None None)
    age (Throw NODE_NOT_SYNCED).

(** Lines 75-110. *)
Definition case_empty_hash (age : Z) : SyncCase :=
  mkSyncCase (mkNodeInfo EMPTY_HASH_TRYTES EMPTY_HASH_TRYTES None None)
    age (Throw NODE_NOT_SYNCED).

Definition info_one_behind : NodeInfo :=
  mkNodeInfo (hashOf "U"%char) (hashOf "A"%char) (Some 426550) (Some (426550 - 1)).

(** Lines 114-147: the sample transaction is older than five minutes. *)
Definition case_one_behind_old (age : Z) : SyncCase :=
  mkSyncCase info_one_behind age (Ok false).

(** Lines 149-201: the timestamp is [Date.now() - 60000]. *)
Definition case_one_behind_recent : SyncCase :=
  mkSyncCase info_one_behind 60000 (Ok true).

Definition info_hashes_agree : NodeInfo :=
  mkNodeInfo (hashOf "U"%char) (hashOf "U"%char) None None.

(** Lines 204-236. *)
Definition case_agree_old (age : Z) : SyncCase :=
  mkSyncCase info_hashes_agree age (Ok false).

(** Lines 238-286. *)
Definition case_agree_recent : SyncCase :=
  mkSyncCase info_hashes_agree 60000 (Ok true).

(** The suite, for a sample transaction of the given age (five minutes or
    more: "from five minutes ago"). *)
Definition extendedApi_cases (sampleAge : Z) : list SyncCase :=
  [ case_hashes_differ sampleAge;
    case_empty_hash sampleAge;
    case_one_behind_old sampleAge;
    case_one_behind_recent;
    case_agree_old sampleAge;
    case_agree_recent ].

(** An implementation passes a case when, called at any time [now] on the
    case's node with a transaction of the case's age, it settles as
    expected. *)
Definition passesCase (f : NodeInfo -> Z -> Z -> Result bool) (c : SyncCase) : Prop :=
  forall now, f (case_info c) (now - case_age c) now = case_expected c.

(** ** Pools for examples *)

(** A pool from a list of balances: entry [k] has address ["A"], ["AA"], ...
    and key index [k]. *)
Fixpoint poolFrom (prefix : string) (k : Z) (balances : list Z) : list AddressEntry :=
  match balances with
  | [] => []
  | b :: rest =>
      mkAddressEntry (String.append "A"%string prefix) k b false false
        :: poolFrom (String.append "A"%string prefix) (k + 1) rest
  end.

Definition poolOf (balances : list Z) : list AddressEntry := poolFrom EmptyString 0 balances.

(** The balances of a selection, with its total. *)
Definition balancesOf (r : Result Selection) : Result (list Z * Z) :=
  match r with
  | Throw e => Throw e
  | Ok s => Ok (map balance (inputs s), total s)
  end.

(** All the sub-lists of a list, in order. *)
Fixpoint sublists {A} (l : list A) : list (list A) :=
  match l with
  | [] => [[]]
  | x :: rest => map (cons x) (sublists rest) ++ sublists rest
  end.

(** * Vocabulary of the properties *)

(** The run of the loop from a selection [sel] with accumulated balance
    [avail] to its final selection: while the accumulated balance is below
    the threshold, the next input is the first of the inputs not yet selected
    among those closest to the remaining difference. *)
Inductive GreedyRun (pool : list Input) (threshold : Z)
  : list Input -> Z -> list Input -> Z -> Prop :=
| run_stop sel avail :
    threshold <= avail ->
    GreedyRun pool threshold sel avail sel avail
| run_pick sel avail x sel' avail' :
    avail < threshold ->
    firstClosest (threshold - avail) (Lodash.differenceBy_address pool sel) x ->
    GreedyRun pool threshold (sel ++ [x]) (avail + balance x) sel' avail' ->
    GreedyRun pool threshold sel avail sel' avail'.

(** The store holds at most one exact match, and holds one exactly when the
    flag is set. *)
Definition atMostOneExactMatch (s : SearchState) : Prop :=
  if hasFoundAnExactMatch s
  then exists m, exactMatches s = [m]
  else exactMatches s = [].

(** After the first call has been entered, the initial size is never
    written again, and [hasFoundNoMatches] is never reset. *)
Definition settledStore (n : Z) (marked : bool) (s : SearchState) : Prop :=
  1 <= callTimes s
  /\ sizeOfBalances s = n
  /\ (marked = true -> hasFoundNoMatches s = true).

(** What it means for the promise [p] of [getInputs] to apply the three
    filters in order and to fail fast: [incoming], [outgoing] and [spent]
    are what the pending-incoming, pending-outgoing and spent filters yield,
    [select] is the final selection.  The stages a promise carries are the
    collaborators that were called: when a stage fails, the later ones were
    not. *)
Definition filtersInOrder (threshold : Z) (incoming outgoing : list AddressEntry)
  (spent : Result (list AddressEntry)) (select : list AddressEntry -> Result Selection)
  (p : Promise Selection) : Prop :=
  (totalBalance incoming < threshold ->
   p = ([NonFundedStage; IncomingStage], Throw INCOMING_TRANSFERS))
  /\ (threshold <= totalBalance incoming ->
      totalBalance outgoing < threshold ->
      p = ([NonFundedStage; IncomingStage; OutgoingStage],
           Throw ADDRESS_HAS_PENDING_TRANSFERS))
  /\ (threshold <= totalBalance incoming ->
      threshold <= totalBalance outgoing ->
      forall unspent,
        spent = Ok unspent ->
        (totalBalance unspent < threshold ->
         p = ([NonFundedStage; IncomingStage; OutgoingStage; SpentStage],
              Throw FUNDS_AT_SPENT_ADDRESSES))
        /\ (threshold <= totalBalance unspent ->
            p = ([NonFundedStage; IncomingStage; OutgoingStage; SpentStage; SelectionStage],
                 select unspent))).

Definition seventeenBalances : list Z :=
  [1; 2; 3; 4; 5; 6; 7; 8; 9; 10; 11; 12; 13; 14; 15; 16; 17].

(** A wallet for the examples: a transaction is the address it credits; the
    incoming filter drops the addresses of the pending transactions, the
    outgoing filter keeps everything, the spent filter drops the entries
    marked as spent. *)
Definition exampleOmitIncoming (addressData : list AddressEntry) (pending : list string)
  : list AddressEntry :=
  filter (fun d => negb (existsb (String.eqb (entry_address d)) pending)) addressData.

Definition exampleFilterSpent (_ : unit) (addressData : list AddressEntry) (_ : list string)
  : Result (list AddressEntry) :=
  Ok (filter (fun d => negb (entry_spent_local d || entry_spent_remote d)) addressData).

Definition exampleGetInputs (addressData : list AddressEntry) (transactions : list string)
  (threshold : Z) : Promise Selection :=
  ByMaxInputs.getInputs unit string (fun _ => 1)
    (fun _ txs _ => Ok txs) exampleOmitIncoming (fun d _ => d) exampleFilterSpent
    tt addressData transactions threshold (LimitNumber 0).

(** * Properties *)

(** ** The recursive search, unfolded *)

Lemma calculate_unfold limit maxc threshold balances partial st :
  calculate limit maxc threshold balances partial st =
  let st1 := enterCall limit threshold balances partial st in
  if Lodash.sumBy (fun v => v) partial >=? threshold then (st1, None)
  else
    let st2 := each limit maxc threshold partial balances 0 st1 in
    (st2, leaveCall maxc st2).
Proof.
  destruct balances as [|b bs]; [reflexivity|].
  cbn [calculate each]. cbv zeta.
  destruct (_ >=? _); [reflexivity|].
  destruct (hasFoundAnExactMatch _); [reflexivity|].
  set (s2 := fst _).
  f_equal.
  - generalize (0 + 1), s2. clear.
    induction bs as [|c cs IH]; intros i s; [reflexivity|].
    cbn [each]. destruct (hasFoundAnExactMatch s); [reflexivity|]. apply IH.
  - f_equal. generalize (0 + 1), s2. clear.
    induction bs as [|c cs IH]; intros i s; [reflexivity|].
    cbn [each]. destruct (hasFoundAnExactMatch s); [reflexivity|]. apply IH.
Qed.

(** ** The model of [sort] is the stable sort by distance *)

Section StableSort.

Variable diff : Z.

Definition closerOrEqual (a b : Input) : Prop :=
  optimalDistance diff a <= optimalDistance diff b.

Definition atDistance (k : Z) (i : Input) : bool := optimalDistance diff i =? k.

Lemma insertByOptimalValue_Permutation x sorted :
  Permutation (insertByOptimalValue diff x sorted) (x :: sorted).
Proof.
  induction sorted as [|y rest IH]; cbn [insertByOptimalValue]; [reflexivity|].
  destruct (_ <=? _); [reflexivity|].
  rewrite IH. apply perm_swap.
Qed.

Lemma sortInputsByOptimalValue_Permutation l :
  Permutation (sortInputsByOptimalValue l diff) l.
Proof.
  induction l as [|a l IH]; [reflexivity|].
  unfold sortInputsByOptimalValue in *. cbn [fold_right].
  rewrite insertByOptimalValue_Permutation. apply perm_skip. assumption.
Qed.

Lemma insertByOptimalValue_Sorted x sorted :
  Sorted closerOrEqual sorted ->
  Sorted closerOrEqual (insertByOptimalValue diff x sorted).
Proof.
  induction 1 as [|y rest Hsorted IH Hhd]; cbn [insertByOptimalValue].
  - repeat constructor.
  - destruct (Z.leb_spec (optimalDistance diff x) (optimalDistance diff y)) as [Hle | Hgt].
    + constructor; [constructor; assumption | constructor; assumption].
    + constructor; [assumption|].
      destruct rest as [|z rest]; cbn [insertByOptimalValue].
      * constructor. unfold closerOrEqual. lia.
      * destruct (_ <=? _); constructor; [unfold closerOrEqual; lia|].
        inversion Hhd; assumption.
Qed.

Lemma sortInputsByOptimalValue_Sorted l :
  Sorted closerOrEqual (sortInputsByOptimalValue l diff).
Proof.
  induction l as [|a l IH]; [constructor|].
  unfold sortInputsByOptimalValue in *. cbn [fold_right].
  apply insertByOptimalValue_Sorted. assumption.
Qed.

Lemma filter_insertByOptimalValue k x sorted :
  filter (atDistance k) (insertByOptimalValue diff x sorted)
  = filter (atDistance k) (x :: sorted).
Proof.
  induction sorted as [|y rest IH]; cbn [insertByOptimalValue]; [reflexivity|].
  destruct (Z.leb_spec (optimalDistance diff x) (optimalDistance diff y)) as [Hle | Hgt];
    [reflexivity|].
  cbn [filter] in *. rewrite IH. unfold atDistance.
  destruct (Z.eqb_spec (optimalDistance diff x) k) as [Hx | Hx];
    destruct (Z.eqb_spec (optimalDistance diff y) k) as [Hy | Hy];
    try reflexivity.
  lia.
Qed.

(** Inputs at the same distance keep the order they have in the array. *)
Lemma sortInputsByOptimalValue_stable k l :
  filter (atDistance k) (sortInputsByOptimalValue l diff) = filter (atDistance k) l.
Proof.
  induction l as [|a l IH]; [reflexivity|].
  unfold sortInputsByOptimalValue in *. cbn [fold_right].
  rewrite filter_insertByOptimalValue. cbn [filter]. rewrite IH. reflexivity.
Qed.

End StableSort.

(** ** Sums *)

Section Sums.

Context {A : Type} (f : A -> Z).

Lemma fold_sum_shift (xs : list A) (acc : Z) :
  fold_left (fun a x => a + f x) xs acc = acc + Lodash.sumBy f xs.
Proof.
  unfold Lodash.sumBy. revert acc.
  induction xs as [|x xs IH]; intros acc; cbn [fold_left].
  - lia.
  - rewrite IH, (IH (0 + f x)). lia.
Qed.

Lemma sumBy_nil : Lodash.sumBy f [] = 0.
Proof. reflexivity. Qed.

Lemma sumBy_cons (x : A) (xs : list A) :
  Lodash.sumBy f (x :: xs) = f x + Lodash.sumBy f xs.
Proof.
  unfold Lodash.sumBy at 1. cbn [fold_left]. rewrite fold_sum_shift. lia.
Qed.

Lemma sumBy_app (xs ys : list A) :
  Lodash.sumBy f (xs ++ ys) = Lodash.sumBy f xs + Lodash.sumBy f ys.
Proof.
  induction xs as [|x xs IH]; cbn [app].
  - rewrite sumBy_nil. lia.
  - rewrite !sumBy_cons, IH. lia.
Qed.

Lemma sumBy_snoc (xs : list A) (x : A) :
  Lodash.sumBy f (xs ++ [x]) = Lodash.sumBy f xs + f x.
Proof. rewrite sumBy_app, sumBy_cons, sumBy_nil. lia. Qed.

Lemma sumBy_nonneg (xs : list A) :
  (forall x, In x xs -> 0 <= f x) -> 0 <= Lodash.sumBy f xs.
Proof.
  induction xs as [|x xs IH]; intros Hpos.
  - rewrite sumBy_nil. lia.
  - rewrite sumBy_cons.
    assert (0 <= f x) by (apply Hpos; left; reflexivity).
    assert (0 <= Lodash.sumBy f xs) by (apply IH; intros; apply Hpos; right; assumption).
    lia.
Qed.

End Sums.

Lemma sumBy_map {A B} (g : A -> B) (f : B -> Z) (xs : list A) :
  Lodash.sumBy f (map g xs) = Lodash.sumBy (fun x => f (g x)) xs.
Proof.
  induction xs as [|x xs IH]; [reflexivity|].
  cbn [map]. rewrite !sumBy_cons, IH. reflexivity.
Qed.

Lemma size_nonneg {A} (l : list A) : 0 <= Lodash.size l.
Proof. unfold Lodash.size. lia. Qed.

Lemma NoDup_map_filter {A B} (g : A -> B) (p : A -> bool) (l : list A) :
  NoDup (map g l) -> NoDup (map g (filter p l)).
Proof.
  induction l as [|a l IH]; intros Hnd; [constructor|].
  cbn [map] in Hnd. inversion Hnd as [|? ? Hnotin Hnd']; subst.
  cbn [filter]. destruct (p a); [|apply IH; assumption].
  cbn [map]. constructor; [|apply IH; assumption].
  intros Hin. apply Hnotin. apply in_map_iff in Hin. destruct Hin as (y & Hy & Hiny).
  apply filter_In in Hiny. apply in_map_iff. exists y. tauto.
Qed.

(** Removing the inputs that carry the address of [x] removes [x] alone when
    addresses are unique. *)
Lemma sumBy_filter_otherAddress (l : list Input) (x : Input) :
  NoDup (map address l) -> In x l ->
  Lodash.sumBy balance (filter (otherAddress x) l) = Lodash.sumBy balance l - balance x.
Proof.
  induction l as [|a l IH]; intros Hnd Hin; [contradiction|].
  cbn [map] in Hnd. inversion Hnd as [|? ? Hnotin Hnd']; subst.
  cbn [filter]. rewrite sumBy_cons. destruct Hin as [-> | Hin].
  - rewrite otherAddress_self.
    assert (Hall : filter (otherAddress x) l = l).
    { clear IH Hnd Hnd'. induction l as [|b l IHl]; [reflexivity|].
      cbn [filter]. unfold otherAddress at 1.
      destruct (String.eqb_spec (address x) (address b)) as [E | E].
      - exfalso. apply Hnotin. left. symmetry. exact E.
      - cbn [negb]. f_equal. apply IHl. intros H. apply Hnotin. right. exact H. }
    rewrite Hall. lia.
  - assert (Hother : otherAddress x a = true).
    { unfold otherAddress. destruct (String.eqb_spec (address x) (address a)) as [E | E];
        [|reflexivity].
      exfalso. apply Hnotin. rewrite <- E. apply in_map. assumption. }
    rewrite Hother, sumBy_cons, IH by assumption. lia.
Qed.

(** ** The greedy pass *)

(** One turn of the loop. *)
Lemma selectByOptimalValue_step pool threshold selected availableBalance :
  selectByOptimalValue pool threshold selected availableBalance =
  if availableBalance <? threshold then
    match pickByOptimalValue pool selected (threshold - availableBalance) with
    | None => Throw TypeError_balance_of_undefined
    | Some input =>
        selectByOptimalValue pool threshold (selected ++ [input])
          (availableBalance + balance input)
    end
  else Ok (selected, availableBalance).
Proof.
  funelim (selectByOptimalValue pool threshold selected availableBalance).
  - rewrite e. reflexivity.
  - rewrite e, Hpick. congruence.
  - rewrite e, e0. reflexivity.
Qed.

(** Induction along the turns of the loop. *)
Lemma selectByOptimalValue_ind' (pool : list Input) (threshold : Z)
  (P : list Input -> Z -> Result (list Input * Z) -> Prop) :
  (forall sel avail, threshold <= avail -> P sel avail (Ok (sel, avail))) ->
  (forall sel avail,
      avail < threshold -> Lodash.differenceBy_address pool sel = [] ->
      P sel avail (Throw TypeError_balance_of_undefined)) ->
  (forall sel avail x r,
      avail < threshold ->
      firstClosest (threshold - avail) (Lodash.differenceBy_address pool sel) x ->
      r = selectByOptimalValue pool threshold (sel ++ [x]) (avail + balance x) ->
      P (sel ++ [x]) (avail + balance x) r ->
      P sel avail r) ->
  forall sel avail, P sel avail (selectByOptimalValue pool threshold sel avail).
Proof.
  intros Hstop Hnone Hpick sel.
  remember (length (Lodash.differenceBy_address pool sel)) as n eqn:Hn.
  revert sel Hn.
  induction n as [n IH] using lt_wf_ind. intros sel Hn avail.
  rewrite selectByOptimalValue_step.
  destruct (Z.ltb_spec avail threshold) as [Hlt | Hge]; [|apply Hstop; assumption].
  pose proof (pickByOptimalValue_spec pool sel (threshold - avail)) as Hspec.
  destruct (pickByOptimalValue pool sel (threshold - avail)) as [x|] eqn:Hx.
  - apply (Hpick sel avail x); [assumption | assumption | reflexivity |].
    apply (IH (length (Lodash.differenceBy_address pool (sel ++ [x])))); [|reflexivity].
    subst n. eapply pick_decreases. eassumption.
  - apply Hnone; assumption.
Qed.

Lemma selectByOptimalValue_run pool threshold :
  forall sel avail sel' avail',
    selectByOptimalValue pool threshold sel avail = Ok (sel', avail') ->
    GreedyRun pool threshold sel avail sel' avail'.
Proof.
  intros sel avail.
  apply (selectByOptimalValue_ind' pool threshold
           (fun sel avail r => forall sel' avail',
                r = Ok (sel', avail') -> GreedyRun pool threshold sel avail sel' avail')).
  - intros s a Hge s' a' [= <- <-]. apply run_stop. assumption.
  - intros s a _ _ s' a' [=].
  - intros s a x r Hlt Hfirst _ IH s' a' Hr. eapply run_pick; eauto.
Qed.

Lemma GreedyRun_sum pool threshold sel avail sel' avail' :
  GreedyRun pool threshold sel avail sel' avail' ->
  avail = Lodash.sumBy balance sel ->
  avail' = Lodash.sumBy balance sel' /\ threshold <= avail'.
Proof.
  induction 1 as [sel avail Hge | sel avail x sel' avail' Hlt Hfirst Hrun IH]; intros Hsum.
  - split; assumption.
  - apply IH. rewrite sumBy_snoc. lia.
Qed.

Lemma GreedyRun_extends pool threshold sel avail sel' avail' :
  GreedyRun pool threshold sel avail sel' avail' ->
  exists picked, sel' = sel ++ picked /\ (forall x, In x picked -> In x pool).
Proof.
  induction 1 as [sel avail Hge | sel avail x sel' avail' Hlt Hfirst Hrun IH].
  - exists []. split; [now rewrite app_nil_r | intros ? []].
  - destruct IH as (picked & -> & Hin).
    exists (x :: picked). split; [now rewrite <- app_assoc|].
    intros y [<- | Hy]; [|apply Hin; assumption].
    apply firstClosest_In in Hfirst. apply differenceBy_In in Hfirst. tauto.
Qed.

Lemma GreedyRun_NoDup pool threshold sel avail sel' avail' :
  GreedyRun pool threshold sel avail sel' avail' ->
  NoDup (map address sel) -> NoDup (map address sel').
Proof.
  induction 1 as [sel avail Hge | sel avail x sel' avail' Hlt Hfirst Hrun IH]; intros Hnd.
  - assumption.
  - apply IH. rewrite map_app. cbn [map].
    apply firstClosest_In in Hfirst. apply differenceBy_In in Hfirst.
    destruct Hfirst as [_ Hfresh].
    apply NoDup_rev in Hnd. rewrite <- (rev_involutive (map address sel ++ [address x])).
    apply NoDup_rev. rewrite rev_app_distr. cbn [rev app].
    constructor; [|assumption]. rewrite <- in_rev. assumption.
Qed.

Lemma GreedyRun_nonempty pool threshold sel' avail' :
  GreedyRun pool threshold [] 0 sel' avail' -> 0 < threshold -> sel' <> [].
Proof.
  intros Hrun Hpos. inversion Hrun as [? ? Hge | ? ? x ? ? Hlt Hfirst Hrest]; subst.
  - lia.
  - apply GreedyRun_extends in Hrest. destruct Hrest as (picked & -> & _).
    cbn [app]. discriminate.
Qed.

(** With unique addresses the loop never runs out of candidates while the
    balance that is left can still reach the threshold. *)
Lemma selectByOptimalValue_succeeds pool threshold :
  NoDup (map address pool) ->
  forall sel avail,
    threshold <= avail + Lodash.sumBy balance (Lodash.differenceBy_address pool sel) ->
    exists sel' avail',
      selectByOptimalValue pool threshold sel avail = Ok (sel', avail').
Proof.
  intros Hnd sel avail.
  apply (selectByOptimalValue_ind' pool threshold
           (fun sel avail r =>
              threshold <= avail + Lodash.sumBy balance (Lodash.differenceBy_address pool sel) ->
              exists sel' avail', r = Ok (sel', avail'))).
  - intros s a _ _. eauto.
  - intros s a Hlt Hnil Hsum. rewrite Hnil, sumBy_nil in Hsum. lia.
  - intros s a x r Hlt Hfirst _ IH Hsum. apply IH.
    apply firstClosest_In in Hfirst.
    assert (Hcands : NoDup (map address (Lodash.differenceBy_address pool s)))
      by (apply NoDup_map_filter; assumption).
    rewrite differenceBy_snoc, sumBy_filter_otherAddress by assumption. lia.
Qed.

(** ** The pool and its eligible inputs *)

Lemma map_address_transform addressData security :
  map address (transformAddressDataToInputs addressData security)
  = map entry_address addressData.
Proof.
  unfold transformAddressDataToInputs. rewrite map_map. reflexivity.
Qed.

Lemma eligibleInputs_NoDup addressData security :
  NoDup (map entry_address addressData) ->
  NoDup (map address (eligibleInputs addressData security)).
Proof.
  intros Hnd. unfold eligibleInputs. apply NoDup_map_filter.
  rewrite map_address_transform. assumption.
Qed.

Lemma sumBy_filter_positive {A} (f : A -> Z) (l : list A) :
  Lodash.sumBy f l <= Lodash.sumBy f (filter (fun x => f x >? 0) l).
Proof.
  induction l as [|a l IH]; cbn [filter]; [lia|].
  rewrite sumBy_cons. destruct (Z.gtb_spec (f a) 0); rewrite ?sumBy_cons; lia.
Qed.

Lemma eligibleInputs_sum addressData security :
  totalBalance addressData
  <= Lodash.sumBy balance (eligibleInputs addressData security).
Proof.
  unfold eligibleInputs, transformAddressDataToInputs, totalBalance.
  etransitivity; [|apply sumBy_filter_positive].
  rewrite sumBy_map. apply Z.le_refl.
Qed.

(** The greedy pass of [prepareInputs] on a pool with unique addresses whose
    total balance reaches the threshold yields a selection. *)
Lemma greedy_pass_succeeds addressData security threshold :
  NoDup (map entry_address addressData) ->
  threshold <= totalBalance addressData ->
  exists sel avail,
    selectByOptimalValue (eligibleInputs addressData security) threshold [] 0
    = Ok (sel, avail).
Proof.
  intros Hnd Hsum.
  apply selectByOptimalValue_succeeds.
  - apply eligibleInputs_NoDup. assumption.
  - rewrite differenceBy_nil. pose proof (eligibleInputs_sum addressData security). lia.
Qed.

(** ** The selection through the subset-sum search *)

Lemma uniqBy_balance_from_NoDup seen l :
  NoDup (map address l) -> NoDup (map address (Lodash.uniqBy_balance_from seen l)).
Proof.
  revert seen. induction l as [|a l IH]; intros seen Hnd; [constructor|].
  cbn [map] in Hnd. inversion Hnd as [|? ? Hnotin Hnd']; subst.
  cbn [Lodash.uniqBy_balance_from].
  destruct (Lodash.includes seen (balance a)); [apply IH; assumption|].
  cbn [map]. constructor; [|apply IH; assumption].
  intros Hin. apply Hnotin. clear - Hin.
  revert Hin. generalize (balance a :: seen). generalize (address a).
  induction l as [|b l IHl]; intros adr seen' Hin; [contradiction|].
  cbn [Lodash.uniqBy_balance_from] in Hin.
  destruct (Lodash.includes seen' (balance b)).
  - right. eapply IHl. eassumption.
  - destruct Hin as [<- | Hin]; [left; reflexivity | right; eapply IHl; eassumption].
Qed.

Lemma uniqBy_balance_from_nonempty seen a l :
  Lodash.includes seen (balance a) = false ->
  Lodash.uniqBy_balance_from seen (a :: l) <> [].
Proof.
  intros H. cbn [Lodash.uniqBy_balance_from]. rewrite H. discriminate.
Qed.

Lemma uniqBy_balance_nonempty l : l <> [] -> Lodash.uniqBy_balance l <> [].
Proof.
  destruct l as [|a l]; [congruence|]. intros _.
  apply uniqBy_balance_from_nonempty. reflexivity.
Qed.

Lemma findSetWithMinSize_Ok candidates exceeded threshold limit s :
  findSetWithMinSize candidates exceeded threshold limit = Ok s ->
  (exists keep, inputs s = filter keep candidates)
  /\ total s = Lodash.sumBy balance (inputs s)
  /\ threshold < total s.
Proof.
  unfold findSetWithMinSize. cbv zeta.
  match goal with |- (if ?c then _ else _) = _ -> _ => destruct c eqn:E end;
    [discriminate|].
  apply orb_false_iff in E. destruct E as [E _]. apply Z.leb_gt in E.
  intros [= <-]. cbn [inputs total].
  split; [eexists; reflexivity|]. split; [reflexivity | assumption].
Qed.

(** A selection that comes out of the search is made of inputs with unique
    balances, and its balance is the sum of theirs and reaches the
    threshold. *)
Lemma selectWithLimit_Ok candidates threshold limit s :
  selectWithLimit candidates threshold limit = Ok s ->
  (exists keep, inputs s = filter keep (Lodash.uniqBy_balance candidates))
  /\ total s = Lodash.sumBy balance (inputs s)
  /\ threshold <= total s.
Proof.
  unfold selectWithLimit. cbv zeta.
  destruct (subsetSumWithLimit _ _ _ _) as [found|]; [|discriminate].
  destruct (negb (Lodash.size (res_exactMatches found) =? 0)).
  - match goal with |- (if negb (?a =? ?b) then _ else _) = _ -> _ =>
      destruct (Z.eqb_spec a b) as [E | E] end; cbn [negb]; [|discriminate].
    intros [= <-]. cbn [inputs total].
    split; [eexists; reflexivity|]. split; [reflexivity | lia].
  - destruct (negb (Lodash.size (res_exceeded found) =? 0)); [|discriminate].
    intros Hmin. apply findSetWithMinSize_Ok in Hmin.
    destruct Hmin as (Hkeep & Hsum & Hgt). repeat split; [assumption | assumption | lia].
Qed.

Lemma ByMaxInputs_prepareInputs_Ok addressData threshold maxInputs security s :
  ByMaxInputs.prepareInputs addressData threshold maxInputs security = Ok s ->
  GreedyRun (eligibleInputs addressData security) threshold [] 0 (inputs s) (total s)
  \/ exists m, maxInputs = LimitNumber m /\ 0 < m
       /\ selectWithLimit (eligibleInputs addressData security) threshold m = Ok s.
Proof.
  unfold ByMaxInputs.prepareInputs.
  destruct (_ <? threshold); [discriminate|].
  destruct (threshold =? 0); [discriminate|].
  destruct maxInputs as [m| |]; try discriminate.
  destruct (selectByOptimalValue _ _ _ _) as [[sel avail]|e] eqn:Hrun;
    try discriminate.
  apply selectByOptimalValue_run in Hrun.
  destruct (Z.gtb_spec m 0) as [Hm | Hm]; cbn [andb].
  - destruct (_ >? m).
    + intros H. right. exists m. repeat split; [lia | assumption].
    + intros [= <-]. left. assumption.
  - intros [= <-]. left. assumption.
Qed.

Lemma ByLimit_prepareInputs_Ok addressData threshold limit security s :
  ByLimit.prepareInputs addressData threshold limit security = Ok s ->
  GreedyRun (eligibleInputs addressData security) threshold [] 0 (inputs s) (total s)
  \/ exists m, limit = LimitNumber m /\ m <> 0
       /\ selectWithLimit (eligibleInputs addressData security) threshold m = Ok s.
Proof.
  unfold ByLimit.prepareInputs.
  destruct (_ <? threshold); [discriminate|].
  destruct (threshold =? 0); [discriminate|].
  destruct limit as [m| |].
  - destruct (Z.eqb_spec m 0) as [-> | Hm]; [discriminate|].
    replace (match m with 0 => true | _ => false end) with false
      by (destruct m; congruence).
    destruct (selectByOptimalValue _ _ _ _) as [[sel avail]|e] eqn:Hrun;
      try discriminate.
    apply selectByOptimalValue_run in Hrun.
    destruct (_ >? m).
    + intros H. right. exists m. repeat split; assumption.
    + intros [= <-]. left. assumption.
  - destruct (selectByOptimalValue _ _ _ _) as [[sel avail]|e] eqn:Hrun;
      try discriminate.
    apply selectByOptimalValue_run in Hrun.
    intros [= <-]. left. assumption.
  - destruct (selectByOptimalValue _ _ _ _) as [[sel avail]|e] eqn:Hrun;
      try discriminate.
    apply selectByOptimalValue_run in Hrun.
    intros [= <-]. left. assumption.
Qed.

(** ** The outcome of the greedy pass *)

Lemma selection_reaches_threshold pool threshold sel avail :
  GreedyRun pool threshold [] 0 sel avail ->
  avail = Lodash.sumBy balance sel /\ threshold <= avail.
Proof.
  intros Hrun. eapply GreedyRun_sum; [eassumption | reflexivity].
Qed.

(** The first closest input of a list is determined by the list. *)
Lemma firstClosest_unique diff l x y :
  firstClosest diff l x -> firstClosest diff l y -> x = y.
Proof.
  intros (b1 & a1 & -> & Hb1 & Ha1) (b2 & a2 & Heq & Hb2 & Ha2).
  revert b2 Heq Hb2. induction b1 as [|z b1 IH]; intros b2 Heq Hb2.
  - destruct b2 as [|z2 b2]; cbn [app] in Heq.
    + congruence.
    + injection Heq as <- ->.
      assert (optimalDistance diff y < optimalDistance diff x)
        by (apply Hb2; left; reflexivity).
      assert (optimalDistance diff x <= optimalDistance diff y)
        by (apply Ha1, in_or_app; right; left; reflexivity).
      lia.
  - destruct b2 as [|z2 b2]; cbn [app] in Heq.
    + injection Heq as -> <-.
      assert (optimalDistance diff x < optimalDistance diff y)
        by (apply Hb1; left; reflexivity).
      assert (optimalDistance diff y <= optimalDistance diff x)
        by (apply Ha2, in_or_app; right; left; reflexivity).
      lia.
    + injection Heq as <- Heq.
      apply (IH (fun w Hw => Hb1 w (or_intror Hw)) b2 Heq).
      intros w Hw. apply Hb2. right. assumption.
Qed.

(** A run of the loop has one outcome. *)
Lemma GreedyRun_deterministic pool threshold sel avail sel1 avail1 sel2 avail2 :
  GreedyRun pool threshold sel avail sel1 avail1 ->
  GreedyRun pool threshold sel avail sel2 avail2 ->
  sel1 = sel2 /\ avail1 = avail2.
Proof.
  intros H1. revert sel2 avail2.
  induction H1 as [sel avail Hge | sel avail x sel' avail' Hlt Hfirst Hrun IH];
    intros sel2 avail2 H2.
  - inversion H2; subst; [tauto | lia].
  - inversion H2 as [? ? Hge | ? ? y ? ? _ Hfirst2 Hrun2]; subst; [lia|].
    pose proof (firstClosest_unique _ _ _ _ Hfirst Hfirst2) as <-.
    apply IH. assumption.
Qed.

(** The loop ends with the outcome of its run. *)
Lemma GreedyRun_complete pool threshold sel avail sel' avail' :
  GreedyRun pool threshold sel avail sel' avail' ->
  selectByOptimalValue pool threshold sel avail = Ok (sel', avail').
Proof.
  induction 1 as [sel avail Hge | sel avail x sel' avail' Hlt Hfirst Hrun IH];
    rewrite selectByOptimalValue_step.
  - replace (avail <? threshold) with false by (symmetry; apply Z.ltb_ge; assumption).
    reflexivity.
  - replace (avail <? threshold) with true by (symmetry; apply Z.ltb_lt; assumption).
    pose proof (pickByOptimalValue_spec pool sel (threshold - avail)) as Hspec.
    destruct (pickByOptimalValue pool sel (threshold - avail)) as [y|].
    + rewrite <- (firstClosest_unique _ _ _ _ Hfirst Hspec). assumption.
    + apply firstClosest_In in Hfirst. rewrite Hspec in Hfirst. contradiction.
Qed.

(** The selection through the search prefers few inputs to a small
    overshoot: with balances 5, 9, 8, threshold 6 and limit 1, the greedy pass
    selects two inputs, the search records the exceeding combinations [[9]]
    and [[8]], and the first of least size is returned. *)
Remark findSetWithMinSize_takes_first_of_least_size :
  subsetSumWithLimit 1 DEFAULT_MAX_CALL_TIMES [5; 9; 8] 6
  = Some (mkSearchResult [] [[9]; [8]])
  /\ balancesOf (ByMaxInputs.prepareInputs (poolOf [5; 9; 8]) 6 (LimitNumber 1)
                   DEFAULT_SECURITY) = Ok ([9], 9).
Proof. split; vm_compute; reflexivity. Qed.

(** ** Addresses of a selection *)

Lemma selectWithLimit_NoDup pool threshold limit s :
  NoDup (map address pool) ->
  selectWithLimit pool threshold limit = Ok s ->
  NoDup (map address (inputs s)).
Proof.
  intros Hnd Hsel. apply selectWithLimit_Ok in Hsel.
  destruct Hsel as ((keep & ->) & _).
  apply NoDup_map_filter. apply uniqBy_balance_from_NoDup. assumption.
Qed.

(** [uniqBy(inputs, 'balance')] keeps inputs of pairwise different balances,
    none of which has been seen before. *)
Lemma uniqBy_balance_from_distinct seen l :
  NoDup (map balance (Lodash.uniqBy_balance_from seen l))
  /\ (forall x, In x (Lodash.uniqBy_balance_from seen l) -> ~ In (balance x) seen).
Proof.
  revert seen. induction l as [|a l IH]; intros seen.
  - cbn. split; [constructor | tauto].
  - cbn [Lodash.uniqBy_balance_from].
    destruct (Lodash.includes seen (balance a)) eqn:Hseen; [apply IH|].
    destruct (IH (balance a :: seen)) as [Hnd Hfresh]. split.
    + cbn [map]. constructor; [|assumption].
      intros Hin. apply in_map_iff in Hin. destruct Hin as (y & Hy & Hiny).
      apply (Hfresh y Hiny). left. symmetry. assumption.
    + intros x [<- | Hx] Hin.
      * unfold Lodash.includes in Hseen.
        assert (Hin' : existsb (Z.eqb (balance a)) seen = true).
        { apply existsb_exists. exists (balance a). split; [assumption | apply Z.eqb_refl]. }
        congruence.
      * apply (Hfresh x Hx). right. assumption.
Qed.

(** On the path through the search it is the balances that are made
    distinct. *)
Lemma selectWithLimit_distinct_balances pool threshold limit s :
  selectWithLimit pool threshold limit = Ok s ->
  NoDup (map balance (inputs s)).
Proof.
  intros Hsel. apply selectWithLimit_Ok in Hsel.
  destruct Hsel as ((keep & ->) & _).
  apply NoDup_map_filter. apply uniqBy_balance_from_distinct.
Qed.

(** The greedy selection never repeats an address, whatever the pool. *)
Lemma greedy_selection_NoDup pool threshold sel avail :
  GreedyRun pool threshold [] 0 sel avail -> NoDup (map address sel).
Proof.
  intros Hrun. eapply GreedyRun_NoDup; [eassumption | constructor].
Qed.

Lemma poolOf_1_2_4_NoDup : NoDup (map entry_address (poolOf [1; 2; 4; 8])).
Proof.
  repeat (constructor; [cbn; intuition discriminate|]). constructor.
Qed.

Lemma poolOf_8_1_3_7_NoDup : NoDup (map entry_address (poolOf [8; 1; 3; 7])).
Proof.
  repeat (constructor; [cbn; intuition discriminate|]). constructor.
Qed.

(** Uniqueness of the pool's addresses is needed on the path through the
    search: its candidates are made unique by balance, not by address. *)
Remark selectWithLimit_keeps_repeated_address :
  let pool :=
    [ mkAddressEntry "X" 0 3 false false; mkAddressEntry "X" 1 4 false false;
      mkAddressEntry "Y" 2 1 false false; mkAddressEntry "Z" 3 1 false false;
      mkAddressEntry "W" 4 1 false false ] in
  exists s,
    ByMaxInputs.prepareInputs pool 7 (LimitNumber 2) DEFAULT_SECURITY = Ok s
    /\ map address (inputs s) = ["X"%string; "X"%string].
Proof.
  cbv zeta. eexists. split; [vm_compute; reflexivity|]. reflexivity.
Qed.

(** ** The limit argument *)

Lemma ByMaxInputs_prepareInputs_unlimited addressData threshold security :
  NoDup (map entry_address addressData) ->
  0 < threshold ->
  threshold <= totalBalance addressData ->
  exists s,
    ByMaxInputs.prepareInputs addressData threshold (LimitNumber 0) security = Ok s
    /\ GreedyRun (eligibleInputs addressData security) threshold [] 0 (inputs s) (total s).
Proof.
  intros Hnd Hpos Hsum.
  destruct (greedy_pass_succeeds addressData security threshold Hnd Hsum)
    as (sel & avail & Hrun).
  exists (mkSelection sel avail). unfold ByMaxInputs.prepareInputs.
  replace (totalBalance addressData <? threshold) with false by (symmetry; apply Z.ltb_ge; lia).
  replace (threshold =? 0) with false by (symmetry; apply Z.eqb_neq; lia).
  rewrite Hrun. cbn [Z.gtb Z.compare andb inputs total].
  split; [reflexivity|]. apply selectByOptimalValue_run. assumption.
Qed.

Lemma ByLimit_prepareInputs_zero_limit addressData threshold security :
  0 < threshold ->
  threshold <= totalBalance addressData ->
  ByLimit.prepareInputs addressData threshold (LimitNumber 0) security
  = Throw INPUTS_LIMIT_CANNOT_BE_ZERO.
Proof.
  intros Hpos Hsum. unfold ByLimit.prepareInputs.
  replace (totalBalance addressData <? threshold) with false by (symmetry; apply Z.ltb_ge; lia).
  replace (threshold =? 0) with false by (symmetry; apply Z.eqb_neq; lia).
  reflexivity.
Qed.

Lemma ByLimit_prepareInputs_unlimited addressData threshold security :
  NoDup (map entry_address addressData) ->
  0 < threshold ->
  threshold <= totalBalance addressData ->
  exists s,
    ByLimit.prepareInputs addressData threshold LimitNull security = Ok s
    /\ GreedyRun (eligibleInputs addressData security) threshold [] 0 (inputs s) (total s).
Proof.
  intros Hnd Hpos Hsum.
  destruct (greedy_pass_succeeds addressData security threshold Hnd Hsum)
    as (sel & avail & Hrun).
  exists (mkSelection sel avail). unfold ByLimit.prepareInputs.
  replace (totalBalance addressData <? threshold) with false by (symmetry; apply Z.ltb_ge; lia).
  replace (threshold =? 0) with false by (symmetry; apply Z.eqb_neq; lia).
  rewrite Hrun. cbn [inputs total].
  split; [reflexivity|]. apply selectByOptimalValue_run. assumption.
Qed.

Lemma poolOf_five_ones_NoDup : NoDup (map entry_address (poolOf [1; 1; 1; 1; 1])).
Proof.
  repeat (constructor; [cbn; intuition discriminate|]). constructor.
Qed.

(** ** The recursive search *)

Section Search.

Variable limit : Z.
Variable threshold : Z.

Lemma each_unfold maxc partial b remaining index s :
  each limit maxc threshold partial (b :: remaining) index s =
  if hasFoundAnExactMatch s then s
  else each limit maxc threshold partial remaining (index + 1)
         (fst (calculate limit maxc threshold remaining (partial ++ [b])
                 (markLastIndex index s))).
Proof. reflexivity. Qed.

(** Once an exact match has been found, the loop of a call breaks at once:
    no further call is made. *)
Lemma each_after_exact_match maxc partial rest index s :
  hasFoundAnExactMatch s = true ->
  each limit maxc threshold partial rest index s = s.
Proof.
  intros H. destruct rest as [|b remaining]; [reflexivity|].
  rewrite each_unfold, H. reflexivity.
Qed.

(** [MAX_CALL_TIMES] has no part in what the search does to its store: it is
    read only when a call picks its return value. *)
Lemma store_independent_of_MAX_CALL_TIMES max1 max2 balances :
  (forall partial s,
      fst (calculate limit max1 threshold balances partial s)
      = fst (calculate limit max2 threshold balances partial s))
  /\ (forall partial index s,
         each limit max1 threshold partial balances index s
         = each limit max2 threshold partial balances index s).
Proof.
  induction balances as [|b remaining [IHc IHe]].
  - split; [|reflexivity].
    intros partial s. rewrite !calculate_unfold. cbv zeta.
    destruct (_ >=? _); reflexivity.
  - assert (He : forall partial index s,
               each limit max1 threshold partial (b :: remaining) index s
               = each limit max2 threshold partial (b :: remaining) index s).
    { intros partial index s. rewrite !each_unfold.
      destruct (hasFoundAnExactMatch s); [reflexivity|].
      rewrite IHc, IHe. reflexivity. }
    split; [|exact He].
    intros partial s. rewrite !calculate_unfold. cbv zeta.
    destruct (_ >=? _); cbn [fst]; [reflexivity | apply He].
Qed.

(** Induction over the calls of a search, for a property [I] of the store
    that every recording step keeps: calls are entered only while no exact
    match has been found. *)
Lemma search_invariant maxc (I : SearchState -> Prop) :
  (forall balances partial s,
      I s -> hasFoundAnExactMatch s = false ->
      I (enterCall limit threshold balances partial s)) ->
  (forall index s, I s -> I (markLastIndex index s)) ->
  forall balances,
    (forall partial s,
        I s -> hasFoundAnExactMatch s = false ->
        I (fst (calculate limit maxc threshold balances partial s)))
    /\ (forall partial index s,
           I s -> I (each limit maxc threshold partial balances index s)).
Proof.
  intros Henter Hmark.
  assert (Hflag : forall index s,
             hasFoundAnExactMatch (markLastIndex index s) = hasFoundAnExactMatch s).
  { intros index s. unfold markLastIndex. destruct (_ =? _); reflexivity. }
  induction balances as [|b remaining [IHc IHe]].
  - split; [|intros; assumption].
    intros partial s HI Hf. rewrite calculate_unfold. cbv zeta.
    destruct (_ >=? _); cbn [fst each]; apply Henter; assumption.
  - assert (He : forall partial index s,
               I s -> I (each limit maxc threshold partial (b :: remaining) index s)).
    { intros partial index s HI. rewrite each_unfold.
      destruct (hasFoundAnExactMatch s) eqn:Hf; [assumption|].
      apply IHe, IHc; [apply Hmark; assumption | rewrite Hflag; assumption]. }
    split; [|exact He].
    intros partial s HI Hf. rewrite calculate_unfold. cbv zeta.
    destruct (_ >=? _); cbn [fst]; [|apply He]; apply Henter; assumption.
Qed.

Lemma calculate_atMostOneExactMatch maxc balances partial s :
  atMostOneExactMatch s -> hasFoundAnExactMatch s = false ->
  atMostOneExactMatch (fst (calculate limit maxc threshold balances partial s)).
Proof.
  apply (search_invariant maxc atMostOneExactMatch).
  - clear. intros balances partial s HI Hf.
    unfold atMostOneExactMatch in *. rewrite Hf in HI.
    unfold enterCall. cbn [hasFoundAnExactMatch exactMatches].
    destruct (_ && _); rewrite ?Hf, ?HI; cbn [app]; eauto.
  - clear. intros index s HI. unfold markLastIndex. destruct (_ =? _); assumption.
Qed.

End Search.

(** From a fresh closure, a search records at most one exact match. *)
Lemma subsetSumWithLimit_one_exact_match limit maxc balances threshold r :
  subsetSumWithLimit limit maxc balances threshold = Some r ->
  (length (res_exactMatches r) <= 1)%nat.
Proof.
  unfold subsetSumWithLimit.
  pose proof (calculate_atMostOneExactMatch limit threshold maxc balances []
                initialSearchState eq_refl eq_refl) as Hone.
  rewrite calculate_unfold in *. cbv zeta in *.
  destruct (_ >=? _); cbn [fst snd] in *; [discriminate|].
  unfold leaveCall. destruct (_ || _); [|discriminate].
  intros [= <-]. cbn [res_exactMatches].
  unfold atMostOneExactMatch in Hone.
  destruct (hasFoundAnExactMatch _); [destruct Hone as (m & ->) | rewrite Hone]; cbn; lia.
Qed.

(** ** The number of calls *)

Section CallCount.

Variable limit : Z.
Variable maxc : Z.
Variable threshold : Z.

(** While the partial sums stay below the threshold the search visits every
    combination: a call on [n] balances makes [2 ^ n] calls, whatever
    [MAX_CALL_TIMES] is. *)
Lemma calls_below_threshold balances :
  (forall b, In b balances -> 0 <= b) ->
  (forall partial s,
      hasFoundAnExactMatch s = false ->
      Lodash.sumBy (fun v => v) partial + Lodash.sumBy (fun v => v) balances < threshold ->
      let s' := fst (calculate limit maxc threshold balances partial s) in
      hasFoundAnExactMatch s' = false
      /\ callTimes s' = callTimes s + 2 ^ Lodash.size balances
      /\ exactMatches s' = exactMatches s /\ exceeded s' = exceeded s)
  /\ (forall partial index s,
         hasFoundAnExactMatch s = false ->
         Lodash.sumBy (fun v => v) partial + Lodash.sumBy (fun v => v) balances < threshold ->
         let s' := each limit maxc threshold partial balances index s in
         hasFoundAnExactMatch s' = false
         /\ callTimes s' = callTimes s + 2 ^ Lodash.size balances - 1
         /\ exactMatches s' = exactMatches s /\ exceeded s' = exceeded s).
Proof.
  assert (Henter : forall bs partial s,
             hasFoundAnExactMatch s = false ->
             Lodash.sumBy (fun v => v) partial < threshold ->
             let s1 := enterCall limit threshold bs partial s in
             hasFoundAnExactMatch s1 = false /\ callTimes s1 = callTimes s + 1
             /\ exactMatches s1 = exactMatches s /\ exceeded s1 = exceeded s).
  { intros bs partial s Hf Hlt. unfold enterCall. cbv zeta.
    cbn [hasFoundAnExactMatch callTimes exactMatches exceeded].
    replace (Lodash.sumBy (fun v => v) partial =? threshold) with false
      by (symmetry; apply Z.eqb_neq; lia).
    replace (Lodash.sumBy (fun v => v) partial >? threshold) with false
      by (symmetry; rewrite Z.gtb_ltb; apply Z.ltb_ge; lia).
    cbn [andb]. auto. }
  induction balances as [|b remaining IH]; intros Hpos.
  - split.
    + intros partial s Hf Hlt. rewrite sumBy_nil in Hlt.
      rewrite calculate_unfold. cbv zeta.
      replace (Lodash.sumBy (fun v => v) partial >=? threshold) with false
        by (symmetry; rewrite Z.geb_leb; apply Z.leb_gt; lia).
      cbn [fst each]. apply Henter; [assumption | lia].
    + intros partial index s Hf _. cbn [each]. change (Lodash.size []) with 0.
      repeat split; auto. cbn. lia.
  - assert (Hb : 0 <= b) by (apply Hpos; left; reflexivity).
    destruct IH as [IHc IHe]; [intros; apply Hpos; right; assumption|].
    assert (Hrem : 0 <= Lodash.sumBy (fun v => v) remaining).
    { apply sumBy_nonneg. intros; apply Hpos; right; assumption. }
    assert (Hsize : Lodash.size (b :: remaining) = Lodash.size remaining + 1).
    { unfold Lodash.size. cbn [length]. lia. }
    assert (Hpow : 2 ^ Lodash.size (b :: remaining) = 2 * 2 ^ Lodash.size remaining).
    { rewrite Hsize, Z.pow_add_r by (try apply size_nonneg; lia). lia. }
    assert (He : forall partial index s,
               hasFoundAnExactMatch s = false ->
               Lodash.sumBy (fun v => v) partial
               + Lodash.sumBy (fun v => v) (b :: remaining) < threshold ->
               let s' := each limit maxc threshold partial (b :: remaining) index s in
               hasFoundAnExactMatch s' = false
               /\ callTimes s' = callTimes s + 2 ^ Lodash.size (b :: remaining) - 1
               /\ exactMatches s' = exactMatches s /\ exceeded s' = exceeded s).
    { intros partial index s Hf Hlt. rewrite sumBy_cons in Hlt. cbv zeta.
      rewrite each_unfold, Hf.
      assert (Hmark : hasFoundAnExactMatch (markLastIndex index s) = false
                      /\ callTimes (markLastIndex index s) = callTimes s
                      /\ exactMatches (markLastIndex index s) = exactMatches s
                      /\ exceeded (markLastIndex index s) = exceeded s).
      { unfold markLastIndex. destruct (_ =? _); cbn; auto. }
      destruct Hmark as (Hm1 & Hm2 & Hm3 & Hm4).
      destruct (IHc (partial ++ [b]) (markLastIndex index s) Hm1) as (Hc1 & Hc2 & Hc3 & Hc4).
      { rewrite sumBy_snoc. lia. }
      destruct (IHe partial (index + 1)
                  (fst (calculate limit maxc threshold remaining (partial ++ [b])
                          (markLastIndex index s))) Hc1) as (He1 & He2 & He3 & He4).
      { lia. }
      repeat split; try congruence.
      rewrite He2, Hc2, Hm2, Hpow. lia. }
    split; [|exact He].
    intros partial s Hf Hlt. cbv zeta. rewrite calculate_unfold. cbv zeta.
    rewrite sumBy_cons in Hlt.
    replace (Lodash.sumBy (fun v => v) partial >=? threshold) with false
      by (symmetry; rewrite Z.geb_leb; apply Z.leb_gt; lia).
    cbn [fst].
    destruct (Henter (b :: remaining) partial s Hf) as (H1 & H2 & H3 & H4); [lia|].
    destruct (He partial 0 (enterCall limit threshold (b :: remaining) partial s) H1)
      as (H5 & H6 & H7 & H8).
    { rewrite sumBy_cons. lia. }
    repeat split; try congruence. rewrite H6, H2. lia.
Qed.

End CallCount.

(** ** What the outermost call returns *)

Section Outermost.

Variable limit : Z.
Variable maxc : Z.
Variable threshold : Z.

Lemma calculate_settledStore n marked balances partial s :
  settledStore n marked s -> hasFoundAnExactMatch s = false ->
  settledStore n marked (fst (calculate limit maxc threshold balances partial s)).
Proof.
  apply (search_invariant limit threshold maxc (settledStore n marked)).
  - clear. intros balances partial s (Hc & Hn & Hm) _.
    unfold settledStore, enterCall. cbv zeta.
    cbn [callTimes sizeOfBalances hasFoundNoMatches].
    replace (callTimes s + 1 =? 1) with false by (symmetry; apply Z.eqb_neq; lia).
    repeat split; [lia | assumption | assumption].
  - clear. intros index s (Hc & Hn & Hm). unfold settledStore, markLastIndex.
    destruct (_ =? _); cbn [callTimes sizeOfBalances hasFoundNoMatches]; auto.
Qed.

(** A loop that runs up to the last index of the initial array either
    breaks on an exact match or sets [hasFoundNoMatches]. *)
Lemma each_reaches_last_index partial rest :
  rest <> [] ->
  forall index s,
    1 <= callTimes s ->
    index + Lodash.size rest = sizeOfBalances s ->
    let s' := each limit maxc threshold partial rest index s in
    hasFoundAnExactMatch s' = true \/ hasFoundNoMatches s' = true.
Proof.
  induction rest as [|b remaining IH]; [congruence|]. intros _ index s Hc Hsize.
  cbv zeta. rewrite each_unfold.
  destruct (hasFoundAnExactMatch s) eqn:Hf; [left; assumption|].
  assert (Hlen : Lodash.size (b :: remaining) = Lodash.size remaining + 1).
  { unfold Lodash.size. cbn [length]. lia. }
  destruct remaining as [|c remaining].
  - cbn [each]. right.
    apply (calculate_settledStore (sizeOfBalances s) true).
    + unfold settledStore, markLastIndex.
      change (Lodash.size [b]) with 1 in Hsize.
      replace (index =? sizeOfBalances s - 1) with true by (symmetry; apply Z.eqb_eq; lia).
      cbn [callTimes sizeOfBalances hasFoundNoMatches]. auto.
    + unfold markLastIndex. destruct (_ =? _); assumption.
    + reflexivity.
  - assert (Hsettled : settledStore (sizeOfBalances s) false
                         (fst (calculate limit maxc threshold (c :: remaining)
                                 (partial ++ [b]) (markLastIndex index s)))).
    { apply calculate_settledStore.
      - unfold settledStore, markLastIndex.
        destruct (_ =? _); cbn [callTimes sizeOfBalances]; repeat split; auto; discriminate.
      - unfold markLastIndex. destruct (_ =? _); assumption. }
    destruct Hsettled as (Hc' & Hn' & _).
    apply IH; [discriminate | assumption | lia].
Qed.

Lemma outermost_call_returns_record balances :
  balances <> [] -> 0 < threshold ->
  exists r,
    snd (calculate limit maxc threshold balances [] initialSearchState) = Some r.
Proof.
  intros Hne Hpos. rewrite calculate_unfold. cbv zeta.
  change (Lodash.sumBy (fun v => v) [] >=? threshold) with (0 >=? threshold).
  replace (0 >=? threshold) with false by (symmetry; rewrite Z.geb_leb; apply Z.leb_gt; lia).
  cbn [snd]. unfold leaveCall.
  destruct (each_reaches_last_index [] balances Hne 0
              (enterCall limit threshold balances [] initialSearchState)) as [H | H].
  - cbn. lia.
  - cbn. lia.
  - rewrite H. cbn [orb]. eauto.
  - rewrite H, orb_true_r. cbn [orb]. eauto.
Qed.

End Outermost.

Lemma outermost_call_on_empty limit threshold :
  subsetSumWithLimit limit DEFAULT_MAX_CALL_TIMES [] threshold = None.
Proof.
  unfold subsetSumWithLimit. rewrite calculate_unfold. cbv zeta.
  change (Lodash.sumBy (fun v => v) []) with 0.
  destruct (0 >=? threshold) eqn:Hge; cbn [snd each]; [reflexivity|].
  rewrite Z.geb_leb in Hge. apply Z.leb_gt in Hge.
  unfold leaveCall, enterCall. cbv zeta.
  cbn [hasFoundAnExactMatch hasFoundNoMatches callTimes initialSearchState].
  change (Lodash.sumBy (fun v => v) []) with 0.
  replace (0 =? threshold) with false by (symmetry; apply Z.eqb_neq; lia).
  reflexivity.
Qed.

(** ** The search inside [prepareInputs] *)

Lemma selectByOptimalValue_Throw pool threshold sel avail e :
  selectByOptimalValue pool threshold sel avail = Throw e ->
  e = TypeError_balance_of_undefined.
Proof.
  revert e.
  apply (selectByOptimalValue_ind' pool threshold
           (fun _ _ r => forall e, r = Throw e -> e = TypeError_balance_of_undefined)).
  - intros s a _ e [=].
  - intros s a _ _ e [= <-]. reflexivity.
  - intros s a x r _ _ _ IH e Hr. apply IH. assumption.
Qed.

(** The search of [prepareInputs] is entered with at least one balance. *)
Lemma greedy_selection_nonempty pool threshold sel avail :
  selectByOptimalValue pool threshold [] 0 = Ok (sel, avail) ->
  0 < threshold ->
  sel <> [] /\ map balance (Lodash.uniqBy_balance pool) <> [].
Proof.
  intros Hrun Hpos. apply selectByOptimalValue_run in Hrun.
  pose proof (GreedyRun_nonempty _ _ _ _ Hrun Hpos) as Hsel.
  split; [assumption|].
  apply GreedyRun_extends in Hrun. destruct Hrun as (picked & -> & Hin).
  cbn [app] in Hsel. destruct picked as [|x picked]; [congruence|].
  assert (Hpool : pool <> []).
  { intros ->. apply (Hin x). left. reflexivity. }
  apply uniqBy_balance_nonempty in Hpool.
  destruct (Lodash.uniqBy_balance pool); [congruence | discriminate].
Qed.

Lemma selectWithLimit_destructures pool threshold limit :
  map balance (Lodash.uniqBy_balance pool) <> [] -> 0 < threshold ->
  selectWithLimit pool threshold limit <> Throw TypeError_destructure_undefined.
Proof.
  intros Hne Hpos. unfold selectWithLimit. cbv zeta.
  destruct (outermost_call_returns_record limit DEFAULT_MAX_CALL_TIMES threshold
              (map balance (Lodash.uniqBy_balance pool)) Hne Hpos) as (r & Hr).
  unfold subsetSumWithLimit. rewrite Hr.
  destruct (negb (Lodash.size (res_exactMatches r) =? 0)).
  - destruct (negb _); discriminate.
  - destruct (negb (Lodash.size (res_exceeded r) =? 0)); [|discriminate].
    unfold findSetWithMinSize. cbv zeta. destruct (_ || _); discriminate.
Qed.

Lemma ByMaxInputs_prepareInputs_destructures addressData threshold maxInputs security :
  0 < threshold ->
  ByMaxInputs.prepareInputs addressData threshold maxInputs security
  <> Throw TypeError_destructure_undefined.
Proof.
  intros Hpos. unfold ByMaxInputs.prepareInputs.
  destruct (_ <? threshold); [discriminate|].
  destruct (threshold =? 0); [discriminate|].
  destruct maxInputs as [m| |]; try discriminate.
  destruct (selectByOptimalValue _ _ _ _) as [[sel avail]|e] eqn:Hrun.
  - destruct (_ && _); [|discriminate].
    apply selectWithLimit_destructures; [|assumption].
    eapply greedy_selection_nonempty; eassumption.
  - apply selectByOptimalValue_Throw in Hrun. subst e. discriminate.
Qed.

Lemma ByLimit_prepareInputs_destructures addressData threshold limit security :
  0 < threshold ->
  ByLimit.prepareInputs addressData threshold limit security
  <> Throw TypeError_destructure_undefined.
Proof.
  intros Hpos. unfold ByLimit.prepareInputs.
  destruct (_ <? threshold); [discriminate|].
  destruct (threshold =? 0); [discriminate|].
  destruct (match limit with LimitNumber 0 => true | _ => false end); [discriminate|].
  destruct (selectByOptimalValue _ _ _ _) as [[sel avail]|e] eqn:Hrun.
  - destruct limit as [m| |]; try discriminate.
    destruct (_ >? m); [|discriminate].
    apply selectWithLimit_destructures; [|assumption].
    eapply greedy_selection_nonempty; eassumption.
  - apply selectByOptimalValue_Throw in Hrun. subst e. discriminate.
Qed.

(** An absent limit argument of [prepareInputs] is the limit 2, not no
    limit. *)
Example absent_limit_is_two :
  ByMaxInputs.prepareInputs (poolOf [1; 1; 1; 1; 1]) 3 DEFAULT_INPUTS_LIMIT DEFAULT_SECURITY
  = Throw CANNOT_FIND_INPUTS_WITH_PROVIDED_LIMIT
  /\ ByLimit.prepareInputs (poolOf [1; 1; 1; 1; 1]) 3 DEFAULT_INPUTS_LIMIT DEFAULT_SECURITY
     = Throw CANNOT_FIND_INPUTS_WITH_PROVIDED_LIMIT.
Proof. split; vm_compute; reflexivity. Qed.

(** Without distinct addresses the candidates of the greedy pass can run out
    before the threshold is reached. *)
Example repeated_address_exhausts_candidates :
  ByMaxInputs.prepareInputs
    [mkAddressEntry "X" 0 1 false false; mkAddressEntry "X" 1 1 false false]
    2 (LimitNumber 0) DEFAULT_SECURITY
  = Throw TypeError_balance_of_undefined.
Proof. vm_compute. reflexivity. Qed.

(** ** The stages of [getInputs] *)

Ltac decide_ltb :=
  repeat match goal with
    | H : ?a < ?b |- context [?a <? ?b] =>
        replace (a <? b) with true by (symmetry; apply Z.ltb_lt; exact H)
    | H : ?b <= ?a |- context [?a <? ?b] =>
        replace (a <? b) with false by (symmetry; apply Z.ltb_ge; exact H)
    end.

Lemma ByMaxInputs_getInputs_filtersInOrder
  (Provider Transaction : Type) (transferValue : Transaction -> Z)
  (filterNonFunded : Provider -> list Transaction -> list AddressEntry ->
                     Result (list Transaction))
  (omitIncoming filterOutgoing : list AddressEntry -> list Transaction -> list AddressEntry)
  (pickUnspent : Provider -> list AddressEntry -> list Transaction ->
                 Result (list AddressEntry))
  provider addressData transactions threshold maxInputs pending :
  threshold <= totalBalance addressData ->
  filterNonFunded provider
    (filter (fun tx => negb (transferValue tx =? 0)) transactions) addressData
  = Ok pending ->
  filtersInOrder threshold
    (omitIncoming addressData pending)
    (filterOutgoing (omitIncoming addressData pending) transactions)
    (pickUnspent provider
       (filterOutgoing (omitIncoming addressData pending) transactions) transactions)
    (fun unspent =>
       ByMaxInputs.prepareInputs unspent threshold (LimitNumber maxInputs) DEFAULT_SECURITY)
    (ByMaxInputs.getInputs Provider Transaction transferValue filterNonFunded
       omitIncoming filterOutgoing pickUnspent
       provider addressData transactions threshold (LimitNumber maxInputs)).
Proof.
  intros Htotal Hpending. unfold filtersInOrder, ByMaxInputs.getInputs.
  decide_ltb. cbn [isNumber negb]. rewrite Hpending. unfold andThen, run, reject. cbn [app].
  split; [|split].
  - intros Hincoming. decide_ltb. reflexivity.
  - intros Hincoming Houtgoing. decide_ltb. cbn [app]. decide_ltb. reflexivity.
  - intros Hincoming Houtgoing unspent Hspent. decide_ltb. cbn [app]. decide_ltb.
    rewrite Hspent. cbn [app].
    split; intros Hunspent; decide_ltb; reflexivity.
Qed.

Lemma ByLimit_getInputs_filtersInOrder
  (Provider Transaction : Type)
  (constructBundles : list Transaction -> list (list Transaction))
  (filterNonFunded : Provider -> list (list Transaction) -> Result (list (list Transaction)))
  (filterIncoming filterOutgoing : list AddressEntry -> list Transaction -> list AddressEntry)
  (filterSpent : Provider -> list AddressEntry -> list Transaction ->
                 Result (list AddressEntry))
  provider addressData transactions threshold maxInputs funded :
  threshold <= totalBalance addressData ->
  maxInputs <> LimitOther ->
  filterNonFunded provider (constructBundles transactions) = Ok funded ->
  filtersInOrder threshold
    (filterIncoming addressData (concat funded))
    (filterOutgoing (filterIncoming addressData (concat funded)) transactions)
    (filterSpent provider
       (filterOutgoing (filterIncoming addressData (concat funded)) transactions)
       transactions)
    (fun unspent => ByLimit.prepareInputs unspent threshold maxInputs DEFAULT_SECURITY)
    (ByLimit.getInputs Provider Transaction constructBundles filterNonFunded
       filterIncoming filterOutgoing filterSpent
       provider addressData transactions threshold maxInputs).
Proof.
  intros Htotal Hlimit Hfunded. unfold filtersInOrder, ByLimit.getInputs.
  decide_ltb.
  replace (match maxInputs with LimitOther => true | _ => false end) with false
    by (destruct maxInputs; congruence).
  rewrite Hfunded. unfold andThen, run, reject. cbn [app].
  split; [|split].
  - intros Hincoming. decide_ltb. reflexivity.
  - intros Hincoming Houtgoing. decide_ltb. cbn [app]. decide_ltb. reflexivity.
  - intros Hincoming Houtgoing unspent Hspent. decide_ltb. cbn [app]. decide_ltb.
    rewrite Hspent. cbn [app].
    split; intros Hunspent; decide_ltb; reflexivity.
Qed.

(** The same wallet with the spent entry as the only funded one: the call
    gets as far as the spent filter. *)
Example getInputs_funds_at_spent_addresses :
  exampleGetInputs [mkAddressEntry "A" 0 5 true false; mkAddressEntry "AA" 1 1 false false]
    [] 3
  = ([NonFundedStage; IncomingStage; OutgoingStage; SpentStage],
     Throw FUNDS_AT_SPENT_ADDRESSES).
Proof. vm_compute. reflexivity. Qed.

(** ** [isNodeSynced] and its test suite *)

(** The model passes every case of the test suite. *)
Lemma isNodeSynced_passes_suite sampleAge :
  FIVE_MINUTES <= sampleAge ->
  Forall (passesCase isNodeSynced) (extendedApi_cases sampleAge).
Proof.
  intros Hold. unfold extendedApi_cases.
  assert (Hrecent : forall now, isWithinFiveMinutes (now - 60000) now = true).
  { intros now. unfold isWithinFiveMinutes, FIVE_MINUTES. apply Z.ltb_lt. lia. }
  assert (Hstale : forall now, isWithinFiveMinutes (now - sampleAge) now = false).
  { intros now. unfold isWithinFiveMinutes. apply Z.ltb_ge. lia. }
  repeat apply Forall_cons; try apply Forall_nil; intros now;
    cbn [case_info case_age case_expected
         case_hashes_differ case_empty_hash case_one_behind_old case_one_behind_recent
         case_agree_old case_agree_recent].
  - reflexivity.
  - reflexivity.
  - change (isNodeSynced info_one_behind (now - sampleAge) now)
      with (Ok (A:=bool) (isWithinFiveMinutes (now - sampleAge) now)).
    rewrite Hstale. reflexivity.
  - change (isNodeSynced info_one_behind (now - 60000) now)
      with (Ok (A:=bool) (isWithinFiveMinutes (now - 60000) now)).
    rewrite Hrecent. reflexivity.
  - change (isNodeSynced info_hashes_agree (now - sampleAge) now)
      with (Ok (A:=bool) (isWithinFiveMinutes (now - sampleAge) now)).
    rewrite Hstale. reflexivity.
  - change (isNodeSynced info_hashes_agree (now - 60000) now)
      with (Ok (A:=bool) (isWithinFiveMinutes (now - 60000) now)).
    rewrite Hrecent. reflexivity.
Qed.

(** The algorithm as section 4.4 words it rejects the node of the test at
    lines 114-201, which the suite expects to be judged by its timestamp. *)
Lemma isSynced_as_specified_fails_suite sampleAge now :
  isSynced_as_specified info_one_behind (now - sampleAge) now = Throw NODE_NOT_SYNCED
  /\ case_expected (case_one_behind_old sampleAge) = Ok false.
Proof. split; reflexivity. Qed.

(** Whatever implements [isNodeSynced], if it passes the suite it resolves
    (to false) for a node whose two hashes differ. *)
Lemma suite_resolves_on_differing_hashes (f : NodeInfo -> Z -> Z -> Result bool) sampleAge :
  Forall (passesCase f) (extendedApi_cases sampleAge) ->
  forall now,
    String.eqb (latestMilestone info_one_behind)
      (latestSolidSubtangleMilestone info_one_behind) = false
    /\ f info_one_behind (now - sampleAge) now = Ok false.
Proof.
  intros Hsuite now. split; [vm_compute; reflexivity|].
  unfold extendedApi_cases in Hsuite.
  inversion Hsuite as [|? ? _ H1]; subst. inversion H1 as [|? ? _ H2]; subst.
  inversion H2 as [|? ? Hcase _]; subst. apply (Hcase now).
Qed.

Lemma eqb_false_of_neq (a b : string) : a <> b -> String.eqb a b = false.
Proof. intros H. apply String.eqb_neq. assumption. Qed.

(** * The properties of the specification *)

(** ** C1: the selected balance reaches the threshold *)

(** C1, as amended.  Whenever [prepareInputs] (either copy) returns a
    selection, the returned balance is the sum of the balances of the selected
    inputs and is at least the threshold. *)
Theorem prepareInputs_balance_reaches_threshold :
  forall addressData threshold limit security s,
    ByMaxInputs.prepareInputs addressData threshold limit security = Ok s
    \/ ByLimit.prepareInputs addressData threshold limit security = Ok s ->
    total s = Lodash.sumBy balance (inputs s) /\ threshold <= total s.
Proof.
  intros addressData threshold limit security s [H | H].
  - apply ByMaxInputs_prepareInputs_Ok in H. destruct H as [Hrun | (m & _ & _ & Hsel)].
    + apply selection_reaches_threshold in Hrun. assumption.
    + apply selectWithLimit_Ok in Hsel. tauto.
  - apply ByLimit_prepareInputs_Ok in H. destruct H as [Hrun | (m & _ & _ & Hsel)].
    + apply selection_reaches_threshold in Hrun. assumption.
    + apply selectWithLimit_Ok in Hsel. tauto.
Qed.

Lemma prepareInputs_balance_reaches_threshold_witness :
  exists s,
    ByMaxInputs.prepareInputs (poolOf [4; 6; 3]) 5 (LimitNumber 2) DEFAULT_SECURITY = Ok s
    /\ total s = Lodash.sumBy balance (inputs s) /\ 5 <= total s.
Proof.
  eexists. split; [vm_compute; reflexivity|].
  apply (prepareInputs_balance_reaches_threshold
           (poolOf [4; 6; 3]) 5 (LimitNumber 2) DEFAULT_SECURITY).
  left. vm_compute. reflexivity.
Defined.

(** C1 as stated fails.  Pool balances 4, 6, 3, threshold 5, limit 2: no
    combination sums to 5, the input of balance 6 alone overshoots by 1, and
    both copies of [prepareInputs] return the inputs of balance 4 and 3,
    overshooting by 2. *)
Lemma prepareInputs_overshoot_not_smallest :
  balancesOf (ByMaxInputs.prepareInputs (poolOf [4; 6; 3]) 5 (LimitNumber 2) DEFAULT_SECURITY)
  = Ok ([4; 3], 7)
  /\ balancesOf (ByLimit.prepareInputs (poolOf [4; 6; 3]) 5 (LimitNumber 2) DEFAULT_SECURITY)
     = Ok ([4; 3], 7)
  /\ forallb (fun c => negb (Lodash.sumBy balance c =? 5))
       (sublists (eligibleInputs (poolOf [4; 6; 3]) DEFAULT_SECURITY)) = true
  /\ exists c,
       In c (sublists (eligibleInputs (poolOf [4; 6; 3]) DEFAULT_SECURITY))
       /\ Lodash.size c <= 2
       /\ 5 <= Lodash.sumBy balance c < 7.
Proof.
  split; [vm_compute; reflexivity|].
  split; [vm_compute; reflexivity|].
  split; [vm_compute; reflexivity|].
  exists [mkInput "AA" 6 DEFAULT_SECURITY 1].
  split; [vm_compute; tauto|].
  vm_compute. intuition discriminate.
Qed.

(** ** C2: a limit of 0 *)

(** C2, as amended.  For every pool with pairwise distinct addresses whose
    total balance is at least the threshold, and every positive threshold:
    in the copy whose parameter is [maxInputs], a limit of 0 means unlimited
    ([prepareInputs] returns the greedy selection, whatever its size); in the
    copy whose parameter is [limit], a limit of 0 is refused with
    [INPUTS_LIMIT_CANNOT_BE_ZERO], and it is the [null] limit that means
    unlimited. *)
Theorem zero_limit_unlimited_or_refused :
  forall addressData threshold security,
    NoDup (map entry_address addressData) ->
    0 < threshold ->
    threshold <= totalBalance addressData ->
    (exists s,
        ByMaxInputs.prepareInputs addressData threshold (LimitNumber 0) security = Ok s
        /\ GreedyRun (eligibleInputs addressData security) threshold [] 0
             (inputs s) (total s))
    /\ ByLimit.prepareInputs addressData threshold (LimitNumber 0) security
       = Throw INPUTS_LIMIT_CANNOT_BE_ZERO
    /\ (exists s,
           ByLimit.prepareInputs addressData threshold LimitNull security = Ok s
           /\ GreedyRun (eligibleInputs addressData security) threshold [] 0
                (inputs s) (total s)).
Proof.
  intros addressData threshold security Hnd Hpos Hsum.
  split; [apply ByMaxInputs_prepareInputs_unlimited; assumption|].
  split; [apply ByLimit_prepareInputs_zero_limit; assumption|].
  apply ByLimit_prepareInputs_unlimited; assumption.
Qed.

Lemma zero_limit_unlimited_or_refused_witness :
  (exists s,
      ByMaxInputs.prepareInputs (poolOf [1; 1; 1; 1; 1]) 3 (LimitNumber 0) DEFAULT_SECURITY
      = Ok s
      /\ GreedyRun (eligibleInputs (poolOf [1; 1; 1; 1; 1]) DEFAULT_SECURITY) 3 [] 0
           (inputs s) (total s))
  /\ ByLimit.prepareInputs (poolOf [1; 1; 1; 1; 1]) 3 (LimitNumber 0) DEFAULT_SECURITY
     = Throw INPUTS_LIMIT_CANNOT_BE_ZERO
  /\ (exists s,
         ByLimit.prepareInputs (poolOf [1; 1; 1; 1; 1]) 3 LimitNull DEFAULT_SECURITY = Ok s
         /\ GreedyRun (eligibleInputs (poolOf [1; 1; 1; 1; 1]) DEFAULT_SECURITY) 3 [] 0
              (inputs s) (total s)).
Proof.
  apply (zero_limit_unlimited_or_refused (poolOf [1; 1; 1; 1; 1]) 3 DEFAULT_SECURITY).
  - exact poolOf_five_ones_NoDup.
  - lia.
  - vm_compute. discriminate.
Defined.

(** C2 as stated fails in the copy whose parameter is [limit]: on a pool of
    one entry of balance 5 and threshold 3, a limit of 0 makes
    [prepareInputs] throw the limit error, although the total balance reaches
    the threshold. *)
Lemma zero_limit_is_refused :
  3 <= totalBalance (poolOf [5])
  /\ ByLimit.prepareInputs (poolOf [5]) 3 (LimitNumber 0) DEFAULT_SECURITY
     = Throw INPUTS_LIMIT_CANNOT_BE_ZERO.
Proof.
  split; [vm_compute; discriminate | vm_compute; reflexivity].
Qed.

(** ** C3: five inputs of balance 1, threshold 3, limit 2 *)

(** C3.  The greedy pass selects three inputs, which exceeds the limit; the
    inputs with unique balances are the single input of balance 1; the search
    over [[1]] records no exact match and no exceeding combination; and
    [prepareInputs] (either copy) throws
    [CANNOT_FIND_INPUTS_WITH_PROVIDED_LIMIT]. *)
Theorem five_ones_cannot_meet_limit :
  let candidates := eligibleInputs (poolOf [1; 1; 1; 1; 1]) DEFAULT_SECURITY in
  (exists sel, selectByOptimalValue candidates 3 [] 0 = Ok (sel, 3) /\ Lodash.size sel = 3)
  /\ map balance (Lodash.uniqBy_balance candidates) = [1]
  /\ subsetSumWithLimit 2 DEFAULT_MAX_CALL_TIMES [1] 3 = Some (mkSearchResult [] [])
  /\ ByMaxInputs.prepareInputs (poolOf [1; 1; 1; 1; 1]) 3 (LimitNumber 2) DEFAULT_SECURITY
     = Throw CANNOT_FIND_INPUTS_WITH_PROVIDED_LIMIT
  /\ ByLimit.prepareInputs (poolOf [1; 1; 1; 1; 1]) 3 (LimitNumber 2) DEFAULT_SECURITY
     = Throw CANNOT_FIND_INPUTS_WITH_PROVIDED_LIMIT.
Proof.
  cbv zeta. split.
  - eexists. split; vm_compute; reflexivity.
  - repeat split; vm_compute; reflexivity.
Qed.

(** ** C4: [MAX_CALL_TIMES] *)

(** C4 fails on the code.  On seventeen balances none of whose combinations
    reaches the threshold, a search with the default [MAX_CALL_TIMES] of
    100000 makes 131072 calls and returns after the last of them; and with
    [MAX_CALL_TIMES] set to 2, the search over three balances still makes its
    eight calls.  What the search records never depends on
    [MAX_CALL_TIMES]. *)
Theorem search_runs_past_MAX_CALL_TIMES :
  callTimes (fst (calculate DEFAULT_LIMIT DEFAULT_MAX_CALL_TIMES 1000 seventeenBalances []
                    initialSearchState)) = 131072
  /\ DEFAULT_MAX_CALL_TIMES < 131072
  /\ subsetSumWithLimit DEFAULT_LIMIT DEFAULT_MAX_CALL_TIMES seventeenBalances 1000
     = Some (mkSearchResult [] [])
  /\ callTimes (fst (calculate DEFAULT_LIMIT 2 100 [1; 2; 3] [] initialSearchState)) = 8
  /\ (forall limit threshold max1 max2 balances partial s,
         fst (calculate limit max1 threshold balances partial s)
         = fst (calculate limit max2 threshold balances partial s)).
Proof.
  split.
  - destruct (calls_below_threshold DEFAULT_LIMIT DEFAULT_MAX_CALL_TIMES 1000
                seventeenBalances) as [Hc _].
    { intros b Hb. cbn in Hb. intuition lia. }
    destruct (Hc [] initialSearchState eq_refl) as (_ & Hcalls & _).
    { vm_compute. reflexivity. }
    rewrite Hcalls. reflexivity.
  - split; [reflexivity|].
    split; [vm_compute; reflexivity|].
    split; [vm_compute; reflexivity|].
    intros limit threshold max1 max2 balances partial s.
    apply store_independent_of_MAX_CALL_TIMES.
Qed.

(** ** C5: left to right, depth first, first exact match *)

(** C5.  On [[10; 20; 30]] with threshold 30 and the default limit 2, the
    search makes three calls (partials [[]], [[10]], [[10; 20]]) and
    records exactly the exact match [[10; 20]]; and in general, once the flag
    of an exact match is set the loop of every call breaks without a further
    call, so that a search records at most one exact match. *)
Theorem search_stops_at_first_exact_match :
  subsetSumWithLimit DEFAULT_LIMIT DEFAULT_MAX_CALL_TIMES [10; 20; 30] 30
  = Some (mkSearchResult [[10; 20]] [])
  /\ callTimes (fst (calculate DEFAULT_LIMIT DEFAULT_MAX_CALL_TIMES 30 [10; 20; 30] []
                       initialSearchState)) = 3
  /\ (forall limit maxc threshold partial rest index s,
         hasFoundAnExactMatch s = true ->
         each limit maxc threshold partial rest index s = s)
  /\ (forall limit maxc balances threshold r,
         subsetSumWithLimit limit maxc balances threshold = Some r ->
         (length (res_exactMatches r) <= 1)%nat).
Proof.
  split; [vm_compute; reflexivity|].
  split; [vm_compute; reflexivity|].
  split.
  - intros. apply each_after_exact_match. assumption.
  - intros. eapply subsetSumWithLimit_one_exact_match. eassumption.
Qed.

Lemma search_stops_at_first_exact_match_witness :
  each DEFAULT_LIMIT DEFAULT_MAX_CALL_TIMES 30 [] [30] 2
    (fst (calculate DEFAULT_LIMIT DEFAULT_MAX_CALL_TIMES 30 [20; 30] [10]
            (enterCall DEFAULT_LIMIT 30 [10; 20; 30] [] initialSearchState)))
  = mkSearchState true false [[10; 20]] [] 3 3
  /\ (length [[10; 20]] <= 1)%nat.
Proof.
  destruct search_stops_at_first_exact_match as (_ & _ & Hbreak & Hone).
  split.
  - rewrite Hbreak; vm_compute; reflexivity.
  - apply (Hone DEFAULT_LIMIT DEFAULT_MAX_CALL_TIMES [10; 20; 30] 30
             (mkSearchResult [[10; 20]] [])).
    vm_compute. reflexivity.
Defined.

(** ** C6: the greedy pass *)

(** C6.  The loop of [prepareInputs] ends with a selection exactly when the
    following run leads to it, and the run has one outcome: every iteration
    starts with the accumulated balance below the threshold, picks among the
    inputs not yet selected (by address) the first, in pool order, of those
    whose balance is closest to the remaining difference, appends it and adds
    its balance; the run stops as soon as the accumulated balance reaches the
    threshold. *)
Theorem greedy_pass_picks_first_closest :
  forall pool threshold sel avail,
    selectByOptimalValue pool threshold [] 0 = Ok (sel, avail)
    <-> GreedyRun pool threshold [] 0 sel avail.
Proof.
  intros pool threshold sel avail. split.
  - apply selectByOptimalValue_run.
  - apply GreedyRun_complete.
Qed.

Lemma greedy_pass_picks_first_closest_witness :
  exists sel,
    map balance sel = [4; 3]
    /\ GreedyRun (eligibleInputs (poolOf [4; 6; 3]) DEFAULT_SECURITY) 5 [] 0 sel 7.
Proof.
  eexists. split; [|apply greedy_pass_picks_first_closest; vm_compute; reflexivity].
  reflexivity.
Defined.

(** ** C7: the filter stages of [getInputs] *)

(** C7.  Provided the total balance reaches the threshold, the limit is
    acceptable and the non-funded filter resolves, [getInputs] (either copy)
    applies the pending-incoming, the pending-outgoing and the spent filter
    in this order, sums the balance that is left after each and rejects with
    [INCOMING_TRANSFERS], [ADDRESS_HAS_PENDING_TRANSFERS] or
    [FUNDS_AT_SPENT_ADDRESSES] at the first stage whose balance is below the
    threshold, without running a later stage; when no stage fails it settles
    as [prepareInputs] on the unspent addresses does. *)
Theorem getInputs_filters_in_order :
  (forall (Provider Transaction : Type) (transferValue : Transaction -> Z)
          (filterNonFunded : Provider -> list Transaction -> list AddressEntry ->
                             Result (list Transaction))
          (omitIncoming filterOutgoing :
             list AddressEntry -> list Transaction -> list AddressEntry)
          (pickUnspent : Provider -> list AddressEntry -> list Transaction ->
                         Result (list AddressEntry))
          provider addressData transactions threshold maxInputs pending,
      threshold <= totalBalance addressData ->
      filterNonFunded provider
        (filter (fun tx => negb (transferValue tx =? 0)) transactions) addressData
      = Ok pending ->
      filtersInOrder threshold
        (omitIncoming addressData pending)
        (filterOutgoing (omitIncoming addressData pending) transactions)
        (pickUnspent provider
           (filterOutgoing (omitIncoming addressData pending) transactions) transactions)
        (fun unspent =>
           ByMaxInputs.prepareInputs unspent threshold (LimitNumber maxInputs)
             DEFAULT_SECURITY)
        (ByMaxInputs.getInputs Provider Transaction transferValue filterNonFunded
           omitIncoming filterOutgoing pickUnspent
           provider addressData transactions threshold (LimitNumber maxInputs)))
  /\ (forall (Provider Transaction : Type)
             (constructBundles : list Transaction -> list (list Transaction))
             (filterNonFunded : Provider -> list (list Transaction) ->
                                Result (list (list Transaction)))
             (filterIncoming filterOutgoing :
                list AddressEntry -> list Transaction -> list AddressEntry)
             (filterSpent : Provider -> list AddressEntry -> list Transaction ->
                            Result (list AddressEntry))
             provider addressData transactions threshold maxInputs funded,
         threshold <= totalBalance addressData ->
         maxInputs <> LimitOther ->
         filterNonFunded provider (constructBundles transactions) = Ok funded ->
         filtersInOrder threshold
           (filterIncoming addressData (concat funded))
           (filterOutgoing (filterIncoming addressData (concat funded)) transactions)
           (filterSpent provider
              (filterOutgoing (filterIncoming addressData (concat funded)) transactions)
              transactions)
           (fun unspent =>
              ByLimit.prepareInputs unspent threshold maxInputs DEFAULT_SECURITY)
           (ByLimit.getInputs Provider Transaction constructBundles filterNonFunded
              filterIncoming filterOutgoing filterSpent
              provider addressData transactions threshold maxInputs)).
Proof.
  split.
  - intros. apply ByMaxInputs_getInputs_filtersInOrder; assumption.
  - intros. apply ByLimit_getInputs_filtersInOrder; assumption.
Qed.

Lemma getInputs_filters_in_order_witness :
  exampleGetInputs (poolOf [5; 1]) ["A"%string] 3
  = ([NonFundedStage; IncomingStage], Throw INCOMING_TRANSFERS).
Proof.
  destruct getInputs_filters_in_order as [HA _].
  apply (HA unit string (fun _ => 1) (fun _ txs _ => Ok txs) exampleOmitIncoming
            (fun d _ => d) exampleFilterSpent tt (poolOf [5; 1]) ["A"%string] 3 0
            ["A"%string]).
  - vm_compute. discriminate.
  - reflexivity.
  - vm_compute. reflexivity.
Defined.

(** ** C8: [isNodeSynced] *)

(** C8, as amended.  [isNodeSynced] rejects with [NODE_NOT_SYNCED] when the
    two milestone hashes are equal to the empty sentinel, and when they differ
    unless the solid milestone index is exactly one behind the latest.  When
    the latest milestone is not the sentinel and either the hashes agree with
    an index difference of 0 or 1, or they differ with an index difference of
    exactly 1, it resolves: to true if the timestamp of the sampled
    transaction is within five minutes of now, to false if it is older. *)
Theorem isNodeSynced_verdict :
  forall info timestamp now,
    (latestMilestone info = latestSolidSubtangleMilestone info ->
     latestMilestone info = EMPTY_HASH_TRYTES ->
     isNodeSynced info timestamp now = Throw NODE_NOT_SYNCED)
    /\ (latestMilestone info <> latestSolidSubtangleMilestone info ->
        indexDiff info <> Some 1 ->
        isNodeSynced info timestamp now = Throw NODE_NOT_SYNCED)
    /\ (latestMilestone info <> EMPTY_HASH_TRYTES ->
        (latestMilestone info = latestSolidSubtangleMilestone info
         /\ (indexDiff info = Some 0 \/ indexDiff info = Some 1))
        \/ (latestMilestone info <> latestSolidSubtangleMilestone info
            /\ indexDiff info = Some 1) ->
        (now - timestamp < FIVE_MINUTES -> isNodeSynced info timestamp now = Ok true)
        /\ (FIVE_MINUTES <= now - timestamp ->
            isNodeSynced info timestamp now = Ok false)).
Proof.
  intros info timestamp now. unfold isNodeSynced. cbv zeta.
  split; [|split].
  - intros -> Hempty. rewrite String.eqb_refl.
    rewrite <- Hempty at 1. rewrite String.eqb_refl. reflexivity.
  - intros Hdiffer Hgap. rewrite (eqb_false_of_neq _ _ Hdiffer). cbn [andb negb].
    assert (Hone : isOne (indexDiff info) = false).
    { destruct (indexDiff info) as [d|]; [|reflexivity]. cbn [isOne].
      apply Z.eqb_neq. congruence. }
    rewrite Hone. reflexivity.
  - intros Hfull Hcase. rewrite (eqb_false_of_neq _ _ Hfull).
    assert (Hverdict : forall b : bool,
               (now - timestamp < FIVE_MINUTES ->
                Ok (isWithinFiveMinutes timestamp now) = Ok true)
               /\ (FIVE_MINUTES <= now - timestamp ->
                   Ok (isWithinFiveMinutes timestamp now) = Ok false)).
    { intros _. unfold isWithinFiveMinutes. split; intros H; f_equal;
        [apply Z.ltb_lt | apply Z.ltb_ge]; assumption. }
    destruct Hcase as [[Hagree Hgap] | [Hdiffer Hgap]].
    + rewrite Hagree, String.eqb_refl. cbn [andb negb].
      destruct Hgap as [-> | ->]; cbn [exceedsOne Z.gtb Z.compare]; apply (Hverdict true).
    + rewrite (eqb_false_of_neq _ _ Hdiffer), Hgap. cbn. apply (Hverdict true).
Qed.

Lemma isNodeSynced_verdict_witness :
  isNodeSynced info_one_behind (1600000000000 - 60000) 1600000000000 = Ok true
  /\ isNodeSynced (mkNodeInfo EMPTY_HASH_TRYTES EMPTY_HASH_TRYTES None None)
       0 1600000000000 = Throw NODE_NOT_SYNCED.
Proof.
  destruct (isNodeSynced_verdict info_one_behind (1600000000000 - 60000) 1600000000000)
    as (_ & _ & Hresolve).
  destruct (isNodeSynced_verdict (mkNodeInfo EMPTY_HASH_TRYTES EMPTY_HASH_TRYTES None None)
              0 1600000000000) as (Hempty & _).
  split.
  - apply Hresolve.
    + vm_compute. discriminate.
    + right. split; [vm_compute; discriminate | reflexivity].
    + vm_compute. reflexivity.
  - apply Hempty; reflexivity.
Defined.

(** C8 as stated fails: the node of the test at lines 114-147 has two
    different hashes, the suite expects the call to resolve to false, and so
    does [isNodeSynced], rather than reject. *)
Lemma isNodeSynced_resolves_on_differing_hashes :
  In (case_one_behind_old 600000) (extendedApi_cases 600000)
  /\ String.eqb (latestMilestone info_one_behind)
       (latestSolidSubtangleMilestone info_one_behind) = false
  /\ case_expected (case_one_behind_old 600000) = Ok false
  /\ isNodeSynced info_one_behind (1600000000000 - 600000) 1600000000000 = Ok false.
Proof.
  split; [right; right; left; reflexivity|].
  repeat split; vm_compute; reflexivity.
Qed.

(** ** C9: no address twice *)

(** C9.  The greedy pass never selects an address twice, whatever the pool:
    the addresses already selected are taken out of the candidates of each
    iteration.  The selection through the search is made of inputs with
    pairwise distinct balances, and of pairwise distinct addresses when the
    addresses of the pool are.  Hence on a pool whose entries have pairwise
    distinct addresses (the address is the key of an entry), every selection
    [prepareInputs] (either copy) returns has pairwise distinct addresses. *)
Theorem prepareInputs_no_address_twice :
  (forall pool threshold sel avail,
      selectByOptimalValue pool threshold [] 0 = Ok (sel, avail) ->
      NoDup (map address sel))
  /\ (forall pool threshold limit s,
         selectWithLimit pool threshold limit = Ok s ->
         NoDup (map balance (inputs s))
         /\ (NoDup (map address pool) -> NoDup (map address (inputs s))))
  /\ (forall addressData threshold limit security s,
         NoDup (map entry_address addressData) ->
         ByMaxInputs.prepareInputs addressData threshold limit security = Ok s
         \/ ByLimit.prepareInputs addressData threshold limit security = Ok s ->
         NoDup (map address (inputs s))).
Proof.
  split; [|split].
  - intros pool threshold sel avail Hrun. apply selectByOptimalValue_run in Hrun.
    eapply greedy_selection_NoDup. eassumption.
  - intros pool threshold limit s Hsel. split.
    + eapply selectWithLimit_distinct_balances. eassumption.
    + intros Hnd. eapply selectWithLimit_NoDup; eassumption.
  - intros addressData threshold limit security s Hnd H.
    pose proof (eligibleInputs_NoDup addressData security Hnd) as Hpool.
    destruct H as [H | H].
    + apply ByMaxInputs_prepareInputs_Ok in H. destruct H as [Hrun | (m & _ & _ & Hsel)].
      * eapply greedy_selection_NoDup. eassumption.
      * eapply selectWithLimit_NoDup; eassumption.
    + apply ByLimit_prepareInputs_Ok in H. destruct H as [Hrun | (m & _ & _ & Hsel)].
      * eapply greedy_selection_NoDup. eassumption.
      * eapply selectWithLimit_NoDup; eassumption.
Qed.

(** Balances 8, 1, 3, 7 at four addresses, threshold 10, limit 2: the greedy
    pass selects three inputs, the search finds the exact match [[3; 7]], and
    the two inputs returned have different addresses. *)
Lemma prepareInputs_no_address_twice_witness :
  exists s,
    ByLimit.prepareInputs (poolOf [8; 1; 3; 7]) 10 (LimitNumber 2) DEFAULT_SECURITY = Ok s
    /\ map balance (inputs s) = [3; 7]
    /\ map address (inputs s) = ["AAA"%string; "AAAA"%string]
    /\ NoDup (map address (inputs s)).
Proof.
  eexists. split; [vm_compute; reflexivity|].
  split; [reflexivity|]. split; [reflexivity|].
  destruct prepareInputs_no_address_twice as (_ & _ & Hprepare).
  apply (Hprepare (poolOf [8; 1; 3; 7]) 10 (LimitNumber 2) DEFAULT_SECURITY).
  - exact poolOf_8_1_3_7_NoDup.
  - right. vm_compute. reflexivity.
Defined.

(** Two entries that share the address X, with balances 3 and 4, beside
    three entries of balance 1; threshold 7, limit 2.  The greedy pass
    selects four inputs, the inputs with unique balances are those of
    balances 3, 4 and 1, the search finds the exact match [[3; 4]], and both
    copies return the address X twice: making the balances distinct does not
    make the addresses distinct. *)
Theorem prepareInputs_returns_repeated_address :
  exists s,
    ByMaxInputs.prepareInputs
      [ mkAddressEntry "X" 0 3 false false; mkAddressEntry "X" 1 4 false false;
        mkAddressEntry "Y" 2 1 false false; mkAddressEntry "Z" 3 1 false false;
        mkAddressEntry "W" 4 1 false false ]
      7 (LimitNumber 2) DEFAULT_SECURITY = Ok s
    /\ ByLimit.prepareInputs
         [ mkAddressEntry "X" 0 3 false false; mkAddressEntry "X" 1 4 false false;
           mkAddressEntry "Y" 2 1 false false; mkAddressEntry "Z" 3 1 false false;
           mkAddressEntry "W" 4 1 false false ]
         7 (LimitNumber 2) DEFAULT_SECURITY = Ok s
    /\ map balance (inputs s) = [3; 4]
    /\ map address (inputs s) = ["X"%string; "X"%string]
    /\ NoDup (map balance (inputs s)).
Proof.
  eexists. split; [vm_compute; reflexivity|]. split; [vm_compute; reflexivity|].
  split; [reflexivity|]. split; [reflexivity|].
  cbn. repeat (constructor; [cbn; intuition discriminate|]). constructor.
Qed.

(** ** C10: the outermost call of the search *)

(** C10.  With a limit of at least 1 and a positive threshold, the outermost
    call of the search on a non-empty list of balances returns a record
    (whatever [MAX_CALL_TIMES] is); on the empty list it returns
    [undefined]; and [prepareInputs] (either copy) enters the search only
    after a non-empty greedy selection, hence with a non-empty list of
    balances, and never fails on destructuring the result. *)
Theorem outermost_search_call_is_defined :
  forall limit maxc threshold,
    1 <= limit -> 0 < threshold ->
    (forall balances,
        balances <> [] ->
        exists r, subsetSumWithLimit limit maxc balances threshold = Some r)
    /\ subsetSumWithLimit limit DEFAULT_MAX_CALL_TIMES [] threshold = None
    /\ (forall pool sel avail,
           selectByOptimalValue pool threshold [] 0 = Ok (sel, avail) ->
           sel <> [] /\ map balance (Lodash.uniqBy_balance pool) <> [])
    /\ (forall addressData limitArg security,
           ByMaxInputs.prepareInputs addressData threshold limitArg security
           <> Throw TypeError_destructure_undefined
           /\ ByLimit.prepareInputs addressData threshold limitArg security
              <> Throw TypeError_destructure_undefined).
Proof.
  intros limit maxc threshold _ Hpos.
  split; [intros balances Hne; apply outermost_call_returns_record; assumption|].
  split; [apply outermost_call_on_empty|].
  split.
  - intros pool sel avail Hrun. eapply greedy_selection_nonempty; eassumption.
  - intros addressData limitArg security. split.
    + apply ByMaxInputs_prepareInputs_destructures. assumption.
    + apply ByLimit_prepareInputs_destructures. assumption.
Qed.

Lemma outermost_search_call_is_defined_witness :
  (exists r, subsetSumWithLimit 2 DEFAULT_MAX_CALL_TIMES [1] 3 = Some r)
  /\ subsetSumWithLimit 2 DEFAULT_MAX_CALL_TIMES [] 3 = None
  /\ ByLimit.prepareInputs (poolOf [1; 1; 1; 1; 1]) 3 (LimitNumber 2) DEFAULT_SECURITY
     <> Throw TypeError_destructure_undefined.
Proof.
  destruct (outermost_search_call_is_defined 2 DEFAULT_MAX_CALL_TIMES 3)
    as (Hsome & Hnone & _ & Hprepare); [lia | lia |].
  split; [apply Hsome; discriminate|].
  split; [assumption|].
  apply (Hprepare (poolOf [1; 1; 1; 1; 1]) (LimitNumber 2) DEFAULT_SECURITY).
Defined.

(** * Further properties of the input selection *)

(** ** Combinations of balances *)

(** [sub] keeps some of the elements of [l], in their order: the
    combinations the search walks through are of this kind. *)
Inductive Subsequence {A : Type} : list A -> list A -> Prop :=
| sub_nil : Subsequence [] []
| sub_skip x sub l : Subsequence sub l -> Subsequence sub (x :: l)
| sub_take x sub l : Subsequence sub l -> Subsequence (x :: sub) (x :: l).

Definition sumOf (c : list Z) : Z := Lodash.sumBy (fun v => v) c.

Lemma Subsequence_nil_l {A} (l : list A) : Subsequence [] l.
Proof. induction l; constructor; assumption. Qed.

Lemma Subsequence_refl {A} (l : list A) : Subsequence l l.
Proof. induction l; constructor; assumption. Qed.

Lemma Subsequence_In {A} (sub l : list A) x :
  Subsequence sub l -> In x sub -> In x l.
Proof.
  induction 1 as [|y sub l _ IH|y sub l _ IH]; intros Hin.
  - assumption.
  - right. apply IH. assumption.
  - destruct Hin as [-> | Hin]; [left; reflexivity | right; apply IH; assumption].
Qed.

Lemma Subsequence_length {A} (sub l : list A) :
  Subsequence sub l -> (length sub <= length l)%nat.
Proof. induction 1; cbn [length]; lia. Qed.

Lemma Subsequence_app_l {A} (p sub l : list A) :
  Subsequence (p ++ sub) l -> Subsequence p l.
Proof.
  revert p sub. induction l as [|x l IH]; intros p sub H.
  - inversion H as [Hnil | |]. symmetry in Hnil. apply app_eq_nil in Hnil.
    destruct Hnil as [-> _]. constructor.
  - inversion H as [|? ? ? H' | y sub' ? H' Heq]; subst.
    + apply sub_skip. eapply IH. eassumption.
    + destruct p as [|z p]; [apply Subsequence_nil_l|].
      cbn [app] in Heq. injection Heq as -> ->.
      apply sub_take. eapply IH. eassumption.
Qed.

Lemma Subsequence_map {A B} (f : A -> B) (sub l : list A) :
  Subsequence sub l -> Subsequence (map f sub) (map f l).
Proof. induction 1; cbn [map]; constructor; assumption. Qed.

Lemma Subsequence_filter {A} (p : A -> bool) (l : list A) :
  Subsequence (filter p l) l.
Proof.
  induction l as [|x l IH]; cbn [filter]; [constructor|].
  destruct (p x); constructor; assumption.
Qed.

(** The shortest prefix of a combination that reaches a positive
    threshold. *)
Lemma shortest_reaching_prefix (c : list Z) (threshold : Z) :
  0 < threshold -> threshold <= sumOf c ->
  exists q b rest,
    c = q ++ b :: rest /\ sumOf q < threshold <= sumOf (q ++ [b]).
Proof.
  unfold sumOf. revert threshold.
  induction c as [|a c IH]; intros threshold Hpos Hsum.
  - rewrite sumBy_nil in Hsum. lia.
  - rewrite sumBy_cons in Hsum.
    destruct (Z_lt_le_dec a threshold) as [Hlt | Hge].
    + destruct (IH (threshold - a)) as (q & b & rest & -> & Hq & Hqb); [lia | lia |].
      exists (a :: q), b, rest. split; [reflexivity|].
      change ((a :: q) ++ [b]) with (a :: (q ++ [b])). rewrite !sumBy_cons. lia.
    + exists [], a, c. split; [reflexivity|].
      cbn [app]. rewrite sumBy_nil, sumBy_cons, sumBy_nil. lia.
Qed.

(** ** Induction along the calls of a search *)

Section SearchInduction.

Variable limit : Z.
Variable maxc : Z.
Variable threshold : Z.

Variable P : list Z -> list Z -> SearchState -> SearchState -> Prop.
Variable Q : list Z -> list Z -> Z -> SearchState -> SearchState -> Prop.

Hypothesis P_pruned :
  forall balances partial s,
    threshold <= sumOf partial ->
    P balances partial s (enterCall limit threshold balances partial s).

Hypothesis P_loop :
  forall balances partial s,
    sumOf partial < threshold ->
    Q partial balances 0 (enterCall limit threshold balances partial s)
      (each limit maxc threshold partial balances 0
         (enterCall limit threshold balances partial s)) ->
    P balances partial s
      (each limit maxc threshold partial balances 0
         (enterCall limit threshold balances partial s)).

Hypothesis Q_end : forall partial index s, Q partial [] index s s.

Hypothesis Q_break :
  forall partial b remaining index s,
    hasFoundAnExactMatch s = true -> Q partial (b :: remaining) index s s.

Hypothesis Q_step :
  forall partial b remaining index s,
    hasFoundAnExactMatch s = false ->
    let s1 := fst (calculate limit maxc threshold remaining (partial ++ [b])
                     (markLastIndex index s)) in
    let s2 := each limit maxc threshold partial remaining (index + 1) s1 in
    P remaining (partial ++ [b]) (markLastIndex index s) s1 ->
    Q partial remaining (index + 1) s1 s2 ->
    Q partial (b :: remaining) index s s2.

Lemma search_induction balances :
  (forall partial s,
      P balances partial s (fst (calculate limit maxc threshold balances partial s)))
  /\ (forall partial index s,
         Q partial balances index s (each limit maxc threshold partial balances index s)).
Proof.
  assert (Hcalc : forall bs,
             (forall partial index s,
                 Q partial bs index s (each limit maxc threshold partial bs index s)) ->
             forall partial s,
               P bs partial s (fst (calculate limit maxc threshold bs partial s))).
  { intros bs HQ partial s. rewrite calculate_unfold. cbv zeta.
    fold (sumOf partial).
    destruct (Z.geb_spec (sumOf partial) threshold) as [Hge | Hlt]; cbn [fst].
    - apply P_pruned. lia.
    - apply P_loop; [assumption | apply HQ]. }
  induction balances as [|b remaining [IHc IHe]].
  - assert (HQ : forall partial index s,
               Q partial [] index s (each limit maxc threshold partial [] index s))
      by (intros; apply Q_end).
    split; [apply Hcalc; assumption | assumption].
  - assert (HQ : forall partial index s,
               Q partial (b :: remaining) index s
                 (each limit maxc threshold partial (b :: remaining) index s)).
    { intros partial index s. rewrite each_unfold.
      destruct (hasFoundAnExactMatch s) eqn:Hf; [apply Q_break; assumption|].
      apply Q_step; [assumption | apply IHc | apply IHe]. }
    split; [apply Hcalc; assumption | assumption].
Qed.

End SearchInduction.

(** ** What the search records *)

Section SearchRecords.

Variable limit : Z.
Variable maxc : Z.
Variable threshold : Z.

(** A combination within the limit whose sum is the threshold. *)
Definition exactCombination (c : list Z) : Prop :=
  sumOf c = threshold /\ Lodash.size c <= limit.

(** A combination within the limit that exceeds the threshold and does so
    only with its last element. *)
Definition exceedingCombination (c : list Z) : Prop :=
  threshold < sumOf c
  /\ Lodash.size c <= limit
  /\ (forall q b, c = q ++ [b] -> sumOf q < threshold).

Lemma enterCall_exactMatches balances partial s c :
  In c (exactMatches (enterCall limit threshold balances partial s)) ->
  In c (exactMatches s) \/ (c = partial /\ exactCombination partial).
Proof.
  unfold enterCall. cbv zeta. cbn [exactMatches]. fold (sumOf partial).
  destruct (Z.eqb_spec (sumOf partial) threshold) as [Hsum | Hsum]; cbn [andb];
    [|tauto].
  destruct (Z.leb_spec (Lodash.size partial) limit) as [Hsize | Hsize]; [|tauto].
  intros Hin. apply in_app_or in Hin. destruct Hin as [Hin | [<- | []]]; [tauto|].
  right. split; [reflexivity | split; assumption].
Qed.

Lemma enterCall_exceeded balances partial s c :
  In c (exceeded (enterCall limit threshold balances partial s)) ->
  In c (exceeded s)
  \/ (c = partial /\ threshold < sumOf partial /\ Lodash.size partial <= limit).
Proof.
  unfold enterCall. cbv zeta. cbn [exceeded]. fold (sumOf partial).
  destruct (Z.gtb_spec (sumOf partial) threshold) as [Hsum | Hsum]; cbn [andb];
    [|tauto].
  destruct (Z.leb_spec (Lodash.size partial) limit) as [Hsize | Hsize]; [|tauto].
  intros Hin. apply in_app_or in Hin. destruct Hin as [Hin | [<- | []]]; [tauto|].
  right. repeat split; [lia | assumption].
Qed.

Lemma markLastIndex_records index s :
  exactMatches (markLastIndex index s) = exactMatches s
  /\ exceeded (markLastIndex index s) = exceeded s
  /\ hasFoundAnExactMatch (markLastIndex index s) = hasFoundAnExactMatch s
  /\ callTimes (markLastIndex index s) = callTimes s.
Proof. unfold markLastIndex. destruct (_ =? _); repeat split. Qed.

(** What a call adds to the store: combinations made of its partial
    combination followed by some of its balances. *)
Definition addsOnly (partial balances : list Z) (s s' : SearchState) : Prop :=
  (forall c, In c (exactMatches s') ->
             In c (exactMatches s)
             \/ exists sub, Subsequence sub balances /\ c = partial ++ sub
                            /\ exactCombination c)
  /\ (forall c, In c (exceeded s') ->
                In c (exceeded s)
                \/ exists sub, Subsequence sub balances /\ c = partial ++ sub
                               /\ exceedingCombination c).

Lemma calculate_addsOnly balances :
  (forall partial s,
      (forall q b, partial = q ++ [b] -> sumOf q < threshold) ->
      addsOnly partial balances s
        (fst (calculate limit maxc threshold balances partial s)))
  /\ (forall partial index s,
         sumOf partial < threshold ->
         addsOnly partial balances s
           (each limit maxc threshold partial balances index s)).
Proof.
  assert (Henter : forall bs partial s,
             (forall q b, partial = q ++ [b] -> sumOf q < threshold) ->
             addsOnly partial bs s (enterCall limit threshold bs partial s)).
  { intros bs partial s Hpre. split; intros c Hin.
    - apply enterCall_exactMatches in Hin. destruct Hin as [Hin | [-> Hexact]]; [tauto|].
      right. exists []. rewrite app_nil_r.
      split; [apply Subsequence_nil_l | split; [reflexivity | assumption]].
    - apply enterCall_exceeded in Hin. destruct Hin as [Hin | (-> & Hsum & Hsize)]; [tauto|].
      right. exists []. rewrite app_nil_r.
      split; [apply Subsequence_nil_l | split; [reflexivity|]].
      repeat split; assumption. }
  apply (search_induction limit maxc threshold
           (fun bs partial s s' =>
              (forall q b, partial = q ++ [b] -> sumOf q < threshold) ->
              addsOnly partial bs s s')
           (fun partial bs index s s' =>
              sumOf partial < threshold -> addsOnly partial bs s s')).
  - intros bs partial s _ Hpre. apply Henter. assumption.
  - intros bs partial s Hlt HQ Hpre.
    destruct (HQ Hlt) as [Hexact Hover]. destruct (Henter bs partial s Hpre) as [He Ho].
    split; intros c Hin.
    + destruct (Hexact c Hin) as [Hold | Hnew]; [apply He; assumption | tauto].
    + destruct (Hover c Hin) as [Hold | Hnew]; [apply Ho; assumption | tauto].
  - intros partial index s _. split; intros c Hin; tauto.
  - intros partial b remaining index s _ _. split; intros c Hin; tauto.
  - intros partial b remaining index s Hf s1 s2 HP HQ Hlt.
    destruct (markLastIndex_records index s) as (Hme & Hmo & _).
    destruct (HQ Hlt) as [Hexact Hover].
    destruct HP as [Hexact1 Hover1].
    { intros q b' Heq. apply app_inj_tail in Heq. destruct Heq as [<- _]. assumption. }
    split; intros c Hin.
    + destruct (Hexact c Hin) as [Hold | (sub & Hsub & -> & Hc)].
      * destruct (Hexact1 c Hold) as [Hold1 | (sub & Hsub & -> & Hc)].
        -- left. rewrite <- Hme. assumption.
        -- right. exists (b :: sub). rewrite <- app_assoc in *.
           split; [apply sub_take; assumption | split; [reflexivity | assumption]].
      * right. exists sub. split; [apply sub_skip; assumption | split; [reflexivity | assumption]].
    + destruct (Hover c Hin) as [Hold | (sub & Hsub & -> & Hc)].
      * destruct (Hover1 c Hold) as [Hold1 | (sub & Hsub & -> & Hc)].
        -- left. rewrite <- Hmo. assumption.
        -- right. exists (b :: sub). rewrite <- app_assoc in *.
           split; [apply sub_take; assumption | split; [reflexivity | assumption]].
      * right. exists sub. split; [apply sub_skip; assumption | split; [reflexivity | assumption]].
Qed.

End SearchRecords.

(** Every combination a search returns is made of some of the balances, in
    their order, and is within the limit; an exact match sums to the
    threshold; an exceeding combination exceeds it and does so only with its
    last element. *)
Lemma subsetSumWithLimit_sound limit maxc balances threshold r :
  subsetSumWithLimit limit maxc balances threshold = Some r ->
  (forall c, In c (res_exactMatches r) ->
             Subsequence c balances /\ exactCombination limit threshold c)
  /\ (forall c, In c (res_exceeded r) ->
                Subsequence c balances /\ exceedingCombination limit threshold c).
Proof.
  unfold subsetSumWithLimit. intros Hr.
  destruct (calculate_addsOnly limit maxc threshold balances) as [Hcalc _].
  destruct (Hcalc [] initialSearchState) as [Hexact Hover].
  { intros q b Heq. destruct q; discriminate. }
  assert (Hstore : res_exactMatches r
                   = exactMatches (fst (calculate limit maxc threshold balances []
                                          initialSearchState))
                   /\ res_exceeded r
                      = exceeded (fst (calculate limit maxc threshold balances []
                                         initialSearchState))).
  { rewrite calculate_unfold in *. cbv zeta in *.
    destruct (_ >=? _); cbn [fst snd] in *; [discriminate|].
    unfold leaveCall in Hr. destruct (_ || _); [|discriminate].
    injection Hr as <-. split; reflexivity. }
  destruct Hstore as [-> ->].
  split; intros c Hin.
  - destruct (Hexact c Hin) as [[] | (sub & Hsub & -> & Hc)]. tauto.
  - destruct (Hover c Hin) as [[] | (sub & Hsub & -> & Hc)]. tauto.
Qed.

(** ** What the search does not miss *)

Lemma sumOf_app (a b : list Z) : sumOf (a ++ b) = sumOf a + sumOf b.
Proof. apply sumBy_app. Qed.

Lemma sumOf_nonneg (c : list Z) : (forall b, In b c -> 0 <= b) -> 0 <= sumOf c.
Proof. apply sumBy_nonneg. Qed.

Lemma size_app {A} (a b : list A) : Lodash.size (a ++ b) = Lodash.size a + Lodash.size b.
Proof. unfold Lodash.size. rewrite length_app. lia. Qed.

Section SearchComplete.

Variable limit : Z.
Variable maxc : Z.
Variable threshold : Z.

(** Nothing within reach of [partial] and [balances] has been missed: no
    combination is exact, and the exceeding ones are all recorded. *)
Definition nothingMissed (nonempty : bool) (partial balances : list Z) (s' : SearchState)
  : Prop :=
  forall sub,
    Subsequence sub balances ->
    (nonempty = true -> sub <> []) ->
    ~ exactCombination limit threshold (partial ++ sub)
    /\ (exceedingCombination limit threshold (partial ++ sub) ->
        In (partial ++ sub) (exceeded s')).

Definition searched (nonempty : bool) (partial balances : list Z) (s s' : SearchState)
  : Prop :=
  incl (exceeded s) (exceeded s')
  /\ (hasFoundAnExactMatch s' = true \/ nothingMissed nonempty partial balances s').

Lemma enterCall_incl balances partial s :
  incl (exceeded s) (exceeded (enterCall limit threshold balances partial s)).
Proof.
  unfold enterCall. cbv zeta. cbn [exceeded].
  destruct (_ && _); [apply incl_appl|]; apply incl_refl.
Qed.

Lemma calculate_searched balances :
  (forall partial s,
      hasFoundAnExactMatch s = false ->
      (forall b, In b balances -> 0 <= b) ->
      searched false partial balances s
        (fst (calculate limit maxc threshold balances partial s)))
  /\ (forall partial index s,
         hasFoundAnExactMatch s = false ->
         (forall b, In b balances -> 0 <= b) ->
         sumOf partial < threshold ->
         searched true partial balances s
           (each limit maxc threshold partial balances index s)).
Proof.
  apply (search_induction limit maxc threshold
           (fun bs partial s s' =>
              hasFoundAnExactMatch s = false ->
              (forall b, In b bs -> 0 <= b) ->
              searched false partial bs s s')
           (fun partial bs index s s' =>
              hasFoundAnExactMatch s = false ->
              (forall b, In b bs -> 0 <= b) ->
              sumOf partial < threshold ->
              searched true partial bs s s')).
  - (* the call is pruned *)
    intros bs partial s Hge Hf Hpos. split; [apply enterCall_incl|].
    destruct (Z.eqb_spec (sumOf partial) threshold) as [Hsum | Hsum];
      [destruct (Z.leb_spec (Lodash.size partial) limit) as [Hsize | Hsize]|].
    + left. unfold enterCall. cbv zeta. cbn [hasFoundAnExactMatch]. fold (sumOf partial).
      replace (sumOf partial =? threshold) with true by (symmetry; apply Z.eqb_eq; assumption).
      replace (Lodash.size partial <=? limit) with true
        by (symmetry; apply Z.leb_le; assumption).
      reflexivity.
    + right. intros sub Hsub _.
      assert (0 <= sumOf sub)
        by (apply sumOf_nonneg; intros b Hb; apply Hpos; eapply Subsequence_In; eassumption).
      split.
      * intros [_ Hc]. rewrite size_app in Hc. pose proof (size_nonneg sub). lia.
      * intros (_ & Hc & _). rewrite size_app in Hc. pose proof (size_nonneg sub). lia.
    + right. intros sub Hsub _.
      assert (Hsubpos : forall b, In b sub -> 0 <= b)
        by (intros b Hb; apply Hpos; eapply Subsequence_In; eassumption).
      pose proof (sumOf_nonneg sub Hsubpos) as Hnn.
      split.
      * intros [Hc _]. rewrite sumOf_app in Hc. lia.
      * intros (Hover & Hsize & Hmin).
        destruct sub as [|x sub'].
        -- rewrite app_nil_r in *. unfold enterCall. cbv zeta. cbn [exceeded].
           fold (sumOf partial).
           replace (sumOf partial >? threshold) with true
             by (symmetry; rewrite Z.gtb_ltb; apply Z.ltb_lt; assumption).
           replace (Lodash.size partial <=? limit) with true
             by (symmetry; apply Z.leb_le; assumption).
           apply in_or_app. right. left. reflexivity.
        -- exfalso.
           destruct (exists_last (l := x :: sub')) as (front & y & Hlast); [discriminate|].
           rewrite Hlast, app_assoc in Hmin. specialize (Hmin _ _ eq_refl).
           rewrite sumOf_app in Hmin.
           assert (0 <= sumOf front).
           { apply sumOf_nonneg. intros b Hb. apply Hsubpos. rewrite Hlast.
             apply in_or_app. left. assumption. }
           lia.
  - (* the call loops over its balances *)
    intros bs partial s Hlt HQ Hf Hpos.
    assert (Hsame : hasFoundAnExactMatch (enterCall limit threshold bs partial s) = false
                    /\ exceeded (enterCall limit threshold bs partial s) = exceeded s).
    { unfold enterCall. cbv zeta. cbn [hasFoundAnExactMatch exceeded]. fold (sumOf partial).
      replace (sumOf partial =? threshold) with false by (symmetry; apply Z.eqb_neq; lia).
      replace (sumOf partial >? threshold) with false
        by (symmetry; rewrite Z.gtb_ltb; apply Z.ltb_ge; lia).
      cbn [andb]. split; [assumption | reflexivity]. }
    destruct Hsame as [Hf1 Hex1].
    destruct (HQ Hf1 Hpos Hlt) as [Hincl Hres].
    split; [rewrite <- Hex1; assumption|].
    destruct Hres as [Hfound | Hmissed]; [left; assumption|].
    right. intros sub Hsub _.
    destruct sub as [|x sub'].
    + rewrite app_nil_r. split.
      * intros [Hc _]. lia.
      * intros (Hc & _). lia.
    + apply Hmissed; [assumption | discriminate].
  - (* the loop is over *)
    intros partial index s _ _ _. split; [apply incl_refl|].
    right. intros sub Hsub Hne. inversion Hsub; subst. exfalso. apply Hne; reflexivity.
  - (* the loop breaks *)
    intros partial b remaining index s Hf Hf'. congruence.
  - (* one turn of the loop *)
    intros partial b remaining index s Hf s1 s2 HP HQ _ Hpos Hlt.
    destruct (markLastIndex_records index s) as (_ & Hmo & Hmf & _).
    assert (Hposrem : forall x, In x remaining -> 0 <= x)
      by (intros x Hx; apply Hpos; right; assumption).
    destruct HP as [Hincl1 Hres1]; [congruence | assumption |].
    rewrite Hmo in Hincl1.
    destruct (hasFoundAnExactMatch s1) eqn:Hf1.
    + assert (Hs2 : s2 = s1) by (apply each_after_exact_match; assumption).
      rewrite Hs2. split; [assumption | left; assumption].
    + destruct (HQ eq_refl Hposrem Hlt) as [Hincl2 Hres2].
      split; [eapply incl_tran; eassumption|].
      destruct Hres2 as [Hfound | Hmissed2]; [left; assumption|].
      destruct Hres1 as [Hfound | Hmissed1]; [congruence|].
      right. intros sub Hsub Hne.
      inversion Hsub as [|? ? ? Hskip | ? sub' ? Htake]; subst.
      * apply Hmissed2; [assumption | intros _; apply Hne; reflexivity].
      * destruct (Hmissed1 sub' Htake) as [Hnot Hrec]; [discriminate|].
        rewrite <- app_assoc in Hnot, Hrec. cbn [app] in Hnot, Hrec.
        split; [assumption|]. intros Hover. apply Hincl2, Hrec. assumption.
Qed.

End SearchComplete.

(** The store behind the record a search returns. *)
Lemma subsetSumWithLimit_store limit maxc balances threshold r :
  subsetSumWithLimit limit maxc balances threshold = Some r ->
  let s := fst (calculate limit maxc threshold balances [] initialSearchState) in
  res_exactMatches r = exactMatches s /\ res_exceeded r = exceeded s.
Proof.
  unfold subsetSumWithLimit. intros Hr. cbv zeta.
  rewrite calculate_unfold in *. cbv zeta in *.
  destruct (_ >=? _); cbn [fst snd] in *; [discriminate|].
  unfold leaveCall in Hr. destruct (_ || _); [|discriminate].
  injection Hr as <-. split; reflexivity.
Qed.

(** On balances that are not negative, a search that returns no exact match
    has met no combination within the limit that sums to the threshold, and
    has recorded every combination within the limit that exceeds the
    threshold only with its last element. *)
Lemma subsetSumWithLimit_complete limit maxc balances threshold r :
  (forall b, In b balances -> 0 <= b) ->
  subsetSumWithLimit limit maxc balances threshold = Some r ->
  res_exactMatches r = [] ->
  forall c,
    Subsequence c balances ->
    ~ exactCombination limit threshold c
    /\ (exceedingCombination limit threshold c -> In c (res_exceeded r)).
Proof.
  intros Hpos Hr Hnone c Hsub.
  destruct (subsetSumWithLimit_store _ _ _ _ _ Hr) as [Hexact Hover].
  destruct (calculate_searched limit maxc threshold balances) as [Hcalc _].
  destruct (Hcalc [] initialSearchState eq_refl Hpos) as [_ [Hfound | Hmissed]].
  - pose proof (calculate_atMostOneExactMatch limit threshold maxc balances []
                  initialSearchState eq_refl eq_refl) as Hone.
    unfold atMostOneExactMatch in Hone. rewrite Hfound in Hone.
    destruct Hone as (m & Hm). congruence.
  - rewrite Hover. apply (Hmissed c Hsub). discriminate.
Qed.

(** ** The inputs with unique balances *)

Lemma includes_In (xs : list Z) (v : Z) : Lodash.includes xs v = true <-> In v xs.
Proof.
  unfold Lodash.includes. rewrite existsb_exists. split.
  - intros (x & Hin & Heq). apply Z.eqb_eq in Heq. subst. assumption.
  - intros Hin. exists v. split; [assumption | apply Z.eqb_refl].
Qed.

Lemma uniqBy_balance_from_spec seen l :
  Subsequence (Lodash.uniqBy_balance_from seen l) l
  /\ NoDup (map balance (Lodash.uniqBy_balance_from seen l))
  /\ (forall x, In x (Lodash.uniqBy_balance_from seen l) -> ~ In (balance x) seen)
  /\ (forall x, In x l ->
                In (balance x) seen
                \/ In (balance x) (map balance (Lodash.uniqBy_balance_from seen l))).
Proof.
  revert seen. induction l as [|a l IH]; intros seen.
  - cbn. repeat split; [constructor | constructor | tauto | tauto].
  - cbn [Lodash.uniqBy_balance_from].
    destruct (Lodash.includes seen (balance a)) eqn:Hseen.
    + destruct (IH seen) as (Hsub & Hnd & Hfresh & Hall).
      repeat split; [apply sub_skip; assumption | assumption | assumption |].
      intros x [<- | Hx]; [left; apply includes_In; assumption | apply Hall; assumption].
    + destruct (IH (balance a :: seen)) as (Hsub & Hnd & Hfresh & Hall).
      assert (Hnot : ~ In (balance a) seen).
      { intros Hin. apply includes_In in Hin. congruence. }
      repeat split.
      * apply sub_take. assumption.
      * cbn [map]. constructor; [|assumption].
        intros Hin. apply in_map_iff in Hin. destruct Hin as (y & Hy & Hiny).
        apply (Hfresh y Hiny). left. symmetry. assumption.
      * intros x [<- | Hx]; [assumption|].
        intros Hin. apply (Hfresh x Hx). right. assumption.
      * intros x [<- | Hx]; [right; left; reflexivity|].
        destruct (Hall x Hx) as [[Heq | Hin] | Hin].
        -- right. left. assumption.
        -- left. assumption.
        -- right. right. assumption.
Qed.

Lemma uniqBy_balance_Subsequence pool : Subsequence (Lodash.uniqBy_balance pool) pool.
Proof. apply uniqBy_balance_from_spec. Qed.

Lemma uniqBy_balance_NoDup pool : NoDup (map balance (Lodash.uniqBy_balance pool)).
Proof. apply uniqBy_balance_from_spec. Qed.

(** Picking, among inputs of pairwise different balances, those whose
    balance is in a combination made of their balances gives back the
    combination. *)
Lemma filter_includes_combination (candidates : list Input) (c : list Z) :
  NoDup (map balance candidates) ->
  Subsequence c (map balance candidates) ->
  map balance (filter (fun input => Lodash.includes c (balance input)) candidates) = c.
Proof.
  revert c. induction candidates as [|a l IH]; intros c Hnd Hsub.
  - inversion Hsub. reflexivity.
  - cbn [map] in Hnd, Hsub. inversion Hnd as [|? ? Hnotin Hnd']; subst.
    cbn [filter].
    inversion Hsub as [|? ? ? Hskip | ? c' ? Htake]; subst.
    + assert (Hout : Lodash.includes c (balance a) = false).
      { destruct (Lodash.includes c (balance a)) eqn:E; [|reflexivity].
        apply includes_In in E. exfalso. apply Hnotin.
        eapply Subsequence_In; eassumption. }
      rewrite Hout. apply IH; assumption.
    + assert (Hin : Lodash.includes (balance a :: c') (balance a) = true)
        by (apply includes_In; left; reflexivity).
      rewrite Hin. cbn [map]. f_equal.
      transitivity
        (map balance (filter (fun input => Lodash.includes c' (balance input)) l));
        [|apply IH; assumption].
      f_equal. apply filter_ext_in. intros x Hx.
      unfold Lodash.includes. cbn [existsb].
      replace (balance x =? balance a) with false; [reflexivity|].
      symmetry. apply Z.eqb_neq. intros Heq. apply Hnotin. rewrite <- Heq.
      apply in_map. assumption.
Qed.

Lemma sumBy_balance_map (l : list Input) : Lodash.sumBy balance l = sumOf (map balance l).
Proof. unfold sumOf. rewrite sumBy_map. reflexivity. Qed.

Lemma size_map {A B} (f : A -> B) (l : list A) : Lodash.size (map f l) = Lodash.size l.
Proof. unfold Lodash.size. rewrite length_map. reflexivity. Qed.

(** [minBy(xs, size)] is an element of [xs] of least size. *)
Lemma minBy_size_from_spec best xs :
  In (Lodash.minBy_size_from best xs) (best :: xs)
  /\ (forall x, In x (best :: xs) ->
                Lodash.size (Lodash.minBy_size_from best xs) <= Lodash.size x).
Proof.
  revert best. induction xs as [|y xs IH]; intros best.
  - cbn. split; [tauto | intros x [<- | []]; lia].
  - cbn [Lodash.minBy_size_from].
    destruct (Z.ltb_spec (Lodash.size y) (Lodash.size best)) as [Hlt | Hge].
    + destruct (IH y) as [Hin Hmin]. split.
      * destruct Hin as [<- | Hin]; [right; left; reflexivity | right; right; assumption].
      * intros x [<- | [<- | Hx]].
        -- specialize (Hmin y (or_introl eq_refl)). lia.
        -- apply Hmin. left. reflexivity.
        -- apply Hmin. right. assumption.
    + destruct (IH best) as [Hin Hmin]. split.
      * destruct Hin as [<- | Hin]; [left; reflexivity | right; right; assumption].
      * intros x [<- | [<- | Hx]].
        -- apply Hmin. left. reflexivity.
        -- specialize (Hmin best (or_introl eq_refl)). lia.
        -- apply Hmin. right. assumption.
Qed.

Lemma minBy_size_spec xs m :
  Lodash.minBy_size xs = Some m ->
  In m xs /\ (forall x, In x xs -> Lodash.size m <= Lodash.size x).
Proof.
  destruct xs as [|x xs]; [discriminate|]. cbn [Lodash.minBy_size].
  intros [= <-]. apply minBy_size_from_spec.
Qed.

(** ** How the selection through the search ends *)

Section SelectWithLimit.

Variable pool : list Input.
Variable threshold : Z.
Variable limit : Z.
Variable r : SearchResult.

Hypothesis Hsearch :
  subsetSumWithLimit limit DEFAULT_MAX_CALL_TIMES
    (map balance (Lodash.uniqBy_balance pool)) threshold = Some r.

Let chosen (c : list Z) : list Input :=
  filter (fun input => Lodash.includes c (balance input)) (Lodash.uniqBy_balance pool).

Lemma chosen_balances c :
  Subsequence c (map balance (Lodash.uniqBy_balance pool)) ->
  map balance (chosen c) = c /\ Lodash.sumBy balance (chosen c) = sumOf c
  /\ Lodash.size (chosen c) = Lodash.size c.
Proof.
  intros Hsub.
  assert (Hmap : map balance (chosen c) = c)
    by (apply filter_includes_combination; [apply uniqBy_balance_NoDup | assumption]).
  split; [assumption|]. split.
  - rewrite sumBy_balance_map, Hmap. reflexivity.
  - rewrite <- (size_map balance), Hmap. reflexivity.
Qed.

(** With an exact match the inputs of its balances are returned, and their
    balance is the threshold. *)
Lemma selectWithLimit_exact m rest :
  res_exactMatches r = m :: rest ->
  selectWithLimit pool threshold limit = Ok (mkSelection (chosen m) threshold)
  /\ map balance (chosen m) = m
  /\ Lodash.size (chosen m) <= limit.
Proof.
  intros Hexact.
  destruct (subsetSumWithLimit_sound _ _ _ _ _ Hsearch) as [Hsound _].
  destruct (Hsound m) as [Hsub [Hsum Hsize]]; [rewrite Hexact; left; reflexivity|].
  destruct (chosen_balances m Hsub) as (Hmap & Hbal & Hsz).
  unfold selectWithLimit. cbv zeta. rewrite Hsearch, Hexact.
  change (Lodash.size (m :: rest) =? 0) with false. cbn [negb Lodash.head orEmpty].
  fold (chosen m). rewrite Hbal, Hsum, Z.eqb_refl. cbn [negb].
  repeat split; [assumption | lia].
Qed.

(** Without an exact match, the first exceeding combination of least size
    decides; without any exceeding combination the selection fails. *)
Lemma selectWithLimit_exceeding :
  res_exactMatches r = [] ->
  match Lodash.minBy_size (res_exceeded r) with
  | Some m =>
      selectWithLimit pool threshold limit = Ok (mkSelection (chosen m) (sumOf m))
      /\ map balance (chosen m) = m
      /\ Lodash.size (chosen m) <= limit
      /\ threshold < sumOf m
  | None =>
      selectWithLimit pool threshold limit = Throw CANNOT_FIND_INPUTS_WITH_PROVIDED_LIMIT
  end.
Proof.
  intros Hexact.
  destruct (subsetSumWithLimit_sound _ _ _ _ _ Hsearch) as [_ Hsound].
  unfold selectWithLimit. cbv zeta. rewrite Hsearch, Hexact.
  change (Lodash.size (@nil (list Z)) =? 0) with true. cbn [negb].
  destruct (Lodash.minBy_size (res_exceeded r)) as [m|] eqn:Hmin.
  - destruct (minBy_size_spec _ _ Hmin) as [Hin _].
    destruct (Hsound m Hin) as [Hsub (Hsum & Hsize & _)].
    destruct (chosen_balances m Hsub) as (Hmap & Hbal & Hsz).
    destruct (res_exceeded r) as [|x xs]; [discriminate|].
    change (Lodash.size (x :: xs) =? 0) with false. cbn [negb].
    unfold findSetWithMinSize. cbv zeta. rewrite Hmin. cbn [orEmpty]. fold (chosen m).
    rewrite Hbal.
    replace (sumOf m <=? threshold) with false by (symmetry; apply Z.leb_gt; assumption).
    replace (Lodash.size m >? limit) with false
      by (symmetry; rewrite Z.gtb_ltb; apply Z.ltb_ge; assumption).
    cbn [orb]. repeat split; [assumption | lia | assumption].
  - destruct (res_exceeded r) as [|x xs]; [reflexivity | discriminate].
Qed.

End SelectWithLimit.

(** The defensive checks of the selection through the search never fire. *)
Lemma selectWithLimit_consistent pool threshold limit :
  selectWithLimit pool threshold limit
  <> Throw SOMETHING_WENT_WRONG_DURING_INPUT_SELECTION.
Proof.
  destruct (subsetSumWithLimit limit DEFAULT_MAX_CALL_TIMES
              (map balance (Lodash.uniqBy_balance pool)) threshold) as [r|] eqn:Hsearch.
  - destruct (res_exactMatches r) as [|m rest] eqn:Hexact.
    + pose proof (selectWithLimit_exceeding pool threshold limit r Hsearch Hexact) as H.
      destruct (Lodash.minBy_size (res_exceeded r)); [destruct H as [-> _] | rewrite H];
        discriminate.
    + destruct (selectWithLimit_exact pool threshold limit r Hsearch m rest Hexact)
        as [-> _]. discriminate.
  - unfold selectWithLimit. cbv zeta. rewrite Hsearch. discriminate.
Qed.

(** A selection through the search has at most [limit] inputs, taken from
    the inputs with unique balances. *)
Lemma selectWithLimit_within_limit pool threshold limit s :
  selectWithLimit pool threshold limit = Ok s ->
  Lodash.size (inputs s) <= limit.
Proof.
  intros Hsel.
  destruct (subsetSumWithLimit limit DEFAULT_MAX_CALL_TIMES
              (map balance (Lodash.uniqBy_balance pool)) threshold) as [r|] eqn:Hsearch.
  - destruct (res_exactMatches r) as [|m rest] eqn:Hexact.
    + pose proof (selectWithLimit_exceeding pool threshold limit r Hsearch Hexact) as H.
      destruct (Lodash.minBy_size (res_exceeded r)).
      * destruct H as (Heq & _ & Hsize & _). rewrite Heq in Hsel.
        injection Hsel as <-. assumption.
      * congruence.
    + destruct (selectWithLimit_exact pool threshold limit r Hsearch m rest Hexact)
        as (Heq & _ & Hsize). rewrite Heq in Hsel. injection Hsel as <-. assumption.
  - unfold selectWithLimit in Hsel. cbv zeta in Hsel. rewrite Hsearch in Hsel. discriminate.
Qed.

(** ** Combinations within reach *)

(** [c] is made of some of [balances], has at most [limit] elements and a
    sum of at least the threshold. *)
Definition reachesWithin (limit threshold : Z) (balances c : list Z) : Prop :=
  Subsequence c balances /\ Lodash.size c <= limit /\ threshold <= sumOf c.

Lemma Subsequence_size {A} (sub l : list A) :
  Subsequence sub l -> Lodash.size sub <= Lodash.size l.
Proof. intros H. apply Subsequence_length in H. unfold Lodash.size. lia. Qed.

Lemma exceedingCombination_snoc limit threshold q b :
  sumOf q < threshold < sumOf (q ++ [b]) ->
  Lodash.size (q ++ [b]) <= limit ->
  exceedingCombination limit threshold (q ++ [b]).
Proof.
  intros [Hq Hqb] Hsize. split; [assumption|]. split; [assumption|].
  intros q' b' Heq. apply app_inj_tail in Heq. destruct Heq as [<- _]. assumption.
Qed.

(** On balances that are not negative, a search does not miss a combination
    within reach: it returns an exact match, or an exceeding combination that
    is not longer. *)
Lemma reaching_combination_recorded limit maxc balances threshold r c :
  (forall b, In b balances -> 0 <= b) ->
  0 < threshold ->
  subsetSumWithLimit limit maxc balances threshold = Some r ->
  reachesWithin limit threshold balances c ->
  res_exactMatches r <> []
  \/ exists c', In c' (res_exceeded r) /\ Lodash.size c' <= Lodash.size c.
Proof.
  intros Hnonneg Hpos Hr (Hsub & Hsize & Hsum).
  destruct (res_exactMatches r) as [|m rest] eqn:Hexact; [|left; discriminate].
  right.
  destruct (shortest_reaching_prefix c threshold Hpos Hsum)
    as (q & b & rest & -> & Hq & Hqb).
  replace (q ++ b :: rest) with ((q ++ [b]) ++ rest) in *
    by (rewrite <- app_assoc; reflexivity).
  assert (Hshort : Lodash.size (q ++ [b]) <= Lodash.size ((q ++ [b]) ++ rest)).
  { rewrite (size_app (q ++ [b]) rest). pose proof (size_nonneg rest). lia. }
  apply Subsequence_app_l in Hsub.
  destruct (subsetSumWithLimit_complete limit maxc balances threshold r
              Hnonneg Hr Hexact (q ++ [b]) Hsub) as [Hnot Hrec].
  exists (q ++ [b]). split; [|assumption].
  apply Hrec. apply exceedingCombination_snoc; [|lia].
  split; [assumption|].
  destruct (Z.eq_dec (sumOf (q ++ [b])) threshold) as [Heq | Hne]; [|lia].
  exfalso. apply Hnot. split; [assumption | lia].
Qed.

(** * Properties of the code beyond the specification *)

(** ** The subset-sum search *)

(** X1.  Every combination that [subsetSumWithLimit] returns is made of some
    of the given balances, in their order, and has at most [limit] elements.
    An exact match sums to the threshold; an exceeding combination sums to
    more than the threshold, and without its last element to less. *)
Theorem search_returns_combinations_within_limit :
  forall limit maxc balances threshold r,
    subsetSumWithLimit limit maxc balances threshold = Some r ->
    (forall c, In c (res_exactMatches r) ->
               Subsequence c balances
               /\ sumOf c = threshold /\ Lodash.size c <= limit)
    /\ (forall c, In c (res_exceeded r) ->
                  Subsequence c balances
                  /\ threshold < sumOf c /\ Lodash.size c <= limit
                  /\ (forall q b, c = q ++ [b] -> sumOf q < threshold)).
Proof.
  intros limit maxc balances threshold r Hr.
  destruct (subsetSumWithLimit_sound limit maxc balances threshold r Hr) as [Hexact Hover].
  split; intros c Hin.
  - destruct (Hexact c Hin) as [Hsub [Hsum Hsize]]. repeat split; assumption.
  - destruct (Hover c Hin) as [Hsub (Hsum & Hsize & Hlast)]. repeat split; assumption.
Qed.

Lemma search_returns_combinations_within_limit_witness :
  subsetSumWithLimit 2 DEFAULT_MAX_CALL_TIMES [5; 9; 8; 1] 6
  = Some (mkSearchResult [[5; 1]] [[5; 9]; [5; 8]])
  /\ Subsequence [5; 8] [5; 9; 8; 1]
  /\ 6 < sumOf [5; 8] /\ Lodash.size [5; 8] <= 2.
Proof.
  assert (Hr : subsetSumWithLimit 2 DEFAULT_MAX_CALL_TIMES [5; 9; 8; 1] 6
               = Some (mkSearchResult [[5; 1]] [[5; 9]; [5; 8]]))
    by (vm_compute; reflexivity).
  split; [exact Hr|].
  destruct (search_returns_combinations_within_limit _ _ _ _ _ Hr) as [_ Hover].
  destruct (Hover [5; 8]) as (Hsub & Hsum & Hsize & _); [right; left; reflexivity|].
  repeat split; assumption.
Defined.

(** X2.  On balances that are not negative, [subsetSumWithLimit] returns an
    exact match exactly when some combination of at most [limit] of the
    balances sums to the threshold, and then it returns one exact match. *)
Theorem search_finds_exact_match_iff_one_exists :
  forall limit maxc balances threshold r,
    (forall b, In b balances -> 0 <= b) ->
    subsetSumWithLimit limit maxc balances threshold = Some r ->
    ((exists m, res_exactMatches r = [m])
     <-> exists c, Subsequence c balances
                   /\ sumOf c = threshold /\ Lodash.size c <= limit).
Proof.
  intros limit maxc balances threshold r Hnonneg Hr. split.
  - intros (m & Hm).
    destruct (subsetSumWithLimit_sound limit maxc balances threshold r Hr) as [Hexact _].
    destruct (Hexact m) as [Hsub [Hsum Hsize]]; [rewrite Hm; left; reflexivity|].
    exists m. repeat split; assumption.
  - intros (c & Hsub & Hsum & Hsize).
    pose proof (subsetSumWithLimit_one_exact_match _ _ _ _ _ Hr) as Hone.
    destruct (res_exactMatches r) as [|m [|m' rest]] eqn:Hexact.
    + exfalso.
      destruct (subsetSumWithLimit_complete limit maxc balances threshold r
                  Hnonneg Hr Hexact c Hsub) as [Hnot _].
      apply Hnot. split; assumption.
    + exists m. reflexivity.
    + cbn [length] in Hone. lia.
Qed.

Lemma search_finds_exact_match_iff_one_exists_witness :
  subsetSumWithLimit 2 DEFAULT_MAX_CALL_TIMES [5; 9; 8; 1] 9
  = Some (mkSearchResult [[9]] [[5; 9]; [5; 8]])
  /\ ((exists m, [[9]] = [m])
      <-> exists c, Subsequence c [5; 9; 8; 1] /\ sumOf c = 9 /\ Lodash.size c <= 2).
Proof.
  assert (Hr : subsetSumWithLimit 2 DEFAULT_MAX_CALL_TIMES [5; 9; 8; 1] 9
               = Some (mkSearchResult [[9]] [[5; 9]; [5; 8]]))
    by (vm_compute; reflexivity).
  split; [exact Hr|].
  apply (search_finds_exact_match_iff_one_exists 2 DEFAULT_MAX_CALL_TIMES [5; 9; 8; 1] 9
           (mkSearchResult [[9]] [[5; 9]; [5; 8]])); [|exact Hr].
  intros b Hb. cbn [In] in Hb. lia.
Defined.

(** X3.  On balances that are not negative and for a positive threshold,
    [subsetSumWithLimit] returns no combination at all exactly when no
    combination of at most [limit] of the balances reaches the threshold. *)
Theorem search_returns_nothing_iff_out_of_reach :
  forall limit maxc balances threshold r,
    (forall b, In b balances -> 0 <= b) ->
    0 < threshold ->
    subsetSumWithLimit limit maxc balances threshold = Some r ->
    (res_exactMatches r = [] /\ res_exceeded r = []
     <-> forall c, Subsequence c balances -> Lodash.size c <= limit ->
                   sumOf c < threshold).
Proof.
  intros limit maxc balances threshold r Hnonneg Hpos Hr. split.
  - intros [Hexact Hover] c Hsub Hsize.
    destruct (Z_lt_le_dec (sumOf c) threshold) as [Hlt | Hge]; [assumption|].
    exfalso.
    destruct (reaching_combination_recorded limit maxc balances threshold r c
                Hnonneg Hpos Hr) as [Hfound | (c' & Hin & _)].
    + repeat split; assumption.
    + congruence.
    + rewrite Hover in Hin. contradiction.
  - intros Hnone.
    destruct (subsetSumWithLimit_sound limit maxc balances threshold r Hr) as [Hexact Hover].
    split.
    + destruct (res_exactMatches r) as [|m rest]; [reflexivity|].
      destruct (Hexact m (or_introl eq_refl)) as [Hsub [Hsum Hsize]].
      pose proof (Hnone m Hsub Hsize). lia.
    + destruct (res_exceeded r) as [|m rest]; [reflexivity|].
      destruct (Hover m (or_introl eq_refl)) as [Hsub (Hsum & Hsize & _)].
      pose proof (Hnone m Hsub Hsize). lia.
Qed.

Lemma search_returns_nothing_iff_out_of_reach_witness :
  subsetSumWithLimit 2 DEFAULT_MAX_CALL_TIMES [1; 2; 3] 6 = Some (mkSearchResult [] [])
  /\ sumOf [2; 3] < 6.
Proof.
  assert (Hr : subsetSumWithLimit 2 DEFAULT_MAX_CALL_TIMES [1; 2; 3] 6
               = Some (mkSearchResult [] []))
    by (vm_compute; reflexivity).
  split; [exact Hr|].
  assert (Hnonneg : forall b, In b [1; 2; 3] -> 0 <= b)
    by (intros b Hb; cbn [In] in Hb; lia).
  assert (Hpos : 0 < 6) by lia.
  destruct (search_returns_nothing_iff_out_of_reach 2 DEFAULT_MAX_CALL_TIMES [1; 2; 3] 6
              (mkSearchResult [] []) Hnonneg Hpos Hr) as [Hnone _].
  apply (Hnone (conj eq_refl eq_refl) [2; 3]).
  - apply sub_skip. apply Subsequence_refl.
  - vm_compute. discriminate.
Defined.

(** ** [prepareInputs] *)

(** Lines 387-391 / 688-692: the balances the search is run on. *)
Definition uniqueBalances (addressData : list AddressEntry) (security : Z) : list Z :=
  map balance (Lodash.uniqBy_balance (eligibleInputs addressData security)).

(** The input made of an entry of the address data. *)
Definition inputOf (security : Z) (d : AddressEntry) : Input :=
  mkInput (entry_address d) (entry_balance d) security (entry_index d).

Lemma eligibleInputs_In addressData security input :
  In input (eligibleInputs addressData security) ->
  0 < balance input /\ exists d, In d addressData /\ input = inputOf security d.
Proof.
  unfold eligibleInputs, transformAddressDataToInputs. rewrite filter_In, in_map_iff.
  intros [(d & <- & Hd) Hpos]. apply Z.gtb_lt in Hpos.
  split; [lia|]. exists d. split; [assumption | reflexivity].
Qed.

Lemma uniqueBalances_positive addressData security b :
  In b (uniqueBalances addressData security) -> 0 < b.
Proof.
  unfold uniqueBalances. rewrite in_map_iff. intros (input & <- & Hin).
  apply (Subsequence_In _ _ _ (uniqBy_balance_Subsequence _)) in Hin.
  apply eligibleInputs_In in Hin. tauto.
Qed.

(** The errors of the selection through the search. *)
Lemma selectWithLimit_Throw pool threshold limit e :
  selectWithLimit pool threshold limit = Throw e ->
  e = TypeError_destructure_undefined \/ e = CANNOT_FIND_INPUTS_WITH_PROVIDED_LIMIT.
Proof.
  intros Hsel.
  destruct (subsetSumWithLimit limit DEFAULT_MAX_CALL_TIMES
              (map balance (Lodash.uniqBy_balance pool)) threshold) as [r|] eqn:Hsearch.
  - destruct (res_exactMatches r) as [|m rest] eqn:Hexact.
    + pose proof (selectWithLimit_exceeding pool threshold limit r Hsearch Hexact) as H.
      destruct (Lodash.minBy_size (res_exceeded r)).
      * destruct H as [H _]. congruence.
      * right. congruence.
    + destruct (selectWithLimit_exact pool threshold limit r Hsearch m rest Hexact)
        as [H _]. congruence.
  - unfold selectWithLimit in Hsel. cbv zeta in Hsel. rewrite Hsearch in Hsel.
    left. congruence.
Qed.

(** [prepareInputs] once its arguments are accepted and the loop has ended. *)
Lemma ByMaxInputs_prepareInputs_after_loop addressData threshold m security sel avail :
  threshold <= totalBalance addressData ->
  threshold <> 0 ->
  selectByOptimalValue (eligibleInputs addressData security) threshold [] 0
  = Ok (sel, avail) ->
  ByMaxInputs.prepareInputs addressData threshold (LimitNumber m) security
  = if (m >? 0) && (Lodash.size sel >? m)
    then selectWithLimit (eligibleInputs addressData security) threshold m
    else Ok (mkSelection sel avail).
Proof.
  intros Htotal Hne Hrun. unfold ByMaxInputs.prepareInputs.
  replace (totalBalance addressData <? threshold) with false
    by (symmetry; apply Z.ltb_ge; assumption).
  replace (threshold =? 0) with false by (symmetry; apply Z.eqb_neq; assumption).
  cbv zeta. rewrite Hrun. reflexivity.
Qed.

Lemma ByLimit_prepareInputs_after_loop addressData threshold m security sel avail :
  threshold <= totalBalance addressData ->
  threshold <> 0 ->
  m <> 0 ->
  selectByOptimalValue (eligibleInputs addressData security) threshold [] 0
  = Ok (sel, avail) ->
  ByLimit.prepareInputs addressData threshold (LimitNumber m) security
  = if Lodash.size sel >? m
    then selectWithLimit (eligibleInputs addressData security) threshold m
    else Ok (mkSelection sel avail).
Proof.
  intros Htotal Hne Hm Hrun. unfold ByLimit.prepareInputs.
  replace (totalBalance addressData <? threshold) with false
    by (symmetry; apply Z.ltb_ge; assumption).
  replace (threshold =? 0) with false by (symmetry; apply Z.eqb_neq; assumption).
  replace (match m with 0 => true | _ => false end) with false
    by (destruct m; congruence).
  cbv zeta. rewrite Hrun. reflexivity.
Qed.

(** With a positive limit the two copies of [prepareInputs] are the same
    function. *)
Lemma prepareInputs_copies_agree addressData threshold m security :
  0 < m ->
  ByMaxInputs.prepareInputs addressData threshold (LimitNumber m) security
  = ByLimit.prepareInputs addressData threshold (LimitNumber m) security.
Proof.
  intros Hm. unfold ByMaxInputs.prepareInputs, ByLimit.prepareInputs.
  destruct (_ <? threshold); [reflexivity|].
  destruct (threshold =? 0); [reflexivity|].
  replace (match m with 0 => true | _ => false end) with false
    by (destruct m; [lia | reflexivity | reflexivity]).
  replace (m >? 0) with true by (symmetry; apply Z.gtb_lt; assumption).
  cbn [andb]. reflexivity.
Qed.

(** The selection [prepareInputs] has entered the search for. *)
Lemma prepareInputs_through_search addressData threshold m security sel avail :
  threshold <= totalBalance addressData ->
  0 < threshold ->
  0 < m ->
  selectByOptimalValue (eligibleInputs addressData security) threshold [] 0
  = Ok (sel, avail) ->
  m < Lodash.size sel ->
  ByMaxInputs.prepareInputs addressData threshold (LimitNumber m) security
  = selectWithLimit (eligibleInputs addressData security) threshold m
  /\ exists r,
       subsetSumWithLimit m DEFAULT_MAX_CALL_TIMES (uniqueBalances addressData security)
         threshold = Some r.
Proof.
  intros Htotal Hpos Hm Hrun Hsize. split.
  - rewrite (ByMaxInputs_prepareInputs_after_loop _ _ _ _ sel avail); [|lia|lia|assumption].
    replace (m >? 0) with true by (symmetry; apply Z.gtb_lt; assumption).
    replace (Lodash.size sel >? m) with true by (symmetry; apply Z.gtb_lt; assumption).
    reflexivity.
  - apply outermost_call_returns_record; [|assumption].
    eapply greedy_selection_nonempty; eassumption.
Qed.

(** The loop of [prepareInputs] stops with the input that reaches the
    threshold: without its last input the selection is below it. *)
Lemma GreedyRun_last_needed pool threshold sel avail sel' avail' :
  GreedyRun pool threshold sel avail sel' avail' ->
  avail = Lodash.sumBy balance sel ->
  avail < threshold ->
  exists front last,
    sel' = front ++ [last] /\ Lodash.sumBy balance front < threshold.
Proof.
  induction 1 as [sel avail Hge | sel avail x sel' avail' Hlt Hfirst Hrun IH];
    intros Hsum Hbelow; [lia|].
  destruct (Z_lt_le_dec (avail + balance x) threshold) as [Hnext | Hnext].
  - apply IH; [rewrite sumBy_snoc; lia | assumption].
  - inversion Hrun as [? ? _ | ? ? ? ? ? Hlt' _ _]; subst; [|lia].
    exists sel, x. split; [reflexivity | lia].
Qed.

Lemma map_snoc_inv {A B} (f : A -> B) (l : list A) (q : list B) (b : B) :
  map f l = q ++ [b] ->
  exists front last, l = front ++ [last] /\ map f front = q /\ f last = b.
Proof.
  intros Hmap.
  destruct (exists_last (l:=l)) as (front & last & ->).
  { intros ->. destruct q; discriminate. }
  rewrite map_app in Hmap. cbn [map] in Hmap.
  apply app_inj_tail in Hmap. destruct Hmap as [Hq Hb].
  exists front, last. repeat split; assumption.
Qed.

(** The same holds of the selection that comes out of the search, for a
    positive threshold and positive balances. *)
Lemma selectWithLimit_last_needed pool threshold limit s :
  0 < threshold ->
  (forall input, In input pool -> 0 < balance input) ->
  selectWithLimit pool threshold limit = Ok s ->
  exists front last,
    inputs s = front ++ [last] /\ Lodash.sumBy balance front < threshold.
Proof.
  intros Hpos Hpool Hsel.
  assert (Hbalances : forall c b,
             Subsequence c (map balance (Lodash.uniqBy_balance pool)) -> In b c -> 0 < b).
  { intros c b Hsub Hb. apply (Subsequence_In _ _ _ Hsub) in Hb.
    apply in_map_iff in Hb. destruct Hb as (input & <- & Hin).
    apply Hpool. eapply Subsequence_In; [apply uniqBy_balance_Subsequence | eassumption]. }
  assert (Hlast : forall m,
             map balance (inputs s) = m -> threshold <= sumOf m ->
             (forall b, In b m -> 0 < b) ->
             (threshold < sumOf m -> forall q b, m = q ++ [b] -> sumOf q < threshold) ->
             exists front last,
               inputs s = front ++ [last] /\ Lodash.sumBy balance front < threshold).
  { intros m Hmap Hsum Hm Hover.
    destruct (exists_last (l:=m)) as (q & b & ->).
    { intros ->. unfold sumOf in Hsum. rewrite sumBy_nil in Hsum. lia. }
    destruct (map_snoc_inv _ _ _ _ Hmap) as (front & last & Hfront & Hq & Hb).
    exists front, last. split; [assumption|].
    rewrite sumBy_balance_map, Hq.
    destruct (Z_lt_le_dec threshold (sumOf (q ++ [b]))) as [Hgt | Hle].
    - eapply Hover; [assumption | reflexivity].
    - rewrite sumOf_app in Hle, Hsum.
      assert (0 < b) by (apply Hm, in_or_app; right; left; reflexivity).
      unfold sumOf at 2 in Hle. rewrite sumBy_cons, sumBy_nil in Hle. lia. }
  destruct (subsetSumWithLimit limit DEFAULT_MAX_CALL_TIMES
              (map balance (Lodash.uniqBy_balance pool)) threshold) as [r|] eqn:Hsearch.
  - destruct (subsetSumWithLimit_sound _ _ _ _ _ Hsearch) as [Hsound_exact Hsound_over].
    destruct (res_exactMatches r) as [|m rest] eqn:Hexact.
    + pose proof (selectWithLimit_exceeding pool threshold limit r Hsearch Hexact) as H.
      destruct (Lodash.minBy_size (res_exceeded r)) as [m|] eqn:Hmin; [|congruence].
      destruct H as (Heq & Hmap & _ & Hgt). rewrite Heq in Hsel. injection Hsel as <-.
      cbn [inputs] in *.
      destruct (minBy_size_spec _ _ Hmin) as [Hin _].
      destruct (Hsound_over m Hin) as [Hsub (_ & _ & Hshort)].
      apply (Hlast m Hmap); [lia | intros b; apply Hbalances; assumption |].
      intros _. exact Hshort.
    + destruct (selectWithLimit_exact pool threshold limit r Hsearch m rest Hexact)
        as (Heq & Hmap & _). rewrite Heq in Hsel. injection Hsel as <-.
      cbn [inputs] in *.
      destruct (Hsound_exact m (or_introl eq_refl)) as [Hsub [Hsum _]].
      apply (Hlast m Hmap); [lia | intros b; apply Hbalances; assumption | lia].
  - unfold selectWithLimit in Hsel. cbv zeta in Hsel. rewrite Hsearch in Hsel. discriminate.
Qed.

(** X4.  [prepareInputs] (either copy) never throws
    SOMETHING_WENT_WRONG_DURING_INPUT_SELECTION: the checks at lines 403 and
    418 (704 and 719) that guard the result of the search cannot fire,
    whatever the address data, the threshold and the limit are. *)
Theorem prepareInputs_never_throws_something_went_wrong :
  forall addressData threshold limit security,
    ByMaxInputs.prepareInputs addressData threshold limit security
    <> Throw SOMETHING_WENT_WRONG_DURING_INPUT_SELECTION
    /\ ByLimit.prepareInputs addressData threshold limit security
       <> Throw SOMETHING_WENT_WRONG_DURING_INPUT_SELECTION.
Proof.
  intros addressData threshold limit security. split.
  - unfold ByMaxInputs.prepareInputs.
    destruct (_ <? threshold); [discriminate|].
    destruct (threshold =? 0); [discriminate|].
    destruct limit as [m| |]; try discriminate.
    destruct (selectByOptimalValue _ _ _ _) as [[sel avail]|e] eqn:Hrun.
    + destruct (_ && _); [apply selectWithLimit_consistent | discriminate].
    + apply selectByOptimalValue_Throw in Hrun. subst e. discriminate.
  - unfold ByLimit.prepareInputs.
    destruct (_ <? threshold); [discriminate|].
    destruct (threshold =? 0); [discriminate|].
    destruct (match limit with LimitNumber 0 => true | _ => false end); [discriminate|].
    destruct (selectByOptimalValue _ _ _ _) as [[sel avail]|e] eqn:Hrun.
    + destruct limit as [m| |]; try discriminate.
      destruct (_ >? m); [apply selectWithLimit_consistent | discriminate].
    + apply selectByOptimalValue_Throw in Hrun. subst e. discriminate.
Qed.

(** X5.  A selection that [prepareInputs] returns for a limit [m] has at
    most [m] inputs: in the first copy for every positive [m] (a limit of 0
    or less is no limit there), in the second copy for every number [m]. *)
Theorem prepareInputs_selection_within_limit :
  forall addressData threshold m security s,
    (0 < m
     /\ ByMaxInputs.prepareInputs addressData threshold (LimitNumber m) security = Ok s)
    \/ ByLimit.prepareInputs addressData threshold (LimitNumber m) security = Ok s ->
    Lodash.size (inputs s) <= m.
Proof.
  intros addressData threshold m security s [[Hm H] | H].
  - unfold ByMaxInputs.prepareInputs in H.
    destruct (_ <? threshold); [discriminate|].
    destruct (threshold =? 0); [discriminate|].
    destruct (selectByOptimalValue _ _ _ _) as [[sel avail]|e]; [|discriminate].
    replace (m >? 0) with true in H by (symmetry; apply Z.gtb_lt; assumption).
    cbn [andb] in H.
    destruct (Z.gtb_spec (Lodash.size sel) m) as [Hgt | Hle].
    + eapply selectWithLimit_within_limit. eassumption.
    + injection H as <-. assumption.
  - unfold ByLimit.prepareInputs in H.
    destruct (_ <? threshold); [discriminate|].
    destruct (threshold =? 0); [discriminate|].
    destruct (match m with 0 => true | _ => false end); [discriminate|].
    destruct (selectByOptimalValue _ _ _ _) as [[sel avail]|e]; [|discriminate].
    destruct (Z.gtb_spec (Lodash.size sel) m) as [Hgt | Hle].
    + eapply selectWithLimit_within_limit. eassumption.
    + injection H as <-. assumption.
Qed.

Lemma prepareInputs_selection_within_limit_witness :
  exists s,
    ByMaxInputs.prepareInputs (poolOf [8; 1; 3; 7]) 10 (LimitNumber 2) DEFAULT_SECURITY
    = Ok s
    /\ map balance (inputs s) = [3; 7]
    /\ Lodash.size (inputs s) <= 2.
Proof.
  eexists. split; [vm_compute; reflexivity|]. split; [reflexivity|].
  apply (prepareInputs_selection_within_limit (poolOf [8; 1; 3; 7]) 10 2 DEFAULT_SECURITY).
  left. split; [lia | vm_compute; reflexivity].
Defined.

(** X6.  Every input of a selection that [prepareInputs] (either copy)
    returns is made of an entry of the address data (its address, balance
    and key index, with the security level of the call), and its balance is
    positive. *)
Theorem prepareInputs_selects_funded_entries :
  forall addressData threshold limit security s,
    ByMaxInputs.prepareInputs addressData threshold limit security = Ok s
    \/ ByLimit.prepareInputs addressData threshold limit security = Ok s ->
    forall input,
      In input (inputs s) ->
      0 < balance input
      /\ exists d, In d addressData /\ input = inputOf security d.
Proof.
  intros addressData threshold limit security s H input Hin.
  apply eligibleInputs_In.
  assert (Hpath : GreedyRun (eligibleInputs addressData security) threshold [] 0
                    (inputs s) (total s)
                  \/ exists m, selectWithLimit (eligibleInputs addressData security)
                                 threshold m = Ok s).
  { destruct H as [H | H].
    - apply ByMaxInputs_prepareInputs_Ok in H.
      destruct H as [Hrun | (m & _ & _ & Hsel)]; [left | right; exists m]; assumption.
    - apply ByLimit_prepareInputs_Ok in H.
      destruct H as [Hrun | (m & _ & _ & Hsel)]; [left | right; exists m]; assumption. }
  destruct Hpath as [Hrun | (m & Hsel)].
  - apply GreedyRun_extends in Hrun. destruct Hrun as (picked & Heq & Hpicked).
    rewrite Heq in Hin. apply Hpicked. assumption.
  - apply selectWithLimit_Ok in Hsel. destruct Hsel as ((keep & Hkeep) & _).
    rewrite Hkeep in Hin. apply filter_In in Hin. destruct Hin as [Hin _].
    eapply Subsequence_In; [apply uniqBy_balance_Subsequence | eassumption].
Qed.

Lemma prepareInputs_selects_funded_entries_witness :
  exists s input,
    ByMaxInputs.prepareInputs (poolOf [8; 0; 1; 3; 7]) 10 (LimitNumber 2) DEFAULT_SECURITY
    = Ok s
    /\ map balance (inputs s) = [3; 7]
    /\ In input (inputs s)
    /\ 0 < balance input
    /\ exists d, In d (poolOf [8; 0; 1; 3; 7]) /\ input = inputOf DEFAULT_SECURITY d.
Proof.
  assert (Hs : exists s,
             ByMaxInputs.prepareInputs (poolOf [8; 0; 1; 3; 7]) 10 (LimitNumber 2)
               DEFAULT_SECURITY = Ok s
             /\ map balance (inputs s) = [3; 7]
             /\ exists input, In input (inputs s)).
  { eexists. split; [vm_compute; reflexivity|]. split; [reflexivity|].
    eexists. left. reflexivity. }
  destruct Hs as (s & Hs & Hbalances & input & Hin).
  exists s, input. split; [exact Hs|]. split; [exact Hbalances|]. split; [exact Hin|].
  apply (prepareInputs_selects_funded_entries (poolOf [8; 0; 1; 3; 7]) 10 (LimitNumber 2)
           DEFAULT_SECURITY s); [left; exact Hs | exact Hin].
Defined.

(** X7.  For a positive threshold, a selection that [prepareInputs] (either
    copy) returns is not empty and needs its last input: the inputs before
    the last one sum to less than the threshold, so the balance returned
    exceeds the threshold by less than the balance of the last input. *)
Theorem prepareInputs_last_input_is_needed :
  forall addressData threshold limit security s,
    0 < threshold ->
    ByMaxInputs.prepareInputs addressData threshold limit security = Ok s
    \/ ByLimit.prepareInputs addressData threshold limit security = Ok s ->
    exists front last,
      inputs s = front ++ [last]
      /\ Lodash.sumBy balance front < threshold
      /\ threshold <= total s
      /\ total s = Lodash.sumBy balance front + balance last.
Proof.
  intros addressData threshold limit security s Hpos H.
  assert (Hpath : GreedyRun (eligibleInputs addressData security) threshold [] 0
                    (inputs s) (total s)
                  \/ exists m, selectWithLimit (eligibleInputs addressData security)
                                 threshold m = Ok s).
  { destruct H as [H | H].
    - apply ByMaxInputs_prepareInputs_Ok in H.
      destruct H as [Hrun | (m & _ & _ & Hsel)]; [left | right; exists m]; assumption.
    - apply ByLimit_prepareInputs_Ok in H.
      destruct H as [Hrun | (m & _ & _ & Hsel)]; [left | right; exists m]; assumption. }
  assert (Htotal : total s = Lodash.sumBy balance (inputs s) /\ threshold <= total s).
  { destruct Hpath as [Hrun | (m & Hsel)].
    - apply selection_reaches_threshold in Hrun. assumption.
    - apply selectWithLimit_Ok in Hsel. tauto. }
  assert (Hlast : exists front last,
             inputs s = front ++ [last] /\ Lodash.sumBy balance front < threshold).
  { destruct Hpath as [Hrun | (m & Hsel)].
    - eapply GreedyRun_last_needed; [eassumption | reflexivity | assumption].
    - eapply selectWithLimit_last_needed; [assumption | | eassumption].
      intros input Hin. apply eligibleInputs_In in Hin. tauto. }
  destruct Hlast as (front & last & Hfront & Hbelow).
  exists front, last. destruct Htotal as [Hsum Hreach].
  repeat split; try assumption.
  rewrite Hsum, Hfront, sumBy_snoc. reflexivity.
Qed.

Lemma prepareInputs_last_input_is_needed_witness :
  exists s front last,
    ByLimit.prepareInputs (poolOf [4; 6; 3]) 5 LimitNull DEFAULT_SECURITY = Ok s
    /\ map balance (inputs s) = [4; 3]
    /\ inputs s = front ++ [last]
    /\ Lodash.sumBy balance front < 5
    /\ 5 <= total s
    /\ total s = Lodash.sumBy balance front + balance last.
Proof.
  assert (Hs : exists s,
             ByLimit.prepareInputs (poolOf [4; 6; 3]) 5 LimitNull DEFAULT_SECURITY = Ok s
             /\ map balance (inputs s) = [4; 3])
    by (eexists; split; [vm_compute; reflexivity | reflexivity]).
  destruct Hs as (s & Hs & Hbalances).
  destruct (prepareInputs_last_input_is_needed (poolOf [4; 6; 3]) 5 LimitNull
              DEFAULT_SECURITY s) as (front & last & H); [lia | right; exact Hs |].
  exists s, front, last. tauto.
Defined.

(** ** [prepareInputs] when the greedy selection exceeds the limit *)

(** The greedy pass ends with more than [m] inputs. *)
Definition greedyExceeds (addressData : list AddressEntry) (threshold security m : Z)
  : Prop :=
  exists sel avail,
    selectByOptimalValue (eligibleInputs addressData security) threshold [] 0
    = Ok (sel, avail)
    /\ m < Lodash.size sel.

(** No combination of at most [m] of the balances reaches the threshold. *)
Definition outOfReach (m threshold : Z) (balances : list Z) : Prop :=
  forall c, Subsequence c balances -> Lodash.size c <= m -> sumOf c < threshold.

Lemma minBy_size_None (xs : list (list Z)) : Lodash.minBy_size xs = None -> xs = [].
Proof. destruct xs; [reflexivity | discriminate]. Qed.

(** How [prepareInputs] ends once the search has returned [r]. *)
Lemma prepareInputs_search_outcome addressData threshold m security r :
  0 < threshold ->
  threshold <= totalBalance addressData ->
  0 < m ->
  greedyExceeds addressData threshold security m ->
  subsetSumWithLimit m DEFAULT_MAX_CALL_TIMES (uniqueBalances addressData security)
    threshold = Some r ->
  match res_exactMatches r with
  | c :: _ =>
      exists s,
        ByMaxInputs.prepareInputs addressData threshold (LimitNumber m) security = Ok s
        /\ map balance (inputs s) = c /\ total s = threshold
  | [] =>
      match Lodash.minBy_size (res_exceeded r) with
      | Some c =>
          exists s,
            ByMaxInputs.prepareInputs addressData threshold (LimitNumber m) security = Ok s
            /\ map balance (inputs s) = c /\ total s = sumOf c /\ threshold < total s
      | None =>
          ByMaxInputs.prepareInputs addressData threshold (LimitNumber m) security
          = Throw CANNOT_FIND_INPUTS_WITH_PROVIDED_LIMIT
      end
  end.
Proof.
  intros Hpos Htotal Hm (sel & avail & Hrun & Hsize) Hr.
  destruct (prepareInputs_through_search addressData threshold m security sel avail
              Htotal Hpos Hm Hrun Hsize) as [-> _].
  unfold uniqueBalances in Hr.
  destruct (res_exactMatches r) as [|c rest] eqn:Hexact.
  - pose proof (selectWithLimit_exceeding _ _ _ _ Hr Hexact) as H.
    destruct (Lodash.minBy_size (res_exceeded r)) as [c|]; [|assumption].
    destruct H as (Heq & Hmap & _ & Hgt).
    eexists. split; [exact Heq|]. cbn [inputs total]. repeat split; assumption.
  - destruct (selectWithLimit_exact _ _ _ _ Hr c rest Hexact) as (Heq & Hmap & _).
    eexists. split; [exact Heq|]. cbn [inputs total]. split; [assumption | reflexivity].
Qed.

Lemma greedyExceeds_search addressData threshold m security :
  0 < threshold ->
  greedyExceeds addressData threshold security m ->
  exists r,
    subsetSumWithLimit m DEFAULT_MAX_CALL_TIMES (uniqueBalances addressData security)
      threshold = Some r.
Proof.
  intros Hpos (sel & avail & Hrun & _).
  apply outermost_call_returns_record; [|assumption].
  eapply greedy_selection_nonempty; eassumption.
Qed.

Lemma uniqueBalances_nonneg addressData security b :
  In b (uniqueBalances addressData security) -> 0 <= b.
Proof. intros Hb. apply uniqueBalances_positive in Hb. lia. Qed.

(** [prepareInputs] fails for want of inputs within the limit exactly when
    the greedy selection exceeds the limit and nothing within the limit
    reaches the threshold. *)
Lemma ByMaxInputs_cannot_find_iff addressData threshold m security :
  0 < threshold ->
  threshold <= totalBalance addressData ->
  0 < m ->
  (ByMaxInputs.prepareInputs addressData threshold (LimitNumber m) security
   = Throw CANNOT_FIND_INPUTS_WITH_PROVIDED_LIMIT
   <-> greedyExceeds addressData threshold security m
       /\ outOfReach m threshold (uniqueBalances addressData security)).
Proof.
  intros Hpos Htotal Hm. split.
  - intros Hthrow.
    assert (Hexceeds : greedyExceeds addressData threshold security m).
    { destruct (selectByOptimalValue (eligibleInputs addressData security) threshold [] 0)
        as [[sel avail]|e] eqn:Hrun.
      - exists sel, avail. split; [exact Hrun|].
        rewrite (ByMaxInputs_prepareInputs_after_loop _ _ _ _ sel avail) in Hthrow;
          [|lia|lia|assumption].
        destruct (Z.gtb_spec (Lodash.size sel) m) as [Hgt | Hle]; [assumption|].
        rewrite andb_false_r in Hthrow. discriminate.
      - unfold ByMaxInputs.prepareInputs in Hthrow.
        replace (totalBalance addressData <? threshold) with false in Hthrow
          by (symmetry; apply Z.ltb_ge; assumption).
        replace (threshold =? 0) with false in Hthrow
          by (symmetry; apply Z.eqb_neq; lia).
        cbv zeta in Hthrow. rewrite Hrun in Hthrow.
        apply selectByOptimalValue_Throw in Hrun. subst e. discriminate. }
    split; [assumption|].
    destruct (greedyExceeds_search _ _ _ _ Hpos Hexceeds) as (r & Hr).
    pose proof (prepareInputs_search_outcome _ _ _ _ r Hpos Htotal Hm Hexceeds Hr) as Hout.
    destruct (res_exactMatches r) as [|c0 rest] eqn:Hexact;
      [|destruct Hout as (s & Hs & _); congruence].
    destruct (Lodash.minBy_size (res_exceeded r)) as [c0|] eqn:Hmin;
      [destruct Hout as (s & Hs & _); congruence|].
    apply minBy_size_None in Hmin.
    intros c Hsub Hsize.
    destruct (Z_lt_le_dec (sumOf c) threshold) as [Hlt | Hge]; [assumption|].
    exfalso.
    destruct (reaching_combination_recorded m DEFAULT_MAX_CALL_TIMES
                (uniqueBalances addressData security) threshold r c)
      as [Hfound | (c' & Hin & _)].
    + apply uniqueBalances_nonneg.
    + assumption.
    + assumption.
    + repeat split; assumption.
    + congruence.
    + rewrite Hmin in Hin. contradiction.
  - intros [Hexceeds Hnone].
    destruct (greedyExceeds_search _ _ _ _ Hpos Hexceeds) as (r & Hr).
    pose proof (prepareInputs_search_outcome _ _ _ _ r Hpos Htotal Hm Hexceeds Hr) as Hout.
    destruct (subsetSumWithLimit_sound _ _ _ _ _ Hr) as [Hsound_exact Hsound_over].
    destruct (res_exactMatches r) as [|c0 rest] eqn:Hexact.
    + destruct (Lodash.minBy_size (res_exceeded r)) as [c0|] eqn:Hmin; [|assumption].
      exfalso. destruct (minBy_size_spec _ _ Hmin) as [Hin _].
      destruct (Hsound_over c0 Hin) as [Hsub (Hsum & Hsize & _)].
      pose proof (Hnone c0 Hsub Hsize). lia.
    + exfalso. destruct (Hsound_exact c0 (or_introl eq_refl)) as [Hsub [Hsum Hsize]].
      pose proof (Hnone c0 Hsub Hsize). lia.
Qed.

(** X8.  For a positive threshold that the total balance reaches and a
    positive limit [m], [prepareInputs] (either copy) throws
    CANNOT_FIND_INPUTS_WITH_PROVIDED_LIMIT exactly when the greedy pass
    selects more than [m] inputs and no combination of at most [m] of the
    distinct positive balances of the address data reaches the threshold. *)
Theorem prepareInputs_cannot_find_iff_out_of_reach :
  forall addressData threshold m security,
    0 < threshold ->
    threshold <= totalBalance addressData ->
    0 < m ->
    (ByMaxInputs.prepareInputs addressData threshold (LimitNumber m) security
     = Throw CANNOT_FIND_INPUTS_WITH_PROVIDED_LIMIT
     <-> greedyExceeds addressData threshold security m
         /\ outOfReach m threshold (uniqueBalances addressData security))
    /\ (ByLimit.prepareInputs addressData threshold (LimitNumber m) security
        = Throw CANNOT_FIND_INPUTS_WITH_PROVIDED_LIMIT
        <-> greedyExceeds addressData threshold security m
            /\ outOfReach m threshold (uniqueBalances addressData security)).
Proof.
  intros addressData threshold m security Hpos Htotal Hm.
  rewrite <- (prepareInputs_copies_agree addressData threshold m security Hm).
  split; apply ByMaxInputs_cannot_find_iff; assumption.
Qed.

Lemma prepareInputs_cannot_find_iff_out_of_reach_witness :
  ByLimit.prepareInputs (poolOf [7; 8; 5; 5]) 10 (LimitNumber 1) DEFAULT_SECURITY
  = Throw CANNOT_FIND_INPUTS_WITH_PROVIDED_LIMIT
  /\ greedyExceeds (poolOf [7; 8; 5; 5]) 10 DEFAULT_SECURITY 1
  /\ outOfReach 1 10 (uniqueBalances (poolOf [7; 8; 5; 5]) DEFAULT_SECURITY).
Proof.
  assert (Hthrow : ByLimit.prepareInputs (poolOf [7; 8; 5; 5]) 10 (LimitNumber 1)
                     DEFAULT_SECURITY
                   = Throw CANNOT_FIND_INPUTS_WITH_PROVIDED_LIMIT)
    by (vm_compute; reflexivity).
  split; [exact Hthrow|].
  assert (Hpos : 0 < 10) by lia.
  assert (Htotal : 10 <= totalBalance (poolOf [7; 8; 5; 5])) by (vm_compute; discriminate).
  assert (Hm : 0 < 1) by lia.
  destruct (prepareInputs_cannot_find_iff_out_of_reach (poolOf [7; 8; 5; 5]) 10 1
              DEFAULT_SECURITY Hpos Htotal Hm) as [_ [Honly _]].
  exact (Honly Hthrow).
Defined.

(** X9.  When the greedy pass selects more than the positive limit [m],
    [prepareInputs] (either copy) returns a selection whose balance is
    exactly the threshold if and only if some combination of at most [m] of
    the distinct positive balances sums to the threshold. *)
Theorem prepareInputs_exact_selection_iff_exact_combination :
  forall addressData threshold m security,
    0 < threshold ->
    threshold <= totalBalance addressData ->
    0 < m ->
    greedyExceeds addressData threshold security m ->
    ((exists s,
         ByMaxInputs.prepareInputs addressData threshold (LimitNumber m) security = Ok s
         /\ ByLimit.prepareInputs addressData threshold (LimitNumber m) security = Ok s
         /\ total s = threshold)
     <-> exists c,
           Subsequence c (uniqueBalances addressData security)
           /\ sumOf c = threshold /\ Lodash.size c <= m).
Proof.
  intros addressData threshold m security Hpos Htotal Hm Hexceeds.
  rewrite <- (prepareInputs_copies_agree addressData threshold m security Hm).
  destruct (greedyExceeds_search _ _ _ _ Hpos Hexceeds) as (r & Hr).
  pose proof (prepareInputs_search_outcome _ _ _ _ r Hpos Htotal Hm Hexceeds Hr) as Hout.
  destruct (subsetSumWithLimit_sound _ _ _ _ _ Hr) as [Hsound_exact _].
  split.
  - intros (s & Hs & _ & Hbalance).
    destruct (res_exactMatches r) as [|c0 rest] eqn:Hexact.
    + exfalso. destruct (Lodash.minBy_size (res_exceeded r)) as [c0|].
      * destruct Hout as (s' & Hs' & _ & _ & Hgt).
        rewrite Hs in Hs'. injection Hs' as <-. lia.
      * congruence.
    + exists c0. destruct (Hsound_exact c0 (or_introl eq_refl)) as [Hsub [Hsum Hsize]].
      repeat split; assumption.
  - intros (c & Hsub & Hsum & Hsize).
    destruct (res_exactMatches r) as [|c0 rest] eqn:Hexact.
    + exfalso.
      destruct (subsetSumWithLimit_complete m DEFAULT_MAX_CALL_TIMES
                  (uniqueBalances addressData security) threshold r
                  (uniqueBalances_nonneg addressData security) Hr Hexact c Hsub)
        as [Hnot _].
      apply Hnot. split; assumption.
    + destruct Hout as (s & Hs & _ & Hbalance). exists s. repeat split; assumption.
Qed.

Lemma prepareInputs_exact_selection_iff_exact_combination_witness :
  greedyExceeds (poolOf [8; 1; 3; 7]) 10 DEFAULT_SECURITY 2
  /\ exists s,
       ByMaxInputs.prepareInputs (poolOf [8; 1; 3; 7]) 10 (LimitNumber 2) DEFAULT_SECURITY
       = Ok s
       /\ ByLimit.prepareInputs (poolOf [8; 1; 3; 7]) 10 (LimitNumber 2) DEFAULT_SECURITY
          = Ok s
       /\ total s = 10.
Proof.
  assert (Hexceeds : greedyExceeds (poolOf [8; 1; 3; 7]) 10 DEFAULT_SECURITY 2).
  { eexists. eexists. split; [vm_compute; reflexivity|]. vm_compute. reflexivity. }
  split; [exact Hexceeds|].
  assert (Hpos : 0 < 10) by lia.
  assert (Htotal : 10 <= totalBalance (poolOf [8; 1; 3; 7])) by (vm_compute; discriminate).
  assert (Hm : 0 < 2) by lia.
  apply (prepareInputs_exact_selection_iff_exact_combination (poolOf [8; 1; 3; 7]) 10 2
           DEFAULT_SECURITY Hpos Htotal Hm Hexceeds).
  exists [3; 7]. split; [|split; [reflexivity | vm_compute; discriminate]].
  change (uniqueBalances (poolOf [8; 1; 3; 7]) DEFAULT_SECURITY) with [8; 1; 3; 7].
  apply sub_skip, sub_skip, Subsequence_refl.
Defined.

(** X10.  When the greedy pass selects more than the positive limit [m] and
    [prepareInputs] (either copy) returns a selection whose balance exceeds
    the threshold, no combination of the distinct positive balances that
    reaches the threshold has fewer elements than the selection has
    inputs. *)
Theorem prepareInputs_exceeding_selection_has_fewest_inputs :
  forall addressData threshold m security s,
    0 < threshold ->
    threshold <= totalBalance addressData ->
    0 < m ->
    greedyExceeds addressData threshold security m ->
    ByMaxInputs.prepareInputs addressData threshold (LimitNumber m) security = Ok s
    \/ ByLimit.prepareInputs addressData threshold (LimitNumber m) security = Ok s ->
    threshold < total s ->
    forall c,
      Subsequence c (uniqueBalances addressData security) ->
      threshold <= sumOf c ->
      Lodash.size (inputs s) <= Lodash.size c.
Proof.
  intros addressData threshold m security s Hpos Htotal Hm Hexceeds Hs Hover c Hsub Hsum.
  rewrite <- (prepareInputs_copies_agree addressData threshold m security Hm) in Hs.
  assert (Hs' : ByMaxInputs.prepareInputs addressData threshold (LimitNumber m) security
                = Ok s) by tauto.
  clear Hs.
  destruct (greedyExceeds_search _ _ _ _ Hpos Hexceeds) as (r & Hr).
  pose proof (prepareInputs_search_outcome _ _ _ _ r Hpos Htotal Hm Hexceeds Hr) as Hout.
  destruct (subsetSumWithLimit_sound _ _ _ _ _ Hr) as [_ Hsound_over].
  destruct (res_exactMatches r) as [|c0 rest] eqn:Hexact.
  - destruct (Lodash.minBy_size (res_exceeded r)) as [c0|] eqn:Hmin; [|congruence].
    destruct Hout as (s0 & Hs0 & Hmap & _).
    rewrite Hs' in Hs0. injection Hs0 as <-.
    rewrite <- (size_map balance), Hmap.
    destruct (minBy_size_spec _ _ Hmin) as [Hin Hleast].
    destruct (Hsound_over c0 Hin) as [_ (_ & Hsize0 & _)].
    destruct (Z_le_gt_dec (Lodash.size c) m) as [Hsize | Hsize]; [|lia].
    destruct (reaching_combination_recorded m DEFAULT_MAX_CALL_TIMES
                (uniqueBalances addressData security) threshold r c
                (uniqueBalances_nonneg addressData security) Hpos Hr)
      as [Hfound | (c' & Hin' & Hshort)].
    + repeat split; assumption.
    + congruence.
    + specialize (Hleast c' Hin'). lia.
  - destruct Hout as (s0 & Hs0 & _ & Hbalance).
    rewrite Hs' in Hs0. injection Hs0 as <-. lia.
Qed.

Lemma prepareInputs_exceeding_selection_has_fewest_inputs_witness :
  exists s,
    ByMaxInputs.prepareInputs (poolOf [4; 6; 3]) 5 (LimitNumber 1) DEFAULT_SECURITY = Ok s
    /\ map balance (inputs s) = [6]
    /\ Lodash.size (inputs s) <= Lodash.size [4; 3].
Proof.
  assert (Hs : exists s,
             ByMaxInputs.prepareInputs (poolOf [4; 6; 3]) 5 (LimitNumber 1)
               DEFAULT_SECURITY = Ok s
             /\ map balance (inputs s) = [6] /\ 5 < total s)
    by (eexists; split; [vm_compute; reflexivity | split; reflexivity]).
  destruct Hs as (s & Hs & Hbalances & Hover).
  exists s. split; [exact Hs|]. split; [exact Hbalances|].
  apply (prepareInputs_exceeding_selection_has_fewest_inputs (poolOf [4; 6; 3]) 5 1
           DEFAULT_SECURITY s).
  - lia.
  - vm_compute. discriminate.
  - lia.
  - eexists. eexists. split; [vm_compute; reflexivity|]. vm_compute. reflexivity.
  - left. exact Hs.
  - exact Hover.
  - change (uniqueBalances (poolOf [4; 6; 3]) DEFAULT_SECURITY) with [4; 6; 3].
    apply sub_take, sub_skip, Subsequence_refl.
  - vm_compute. discriminate.
Defined.

(** ** An entry whose balance is the threshold *)

Lemma eligibleInputs_app a b security :
  eligibleInputs (a ++ b) security = eligibleInputs a security ++ eligibleInputs b security.
Proof.
  unfold eligibleInputs, transformAddressDataToInputs. rewrite map_app, filter_app.
  reflexivity.
Qed.

Lemma eligibleInputs_cons d rest security :
  0 < entry_balance d ->
  eligibleInputs (d :: rest) security = inputOf security d :: eligibleInputs rest security.
Proof.
  intros Hpos. unfold eligibleInputs, transformAddressDataToInputs.
  cbn [map filter balance].
  replace (entry_balance d >? 0) with true by (symmetry; apply Z.gtb_lt; assumption).
  reflexivity.
Qed.

(** The loop of [prepareInputs] selects the first entry whose balance is the
    threshold, and nothing else. *)
Lemma greedy_pass_takes_exact_entry before d after threshold security :
  0 < threshold ->
  entry_balance d = threshold ->
  (forall d', In d' before -> entry_balance d' <> threshold) ->
  selectByOptimalValue (eligibleInputs (before ++ d :: after) security) threshold [] 0
  = Ok ([inputOf security d], threshold).
Proof.
  intros Hpos Hd Hbefore.
  transitivity (Ok (A:=list Input * Z)
                  ([inputOf security d], 0 + balance (inputOf security d)));
    [|unfold inputOf; cbn [balance]; rewrite Hd; reflexivity].
  apply GreedyRun_complete.
  apply (run_pick _ _ [] 0 (inputOf security d)); [assumption | |].
  - rewrite differenceBy_nil, eligibleInputs_app, eligibleInputs_cons by lia.
    exists (eligibleInputs before security), (eligibleInputs after security).
    split; [reflexivity|].
    assert (Hzero : optimalDistance (threshold - 0) (inputOf security d) = 0).
    { unfold optimalDistance, inputOf. cbn [balance]. rewrite Hd. lia. }
    rewrite Hzero. split.
    + intros y Hy. apply eligibleInputs_In in Hy. destruct Hy as [_ (d' & Hd' & ->)].
      specialize (Hbefore d' Hd'). unfold optimalDistance, inputOf. cbn [balance]. lia.
    + intros y _. unfold optimalDistance. lia.
  - cbn [app]. apply run_stop. unfold inputOf. cbn [balance]. lia.
Qed.

(** X11.  When an entry of the address data holds exactly the (positive)
    threshold, [prepareInputs] returns the first such entry as its only
    input, with the threshold as balance: in the first copy for every
    numeric limit, in the second copy for every limit that is not a number
    below 1.  The total balance is assumed to reach the threshold, as it
    does when no balance is negative. *)
Theorem prepareInputs_takes_the_entry_of_exact_balance :
  forall before d after threshold security,
    0 < threshold ->
    entry_balance d = threshold ->
    (forall d', In d' before -> entry_balance d' <> threshold) ->
    threshold <= totalBalance (before ++ d :: after) ->
    (forall m,
        ByMaxInputs.prepareInputs (before ++ d :: after) threshold (LimitNumber m) security
        = Ok (mkSelection [inputOf security d] threshold))
    /\ (forall limit,
           (forall m, limit = LimitNumber m -> 0 < m) ->
           ByLimit.prepareInputs (before ++ d :: after) threshold limit security
           = Ok (mkSelection [inputOf security d] threshold)).
Proof.
  intros before d after threshold security Hpos Hd Hbefore Htotal.
  pose proof (greedy_pass_takes_exact_entry before d after threshold security
                Hpos Hd Hbefore) as Hrun.
  split.
  - intros m.
    rewrite (ByMaxInputs_prepareInputs_after_loop _ _ _ _ _ _ Htotal
               (not_eq_sym (Z.lt_neq _ _ Hpos)) Hrun).
    destruct (Z.gtb_spec m 0) as [Hm | Hm]; cbn [andb]; [|reflexivity].
    replace (Lodash.size [inputOf security d] >? m) with false; [reflexivity|].
    symmetry. rewrite Z.gtb_ltb. apply Z.ltb_ge. change (1 <= m). lia.
  - intros limit Hlimit. destruct limit as [m| |].
    + specialize (Hlimit m eq_refl).
      rewrite (ByLimit_prepareInputs_after_loop _ _ _ _ _ _ Htotal
                 (not_eq_sym (Z.lt_neq _ _ Hpos))
                 (not_eq_sym (Z.lt_neq _ _ Hlimit)) Hrun).
      replace (Lodash.size [inputOf security d] >? m) with false; [reflexivity|].
      symmetry. rewrite Z.gtb_ltb. apply Z.ltb_ge. change (1 <= m). lia.
    + unfold ByLimit.prepareInputs.
      replace (totalBalance (before ++ d :: after) <? threshold) with false
        by (symmetry; apply Z.ltb_ge; assumption).
      replace (threshold =? 0) with false by (symmetry; apply Z.eqb_neq; lia).
      cbv zeta. rewrite Hrun. reflexivity.
    + unfold ByLimit.prepareInputs.
      replace (totalBalance (before ++ d :: after) <? threshold) with false
        by (symmetry; apply Z.ltb_ge; assumption).
      replace (threshold =? 0) with false by (symmetry; apply Z.eqb_neq; lia).
      cbv zeta. rewrite Hrun. reflexivity.
Qed.

Lemma prepareInputs_takes_the_entry_of_exact_balance_witness :
  ByMaxInputs.prepareInputs
    ([mkAddressEntry "A" 0 9 false false; mkAddressEntry "B" 1 2 false false]
       ++ mkAddressEntry "C" 2 5 false false :: [mkAddressEntry "D" 3 5 false false])
    5 (LimitNumber 1) DEFAULT_SECURITY
  = Ok (mkSelection [inputOf DEFAULT_SECURITY (mkAddressEntry "C" 2 5 false false)] 5).
Proof.
  assert (Hbefore : forall d',
             In d' [mkAddressEntry "A" 0 9 false false; mkAddressEntry "B" 1 2 false false] ->
             entry_balance d' <> 5).
  { intros d' [<- | [<- | []]]; cbn [entry_balance]; lia. }
  assert (Hpos : 0 < 5) by lia.
  assert (Htotal :
            5 <= totalBalance
                   ([mkAddressEntry "A" 0 9 false false; mkAddressEntry "B" 1 2 false false]
                      ++ mkAddressEntry "C" 2 5 false false
                      :: [mkAddressEntry "D" 3 5 false false]))
    by (vm_compute; discriminate).
  destruct (prepareInputs_takes_the_entry_of_exact_balance
              [mkAddressEntry "A" 0 9 false false; mkAddressEntry "B" 1 2 false false]
              (mkAddressEntry "C" 2 5 false false)
              [mkAddressEntry "D" 3 5 false false]
              5 DEFAULT_SECURITY Hpos eq_refl Hbefore Htotal) as [Hfirst _].
  exact (Hfirst 1).
Defined.

(** ** The outcomes of [prepareInputs] on well-formed address data *)

Lemma selectWithLimit_Ok_or_cannot_find pool threshold limit :
  map balance (Lodash.uniqBy_balance pool) <> [] ->
  0 < threshold ->
  (exists s, selectWithLimit pool threshold limit = Ok s)
  \/ selectWithLimit pool threshold limit = Throw CANNOT_FIND_INPUTS_WITH_PROVIDED_LIMIT.
Proof.
  intros Hne Hpos.
  destruct (selectWithLimit pool threshold limit) as [s|e] eqn:Hsel; [left; eauto|].
  right. destruct (selectWithLimit_Throw _ _ _ _ Hsel) as [-> | ->]; [|reflexivity].
  exfalso. eapply selectWithLimit_destructures; eassumption.
Qed.

(** X12.  On address data with pairwise distinct addresses, for a positive
    threshold that the total balance reaches, [prepareInputs] has two
    outcomes only: it returns a selection, or it throws
    CANNOT_FIND_INPUTS_WITH_PROVIDED_LIMIT.  This holds in the first copy for
    every numeric limit and in the second copy for every limit but 0. *)
Theorem prepareInputs_returns_or_cannot_find :
  forall addressData threshold security,
    NoDup (map entry_address addressData) ->
    0 < threshold ->
    threshold <= totalBalance addressData ->
    (forall m,
        (exists s,
            ByMaxInputs.prepareInputs addressData threshold (LimitNumber m) security = Ok s)
        \/ ByMaxInputs.prepareInputs addressData threshold (LimitNumber m) security
           = Throw CANNOT_FIND_INPUTS_WITH_PROVIDED_LIMIT)
    /\ (forall limit,
           limit <> LimitNumber 0 ->
           (exists s, ByLimit.prepareInputs addressData threshold limit security = Ok s)
           \/ ByLimit.prepareInputs addressData threshold limit security
              = Throw CANNOT_FIND_INPUTS_WITH_PROVIDED_LIMIT).
Proof.
  intros addressData threshold security Hnd Hpos Htotal.
  destruct (greedy_pass_succeeds addressData security threshold Hnd Htotal)
    as (sel & avail & Hrun).
  destruct (greedy_selection_nonempty _ _ _ _ Hrun Hpos) as [_ Hne].
  split.
  - intros m.
    rewrite (ByMaxInputs_prepareInputs_after_loop _ _ _ _ _ _ Htotal
               (not_eq_sym (Z.lt_neq _ _ Hpos)) Hrun).
    destruct (_ && _); [|left; eauto].
    apply selectWithLimit_Ok_or_cannot_find; assumption.
  - intros limit Hlimit. destruct limit as [m| |].
    + assert (Hm : m <> 0) by congruence.
      rewrite (ByLimit_prepareInputs_after_loop _ _ _ _ _ _ Htotal
                 (not_eq_sym (Z.lt_neq _ _ Hpos)) Hm Hrun).
      destruct (_ >? m); [|left; eauto].
      apply selectWithLimit_Ok_or_cannot_find; assumption.
    + destruct (ByLimit_prepareInputs_unlimited addressData threshold security
                  Hnd Hpos Htotal) as (s & Hs & _).
      left. eauto.
    + left. unfold ByLimit.prepareInputs.
      replace (totalBalance addressData <? threshold) with false
        by (symmetry; apply Z.ltb_ge; assumption).
      replace (threshold =? 0) with false by (symmetry; apply Z.eqb_neq; lia).
      cbv zeta. rewrite Hrun. eauto.
Qed.

Lemma prepareInputs_returns_or_cannot_find_witness :
  (exists s,
      ByLimit.prepareInputs (poolOf [8; 1; 3; 7]) 10 (LimitNumber 1) DEFAULT_SECURITY = Ok s)
  \/ ByLimit.prepareInputs (poolOf [8; 1; 3; 7]) 10 (LimitNumber 1) DEFAULT_SECURITY
     = Throw CANNOT_FIND_INPUTS_WITH_PROVIDED_LIMIT.
Proof.
  assert (Hpos : 0 < 10) by lia.
  assert (Htotal : 10 <= totalBalance (poolOf [8; 1; 3; 7])) by (vm_compute; discriminate).
  destruct (prepareInputs_returns_or_cannot_find (poolOf [8; 1; 3; 7]) 10 DEFAULT_SECURITY
              poolOf_8_1_3_7_NoDup Hpos Htotal) as [_ Hlimit].
  apply (Hlimit (LimitNumber 1)). discriminate.
Defined.

(** X13.  A negative limit: the first copy of [prepareInputs] ignores it and
    returns what it returns without a limit, while the second copy enters
    the search with it and, on address data with pairwise distinct
    addresses whose total balance reaches the positive threshold, always
    throws CANNOT_FIND_INPUTS_WITH_PROVIDED_LIMIT. *)
Theorem prepareInputs_negative_limit :
  forall addressData threshold m security,
    m < 0 ->
    ByMaxInputs.prepareInputs addressData threshold (LimitNumber m) security
    = ByMaxInputs.prepareInputs addressData threshold (LimitNumber 0) security
    /\ (NoDup (map entry_address addressData) ->
        0 < threshold ->
        threshold <= totalBalance addressData ->
        ByLimit.prepareInputs addressData threshold (LimitNumber m) security
        = Throw CANNOT_FIND_INPUTS_WITH_PROVIDED_LIMIT).
Proof.
  intros addressData threshold m security Hm. split.
  - unfold ByMaxInputs.prepareInputs.
    replace (m >? 0) with false by (symmetry; rewrite Z.gtb_ltb; apply Z.ltb_ge; lia).
    reflexivity.
  - intros Hnd Hpos Htotal.
    destruct (greedy_pass_succeeds addressData security threshold Hnd Htotal)
      as (sel & avail & Hrun).
    destruct (greedy_selection_nonempty _ _ _ _ Hrun Hpos) as [_ Hne].
    rewrite (ByLimit_prepareInputs_after_loop _ _ _ _ _ _ Htotal
               (not_eq_sym (Z.lt_neq _ _ Hpos)) (Z.lt_neq _ _ Hm) Hrun).
    replace (Lodash.size sel >? m) with true
      by (symmetry; apply Z.gtb_lt; pose proof (size_nonneg sel); lia).
    destruct (selectWithLimit_Ok_or_cannot_find
                (eligibleInputs addressData security) threshold m Hne Hpos)
      as [(s & Hs) | Hthrow]; [|assumption].
    exfalso. apply selectWithLimit_within_limit in Hs.
    pose proof (size_nonneg (inputs s)). lia.
Qed.

Lemma prepareInputs_negative_limit_witness :
  balancesOf (ByMaxInputs.prepareInputs (poolOf [8; 1; 3; 7]) 10 (LimitNumber (-1))
                DEFAULT_SECURITY) = Ok ([8; 1; 3], 12)
  /\ ByLimit.prepareInputs (poolOf [8; 1; 3; 7]) 10 (LimitNumber (-1)) DEFAULT_SECURITY
     = Throw CANNOT_FIND_INPUTS_WITH_PROVIDED_LIMIT.
Proof.
  assert (Hm : -1 < 0) by lia.
  destruct (prepareInputs_negative_limit (poolOf [8; 1; 3; 7]) 10 (-1) DEFAULT_SECURITY Hm)
    as [Hfirst Hsecond].
  split.
  - rewrite Hfirst. vm_compute. reflexivity.
  - apply Hsecond; [exact poolOf_8_1_3_7_NoDup | lia | vm_compute; discriminate].
Defined.

(** ** [sortInputsByOptimalValue] *)

(** X14.  [sortInputsByOptimalValue] rearranges the inputs without dropping
    or repeating any, in the order of their distance [|diff - balance|] to
    [diff], and inputs at the same distance keep the order they had. *)
Theorem sortInputsByOptimalValue_is_a_stable_sort :
  forall pool diff,
    Permutation (sortInputsByOptimalValue pool diff) pool
    /\ Sorted (closerOrEqual diff) (sortInputsByOptimalValue pool diff)
    /\ (forall k,
           filter (atDistance diff k) (sortInputsByOptimalValue pool diff)
           = filter (atDistance diff k) pool).
Proof.
  intros pool diff. split; [|split].
  - apply sortInputsByOptimalValue_Permutation.
  - apply sortInputsByOptimalValue_Sorted.
  - intros k. apply sortInputsByOptimalValue_stable.
Qed.

(** ** [getInputs] *)

(** The stages of [getInputs], in the order of a call that goes through. *)
Definition everyStage : list Stage :=
  [NonFundedStage; IncomingStage; OutgoingStage; SpentStage; SelectionStage].

Ltac split_promise :=
  repeat match goal with
    | |- context [if ?c then _ else _] => destruct c eqn:?
    | |- context [match ?x with Ok _ => _ | Throw _ => _ end] => destruct x eqn:?
    end;
  cbn [app fst snd].

Lemma ByMaxInputs_getInputs_resolved
  (Provider Transaction : Type) (transferValue : Transaction -> Z)
  (filterNonFunded : Provider -> list Transaction -> list AddressEntry ->
                     Result (list Transaction))
  (omitIncoming filterOutgoing : list AddressEntry -> list Transaction -> list AddressEntry)
  (pickUnspent : Provider -> list AddressEntry -> list Transaction ->
                 Result (list AddressEntry))
  provider addressData transactions threshold maxInputs stages s :
  ByMaxInputs.getInputs Provider Transaction transferValue filterNonFunded
    omitIncoming filterOutgoing pickUnspent
    provider addressData transactions threshold maxInputs = (stages, Ok s) ->
  stages = everyStage
  /\ exists pending unspent,
       filterNonFunded provider
         (filter (fun tx => negb (transferValue tx =? 0)) transactions) addressData
       = Ok pending
       /\ pickUnspent provider
            (filterOutgoing (omitIncoming addressData pending) transactions) transactions
          = Ok unspent
       /\ threshold <= totalBalance unspent
       /\ ByMaxInputs.prepareInputs unspent threshold maxInputs DEFAULT_SECURITY = Ok s.
Proof.
  unfold ByMaxInputs.getInputs, andThen, run, reject.
  split_promise; intros H; try discriminate.
  injection H as <- Hs. split; [reflexivity|].
  eexists. eexists. split; [reflexivity|]. split; [eassumption|].
  split; [apply Z.ltb_ge; assumption | assumption].
Qed.

Lemma ByLimit_getInputs_resolved
  (Provider Transaction : Type)
  (constructBundles : list Transaction -> list (list Transaction))
  (filterNonFunded : Provider -> list (list Transaction) -> Result (list (list Transaction)))
  (filterIncoming filterOutgoing : list AddressEntry -> list Transaction -> list AddressEntry)
  (filterSpent : Provider -> list AddressEntry -> list Transaction ->
                 Result (list AddressEntry))
  provider addressData transactions threshold maxInputs stages s :
  ByLimit.getInputs Provider Transaction constructBundles filterNonFunded
    filterIncoming filterOutgoing filterSpent
    provider addressData transactions threshold maxInputs = (stages, Ok s) ->
  stages = everyStage
  /\ exists funded unspent,
       filterNonFunded provider (constructBundles transactions) = Ok funded
       /\ filterSpent provider
            (filterOutgoing (filterIncoming addressData (concat funded)) transactions)
            transactions
          = Ok unspent
       /\ threshold <= totalBalance unspent
       /\ ByLimit.prepareInputs unspent threshold maxInputs DEFAULT_SECURITY = Ok s.
Proof.
  unfold ByLimit.getInputs, andThen, run, reject.
  split_promise; intros H; try discriminate.
  injection H as <- Hs. split; [reflexivity|].
  eexists. eexists. split; [reflexivity|]. split; [eassumption|].
  split; [apply Z.ltb_ge; assumption | assumption].
Qed.

Lemma prepareInputs_Ok_reaches_threshold addressData threshold limit security s :
  ByMaxInputs.prepareInputs addressData threshold limit security = Ok s
  \/ ByLimit.prepareInputs addressData threshold limit security = Ok s ->
  total s = Lodash.sumBy balance (inputs s) /\ threshold <= total s /\ threshold <> 0.
Proof.
  intros H.
  assert (Hne : threshold <> 0).
  { destruct H as [H | H];
      [unfold ByMaxInputs.prepareInputs in H | unfold ByLimit.prepareInputs in H];
      destruct (_ <? threshold); try discriminate;
      destruct (Z.eqb_spec threshold 0); try discriminate; assumption. }
  assert (Hpath : GreedyRun (eligibleInputs addressData security) threshold [] 0
                    (inputs s) (total s)
                  \/ exists m, selectWithLimit (eligibleInputs addressData security)
                                 threshold m = Ok s).
  { destruct H as [H | H].
    - apply ByMaxInputs_prepareInputs_Ok in H.
      destruct H as [Hrun | (m & _ & _ & Hsel)]; [left | right; exists m]; assumption.
    - apply ByLimit_prepareInputs_Ok in H.
      destruct H as [Hrun | (m & _ & _ & Hsel)]; [left | right; exists m]; assumption. }
  destruct Hpath as [Hrun | (m & Hsel)].
  - apply selection_reaches_threshold in Hrun. tauto.
  - apply selectWithLimit_Ok in Hsel. tauto.
Qed.

(** X15.  When [getInputs] (either copy) resolves, every stage has run, once
    and in order: the filter of non-funded transactions, the three filters of
    the address data, and [prepareInputs].  The selection it resolves with is
    the one [prepareInputs] makes from the address data that the filter of
    spent addresses has let through; these hold at least the threshold, the
    threshold is not 0, and the balance of the selection is the sum of its
    inputs and reaches the threshold. *)
Theorem getInputs_resolves_after_every_stage :
  (forall (Provider Transaction : Type) (transferValue : Transaction -> Z)
          (filterNonFunded : Provider -> list Transaction -> list AddressEntry ->
                             Result (list Transaction))
          (omitIncoming filterOutgoing :
             list AddressEntry -> list Transaction -> list AddressEntry)
          (pickUnspent : Provider -> list AddressEntry -> list Transaction ->
                         Result (list AddressEntry))
          provider addressData transactions threshold maxInputs stages s,
      ByMaxInputs.getInputs Provider Transaction transferValue filterNonFunded
        omitIncoming filterOutgoing pickUnspent
        provider addressData transactions threshold maxInputs = (stages, Ok s) ->
      stages = everyStage
      /\ threshold <> 0
      /\ threshold <= total s
      /\ total s = Lodash.sumBy balance (inputs s)
      /\ exists pending unspent,
           filterNonFunded provider
             (filter (fun tx => negb (transferValue tx =? 0)) transactions) addressData
           = Ok pending
           /\ pickUnspent provider
                (filterOutgoing (omitIncoming addressData pending) transactions)
                transactions
              = Ok unspent
           /\ threshold <= totalBalance unspent
           /\ ByMaxInputs.prepareInputs unspent threshold maxInputs DEFAULT_SECURITY
              = Ok s)
  /\ (forall (Provider Transaction : Type)
             (constructBundles : list Transaction -> list (list Transaction))
             (filterNonFunded : Provider -> list (list Transaction) ->
                                Result (list (list Transaction)))
             (filterIncoming filterOutgoing :
                list AddressEntry -> list Transaction -> list AddressEntry)
             (filterSpent : Provider -> list AddressEntry -> list Transaction ->
                            Result (list AddressEntry))
             provider addressData transactions threshold maxInputs stages s,
         ByLimit.getInputs Provider Transaction constructBundles filterNonFunded
           filterIncoming filterOutgoing filterSpent
           provider addressData transactions threshold maxInputs = (stages, Ok s) ->
         stages = everyStage
         /\ threshold <> 0
         /\ threshold <= total s
         /\ total s = Lodash.sumBy balance (inputs s)
         /\ exists funded unspent,
              filterNonFunded provider (constructBundles transactions) = Ok funded
              /\ filterSpent provider
                   (filterOutgoing (filterIncoming addressData (concat funded))
                      transactions)
                   transactions
                 = Ok unspent
              /\ threshold <= totalBalance unspent
              /\ ByLimit.prepareInputs unspent threshold maxInputs DEFAULT_SECURITY
                 = Ok s).
Proof.
  split.
  - intros Provider Transaction transferValue filterNonFunded omitIncoming filterOutgoing
      pickUnspent provider addressData transactions threshold maxInputs stages s H.
    apply ByMaxInputs_getInputs_resolved in H.
    destruct H as (Hstages & pending & unspent & Hpending & Hunspent & Htotal & Hs).
    destruct (prepareInputs_Ok_reaches_threshold unspent threshold maxInputs
                DEFAULT_SECURITY s (or_introl Hs)) as (Hsum & Hreach & Hne).
    repeat split; try assumption. exists pending, unspent. repeat split; assumption.
  - intros Provider Transaction constructBundles filterNonFunded filterIncoming
      filterOutgoing filterSpent provider addressData transactions threshold maxInputs
      stages s H.
    apply ByLimit_getInputs_resolved in H.
    destruct H as (Hstages & funded & unspent & Hfunded & Hunspent & Htotal & Hs).
    destruct (prepareInputs_Ok_reaches_threshold unspent threshold maxInputs
                DEFAULT_SECURITY s (or_intror Hs)) as (Hsum & Hreach & Hne).
    repeat split; try assumption. exists funded, unspent. repeat split; assumption.
Qed.

Lemma getInputs_resolves_after_every_stage_witness :
  exists s,
    exampleGetInputs
      [mkAddressEntry "A" 0 5 true false; mkAddressEntry "AA" 1 4 false false;
       mkAddressEntry "AAA" 2 2 false false]
      [] 3
    = (everyStage, Ok s)
    /\ map balance (inputs s) = [4]
    /\ 3 <= total s
    /\ total s = Lodash.sumBy balance (inputs s).
Proof.
  assert (Hs : exists s,
             exampleGetInputs
               [mkAddressEntry "A" 0 5 true false; mkAddressEntry "AA" 1 4 false false;
                mkAddressEntry "AAA" 2 2 false false]
               [] 3
             = (everyStage, Ok s)
             /\ map balance (inputs s) = [4])
    by (eexists; split; [vm_compute; reflexivity | reflexivity]).
  destruct Hs as (s & Hs & Hbalances).
  exists s. split; [exact Hs|]. split; [exact Hbalances|].
  destruct getInputs_resolves_after_every_stage as [Hfirst _].
  destruct (Hfirst _ _ _ _ _ _ _ _ _ _ _ _ _ _ Hs) as (_ & _ & Hreach & Hsum & _).
  split; assumption.
Defined.

(** X16.  [getInputs] calls none of its collaborators exactly when it
    rejects its arguments: when the total balance of the address data is
    below the threshold (INSUFFICIENT_BALANCE), or else when the limit is not
    acceptable (INVALID_MAX_INPUTS_PROVIDED): not a number in the first copy,
    neither a number nor [null] in the second.  Otherwise the filter of
    non-funded transactions is called first. *)
Theorem getInputs_checks_arguments_before_any_stage :
  (forall (Provider Transaction : Type) (transferValue : Transaction -> Z)
          (filterNonFunded : Provider -> list Transaction -> list AddressEntry ->
                             Result (list Transaction))
          (omitIncoming filterOutgoing :
             list AddressEntry -> list Transaction -> list AddressEntry)
          (pickUnspent : Provider -> list AddressEntry -> list Transaction ->
                         Result (list AddressEntry))
          provider addressData transactions threshold maxInputs,
      let p := ByMaxInputs.getInputs Provider Transaction transferValue filterNonFunded
                 omitIncoming filterOutgoing pickUnspent
                 provider addressData transactions threshold maxInputs in
      (totalBalance addressData < threshold -> p = ([], Throw INSUFFICIENT_BALANCE))
      /\ (threshold <= totalBalance addressData -> isNumber maxInputs = false ->
          p = ([], Throw INVALID_MAX_INPUTS_PROVIDED))
      /\ (threshold <= totalBalance addressData -> isNumber maxInputs = true ->
          exists later, fst p = NonFundedStage :: later))
  /\ (forall (Provider Transaction : Type)
             (constructBundles : list Transaction -> list (list Transaction))
             (filterNonFunded : Provider -> list (list Transaction) ->
                                Result (list (list Transaction)))
             (filterIncoming filterOutgoing :
                list AddressEntry -> list Transaction -> list AddressEntry)
             (filterSpent : Provider -> list AddressEntry -> list Transaction ->
                            Result (list AddressEntry))
             provider addressData transactions threshold maxInputs,
         let p := ByLimit.getInputs Provider Transaction constructBundles filterNonFunded
                    filterIncoming filterOutgoing filterSpent
                    provider addressData transactions threshold maxInputs in
         (totalBalance addressData < threshold -> p = ([], Throw INSUFFICIENT_BALANCE))
         /\ (threshold <= totalBalance addressData -> maxInputs = LimitOther ->
             p = ([], Throw INVALID_MAX_INPUTS_PROVIDED))
         /\ (threshold <= totalBalance addressData -> maxInputs <> LimitOther ->
             exists later, fst p = NonFundedStage :: later)).
Proof.
  split.
  - intros Provider Transaction transferValue filterNonFunded omitIncoming filterOutgoing
      pickUnspent provider addressData transactions threshold maxInputs p.
    subst p. unfold ByMaxInputs.getInputs, andThen, run, reject.
    split; [|split].
    + intros Hlt. decide_ltb. reflexivity.
    + intros Hge Hnum. decide_ltb. rewrite Hnum. reflexivity.
    + intros Hge Hnum. decide_ltb. rewrite Hnum. cbn [negb].
      split_promise; eexists; reflexivity.
  - intros Provider Transaction constructBundles filterNonFunded filterIncoming
      filterOutgoing filterSpent provider addressData transactions threshold maxInputs p.
    subst p. unfold ByLimit.getInputs, andThen, run, reject.
    split; [|split].
    + intros Hlt. decide_ltb. reflexivity.
    + intros Hge ->. decide_ltb. reflexivity.
    + intros Hge Hnum. decide_ltb.
      replace (match maxInputs with LimitOther => true | _ => false end) with false
        by (destruct maxInputs; congruence).
      split_promise; eexists; reflexivity.
Qed.

(** [prepareInputs] returns nothing for a threshold of 0, nor, in the second
    copy, for a limit of 0. *)
Lemma prepareInputs_zero_arguments addressData threshold limit security s :
  (ByMaxInputs.prepareInputs addressData 0 limit security = Ok s -> False)
  /\ (ByLimit.prepareInputs addressData 0 limit security = Ok s -> False)
  /\ (ByLimit.prepareInputs addressData threshold (LimitNumber 0) security = Ok s -> False).
Proof.
  split; [|split].
  - unfold ByMaxInputs.prepareInputs. destruct (_ <? 0); discriminate.
  - unfold ByLimit.prepareInputs. destruct (_ <? 0); discriminate.
  - unfold ByLimit.prepareInputs.
    destruct (_ <? threshold); [discriminate|].
    destruct (threshold =? 0); discriminate.
Qed.

(** X17.  [getInputs] (either copy) never resolves for a threshold of 0, and
    the second copy never resolves for a limit of 0, although it accepts
    that limit at first and runs its stages: the promise rejects, whatever
    the collaborators answer. *)
Theorem getInputs_rejects_zero_threshold_and_zero_limit :
  (forall (Provider Transaction : Type) (transferValue : Transaction -> Z)
          (filterNonFunded : Provider -> list Transaction -> list AddressEntry ->
                             Result (list Transaction))
          (omitIncoming filterOutgoing :
             list AddressEntry -> list Transaction -> list AddressEntry)
          (pickUnspent : Provider -> list AddressEntry -> list Transaction ->
                         Result (list AddressEntry))
          provider addressData transactions maxInputs,
      exists e,
        snd (ByMaxInputs.getInputs Provider Transaction transferValue filterNonFunded
               omitIncoming filterOutgoing pickUnspent
               provider addressData transactions 0 maxInputs) = Throw e)
  /\ (forall (Provider Transaction : Type)
             (constructBundles : list Transaction -> list (list Transaction))
             (filterNonFunded : Provider -> list (list Transaction) ->
                                Result (list (list Transaction)))
             (filterIncoming filterOutgoing :
                list AddressEntry -> list Transaction -> list AddressEntry)
             (filterSpent : Provider -> list AddressEntry -> list Transaction ->
                            Result (list AddressEntry))
             provider addressData transactions threshold maxInputs,
         (exists e,
             snd (ByLimit.getInputs Provider Transaction constructBundles filterNonFunded
                    filterIncoming filterOutgoing filterSpent
                    provider addressData transactions 0 maxInputs) = Throw e)
         /\ (exists e,
                snd (ByLimit.getInputs Provider Transaction constructBundles
                       filterNonFunded filterIncoming filterOutgoing filterSpent
                       provider addressData transactions threshold (LimitNumber 0))
                = Throw e)
         /\ (forall funded unspent,
                filterNonFunded provider (constructBundles transactions) = Ok funded ->
                filterSpent provider
                  (filterOutgoing (filterIncoming addressData (concat funded)) transactions)
                  transactions = Ok unspent ->
                threshold <= totalBalance addressData ->
                threshold <= totalBalance (filterIncoming addressData (concat funded)) ->
                threshold <= totalBalance
                               (filterOutgoing (filterIncoming addressData (concat funded))
                                  transactions) ->
                threshold <= totalBalance unspent ->
                threshold <> 0 ->
                ByLimit.getInputs Provider Transaction constructBundles
                  filterNonFunded filterIncoming filterOutgoing filterSpent
                  provider addressData transactions threshold (LimitNumber 0)
                = (everyStage, Throw INPUTS_LIMIT_CANNOT_BE_ZERO))).
Proof.
  split.
  - intros Provider Transaction transferValue filterNonFunded omitIncoming filterOutgoing
      pickUnspent provider addressData transactions maxInputs.
    destruct (ByMaxInputs.getInputs Provider Transaction transferValue filterNonFunded
                omitIncoming filterOutgoing pickUnspent
                provider addressData transactions 0 maxInputs) as [stages [s|e]] eqn:H;
      [|eexists; reflexivity].
    exfalso. apply ByMaxInputs_getInputs_resolved in H.
    destruct H as (_ & pending & unspent & _ & _ & _ & Hs).
    destruct (prepareInputs_zero_arguments unspent 0 maxInputs DEFAULT_SECURITY s)
      as (Hnever & _ & _).
    exact (Hnever Hs).
  - intros Provider Transaction constructBundles filterNonFunded filterIncoming
      filterOutgoing filterSpent provider addressData transactions threshold maxInputs.
    split; [|split].
    + destruct (ByLimit.getInputs Provider Transaction constructBundles filterNonFunded
                  filterIncoming filterOutgoing filterSpent
                  provider addressData transactions 0 maxInputs) as [stages [s|e]] eqn:H;
        [|eexists; reflexivity].
      exfalso. apply ByLimit_getInputs_resolved in H.
      destruct H as (_ & funded & unspent & _ & _ & _ & Hs).
      destruct (prepareInputs_zero_arguments unspent 0 maxInputs DEFAULT_SECURITY s)
        as (_ & Hnever & _).
      exact (Hnever Hs).
    + destruct (ByLimit.getInputs Provider Transaction constructBundles filterNonFunded
                  filterIncoming filterOutgoing filterSpent
                  provider addressData transactions threshold (LimitNumber 0))
        as [stages [s|e]] eqn:H; [|eexists; reflexivity].
      exfalso. apply ByLimit_getInputs_resolved in H.
      destruct H as (_ & funded & unspent & _ & _ & _ & Hs).
      destruct (prepareInputs_zero_arguments unspent threshold (LimitNumber 0)
                  DEFAULT_SECURITY s) as (_ & _ & Hnever).
      exact (Hnever Hs).
    + intros funded unspent Hfunded Hunspent H0 H1 H2 H3 Hne.
      unfold ByLimit.getInputs, andThen, run, reject.
      decide_ltb. rewrite Hfunded. decide_ltb. cbn [app]. decide_ltb.
      rewrite Hunspent. decide_ltb. cbn [app].
      unfold everyStage. f_equal. unfold ByLimit.prepareInputs.
      decide_ltb.
      replace (threshold =? 0) with false by (symmetry; apply Z.eqb_neq; assumption).
      reflexivity.
Qed.

(** ** The errors of [prepareInputs] *)

(** Once the arguments are accepted, the only errors left are the two
    [TypeError]s of the runtime and the failure to meet the limit. *)
Definition selectionError (e : Error) : Prop :=
  e = TypeError_balance_of_undefined
  \/ e = TypeError_destructure_undefined
  \/ e = CANNOT_FIND_INPUTS_WITH_PROVIDED_LIMIT.

Lemma ByMaxInputs_prepareInputs_Throw addressData threshold limit security e :
  ByMaxInputs.prepareInputs addressData threshold limit security = Throw e ->
  (e = INSUFFICIENT_BALANCE /\ totalBalance addressData < threshold)
  \/ (threshold <= totalBalance addressData
      /\ ((e = INPUTS_THRESHOLD_CANNOT_BE_ZERO /\ threshold = 0)
          \/ (threshold <> 0
              /\ ((e = INVALID_MAX_INPUTS_PROVIDED /\ isNumber limit = false)
                  \/ (isNumber limit = true /\ selectionError e))))).
Proof.
  unfold ByMaxInputs.prepareInputs, selectionError. intros H.
  destruct (Z.ltb_spec (totalBalance addressData) threshold) as [Hlt | Hge].
  { injection H as <-. left. split; [reflexivity | assumption]. }
  right. split; [assumption|].
  destruct (Z.eqb_spec threshold 0) as [Hzero | Hne].
  { injection H as <-. left. split; [reflexivity | assumption]. }
  right. split; [assumption|].
  destruct limit as [m| |];
    try (injection H as <-; left; split; reflexivity).
  right. split; [reflexivity|].
  destruct (selectByOptimalValue _ _ _ _) as [[sel avail]|e'] eqn:Hrun.
  - destruct (_ && _); [|discriminate].
    apply selectWithLimit_Throw in H. tauto.
  - injection H as <-. apply selectByOptimalValue_Throw in Hrun. tauto.
Qed.

Lemma ByLimit_prepareInputs_Throw addressData threshold limit security e :
  ByLimit.prepareInputs addressData threshold limit security = Throw e ->
  (e = INSUFFICIENT_BALANCE /\ totalBalance addressData < threshold)
  \/ (threshold <= totalBalance addressData
      /\ ((e = INPUTS_THRESHOLD_CANNOT_BE_ZERO /\ threshold = 0)
          \/ (threshold <> 0
              /\ ((e = INPUTS_LIMIT_CANNOT_BE_ZERO /\ limit = LimitNumber 0)
                  \/ (limit <> LimitNumber 0 /\ selectionError e))))).
Proof.
  unfold ByLimit.prepareInputs, selectionError. intros H.
  destruct (Z.ltb_spec (totalBalance addressData) threshold) as [Hlt | Hge].
  { injection H as <-. left. split; [reflexivity | assumption]. }
  right. split; [assumption|].
  destruct (Z.eqb_spec threshold 0) as [Hzero | Hne].
  { injection H as <-. left. split; [reflexivity | assumption]. }
  right. split; [assumption|].
  destruct (match limit with LimitNumber 0 => true | _ => false end) eqn:Hlimit.
  { injection H as <-. left. split; [reflexivity|].
    destruct limit as [[| |]| |]; try discriminate. reflexivity. }
  right. split; [intros ->; discriminate|].
  destruct (selectByOptimalValue _ _ _ _) as [[sel avail]|e'] eqn:Hrun.
  - destruct limit as [m| |]; try discriminate.
    destruct (_ >? m); [|discriminate].
    apply selectWithLimit_Throw in H. tauto.
  - injection H as <-. apply selectByOptimalValue_Throw in Hrun. tauto.
Qed.

(** X18.  The argument errors of the first copy of [prepareInputs], each
    under its exact condition: INSUFFICIENT_BALANCE when the total balance is
    below the threshold; otherwise INPUTS_THRESHOLD_CANNOT_BE_ZERO when the
    threshold is 0; otherwise INVALID_MAX_INPUTS_PROVIDED when the limit is
    not a number.  None of them comes out of the selection itself. *)
Theorem ByMaxInputs_prepareInputs_argument_errors :
  forall addressData threshold limit security,
    (ByMaxInputs.prepareInputs addressData threshold limit security
     = Throw INSUFFICIENT_BALANCE
     <-> totalBalance addressData < threshold)
    /\ (ByMaxInputs.prepareInputs addressData threshold limit security
        = Throw INPUTS_THRESHOLD_CANNOT_BE_ZERO
        <-> threshold <= totalBalance addressData /\ threshold = 0)
    /\ (ByMaxInputs.prepareInputs addressData threshold limit security
        = Throw INVALID_MAX_INPUTS_PROVIDED
        <-> threshold <= totalBalance addressData /\ threshold <> 0
            /\ isNumber limit = false).
Proof.
  intros addressData threshold limit security.
  split; [|split]; split.
  - intros H. apply ByMaxInputs_prepareInputs_Throw in H. unfold selectionError in H.
    destruct H as [[_ H] | (_ & [[H _] | (_ & [[H _] | (_ & [H | [H | H]])])])];
      [assumption | discriminate..].
  - intros Hlt. unfold ByMaxInputs.prepareInputs. decide_ltb. reflexivity.
  - intros H. apply ByMaxInputs_prepareInputs_Throw in H. unfold selectionError in H.
    destruct H as [[H _] | (Hge & [[_ Hzero] | (_ & [[H _] | (_ & [H | [H | H]])])])];
      [discriminate | tauto | discriminate..].
  - intros [Hge ->]. unfold ByMaxInputs.prepareInputs. decide_ltb. reflexivity.
  - intros H. apply ByMaxInputs_prepareInputs_Throw in H. unfold selectionError in H.
    destruct H as [[H _] | (Hge & [[H _] | (Hne & [[_ Hnum] | (_ & [H | [H | H]])])])];
      [discriminate | discriminate | tauto | discriminate..].
  - intros (Hge & Hne & Hnum). unfold ByMaxInputs.prepareInputs. decide_ltb.
    replace (threshold =? 0) with false by (symmetry; apply Z.eqb_neq; assumption).
    destruct limit; [discriminate | reflexivity | reflexivity].
Qed.

(** X19.  The argument errors of the second copy of [prepareInputs], each
    under its exact condition: INSUFFICIENT_BALANCE when the total balance is
    below the threshold; otherwise INPUTS_THRESHOLD_CANNOT_BE_ZERO when the
    threshold is 0; otherwise INPUTS_LIMIT_CANNOT_BE_ZERO when the limit is
    the number 0.  This copy never throws INVALID_MAX_INPUTS_PROVIDED: a
    limit that is not a number is no limit. *)
Theorem ByLimit_prepareInputs_argument_errors :
  forall addressData threshold limit security,
    (ByLimit.prepareInputs addressData threshold limit security
     = Throw INSUFFICIENT_BALANCE
     <-> totalBalance addressData < threshold)
    /\ (ByLimit.prepareInputs addressData threshold limit security
        = Throw INPUTS_THRESHOLD_CANNOT_BE_ZERO
        <-> threshold <= totalBalance addressData /\ threshold = 0)
    /\ (ByLimit.prepareInputs addressData threshold limit security
        = Throw INPUTS_LIMIT_CANNOT_BE_ZERO
        <-> threshold <= totalBalance addressData /\ threshold <> 0
            /\ limit = LimitNumber 0)
    /\ ByLimit.prepareInputs addressData threshold limit security
       <> Throw INVALID_MAX_INPUTS_PROVIDED.
Proof.
  intros addressData threshold limit security.
  split; [|split; [|split]]; [split | split | split |].
  - intros H. apply ByLimit_prepareInputs_Throw in H. unfold selectionError in H.
    destruct H as [[_ H] | (_ & [[H _] | (_ & [[H _] | (_ & [H | [H | H]])])])];
      [assumption | discriminate..].
  - intros Hlt. unfold ByLimit.prepareInputs. decide_ltb. reflexivity.
  - intros H. apply ByLimit_prepareInputs_Throw in H. unfold selectionError in H.
    destruct H as [[H _] | (Hge & [[_ Hzero] | (_ & [[H _] | (_ & [H | [H | H]])])])];
      [discriminate | tauto | discriminate..].
  - intros [Hge ->]. unfold ByLimit.prepareInputs. decide_ltb. reflexivity.
  - intros H. apply ByLimit_prepareInputs_Throw in H. unfold selectionError in H.
    destruct H as [[H _] | (Hge & [[H _] | (Hne & [[_ Hnum] | (_ & [H | [H | H]])])])];
      [discriminate | discriminate | tauto | discriminate..].
  - intros (Hge & Hne & ->). unfold ByLimit.prepareInputs. decide_ltb.
    replace (threshold =? 0) with false by (symmetry; apply Z.eqb_neq; assumption).
    reflexivity.
  - intros H. apply ByLimit_prepareInputs_Throw in H. unfold selectionError in H.
    destruct H as [[H _] | (_ & [[H _] | (_ & [[H _] | (_ & [H | [H | H]])])])];
      discriminate.
Qed.

(** X20.  For every positive limit the two copies of [prepareInputs] are the
    same function: they return the same selection or throw the same
    error. *)
Theorem prepareInputs_copies_agree_on_positive_limit :
  forall addressData threshold m security,
    0 < m ->
    ByMaxInputs.prepareInputs addressData threshold (LimitNumber m) security
    = ByLimit.prepareInputs addressData threshold (LimitNumber m) security.
Proof.
  intros addressData threshold m security Hm.
  apply prepareInputs_copies_agree. assumption.
Qed.

Lemma prepareInputs_copies_agree_on_positive_limit_witness :
  ByMaxInputs.prepareInputs (poolOf [8; 1; 3; 7]) 10 (LimitNumber 2) DEFAULT_SECURITY
  = ByLimit.prepareInputs (poolOf [8; 1; 3; 7]) 10 (LimitNumber 2) DEFAULT_SECURITY.
Proof.
  apply (prepareInputs_copies_agree_on_positive_limit (poolOf [8; 1; 3; 7]) 10 2
           DEFAULT_SECURITY).
  lia.
Defined.
